(** * cleaning.py: a shallow embedding of the data-cleaning helpers

    The module [src/cleaning.py] holds six independent functions over a
    pandas DataFrame.  A DataFrame is embedded as the ordered list of its
    columns; the Python objects the functions mutate live in a store of
    DataFrames addressed by references, so that "mutated in place" and
    "a new object is returned" are different outcomes.

    Library calls (pandas, numpy, scikit-learn) are embedded by their
    documented behaviour on the data the functions hand to them:
    - a dataset is an ordered mapping from labels to columns, so the
      statements about [df[var]] assume unique labels;
    - column labels are strings of 8-bit characters; the lowercase and
      uppercase steps of [clean_headers] are embedded for ASCII labels, and
      the statements about them assume such labels;
    - the default sort of [sort_values] is stated by its contract (a sorted
      permutation) and, for what it does to equal values, embedded from
      numpy's introsort;
    - numeric cells are integers, and the percentages of [check_missing]
      are exact rationals: floating-point rounding is left out;
    - the progress messages the functions print are left out. *)

From stdpp Require Import base option list strings gmap sorting.
From Stdlib Require Import Ascii QArith.

Set Default Proof Using "Type".
Local Open Scope Z_scope.
Local Open Scope string_scope.
Local Open Scope list_scope.

(** ** Values, columns, datasets *)

Inductive Month :=
  | Jan | Feb | Mar | Apr | May | Jun | Jul | Aug | Sep | Oct | Nov | Dec.

(** A pandas [Timestamp], by its calendar fields. *)
Record Timestamp := mkTimestamp {
  ts_year : Z;
  ts_month : Month;
  ts_day : Z
}.

(** A cell.  [NaN] is the missing value ([NaN], [NaT], [None]); numbers are
    integers: the functions only test their sign, compare them and count
    them. *)
Inductive value :=
  | NaN
  | Num (n : Z)
  | Str (s : string)
  | Time (t : Timestamp).

(** The declared kind of a column, as [select_dtypes] sees it. *)
Inductive dtype := number | object | category | datetime.

Record Column := mkColumn {
  name : string;
  kind : dtype;
  values : list value
}.

Abbreviation DataFrame := (list Column).

Global Instance Month_eq_dec : EqDecision Month.
Proof. solve_decision. Defined.
Global Instance Timestamp_eq_dec : EqDecision Timestamp.
Proof. solve_decision. Defined.
Global Instance value_eq_dec : EqDecision value.
Proof. solve_decision. Defined.
Global Instance dtype_eq_dec : EqDecision dtype.
Proof. solve_decision. Defined.
Global Instance Column_eq_dec : EqDecision Column.
Proof. solve_decision. Defined.

(** [df.columns] *)
Definition columns (df : DataFrame) : list string := name <$> df.

(** Column labels are unique in a dataset that is an ordered mapping from
    names to columns. *)
Definition unique_labels (df : DataFrame) : Prop := NoDup (columns df).

(** ** Exceptions and the two monads *)

Inductive exn :=
  | KeyError          (* a column label that is not in the dataset *)
  | AttributeError    (* [.dt] on a column that holds no datetimes *)
  | TypeError         (* the encoder sorting values of different types *)
  | ValueError        (* [df.columns = ...] with a wrong number of labels *)
  | InvalidReference. (* a reference outside the store; no Python caller has one *)

Inductive result (A : Type) :=
  | Ok (a : A)
  | Raise (e : exn).
Arguments Ok {A} a.
Arguments Raise {A} e.

(** [D A]: code that runs against one DataFrame object and may mutate it.
    An exception leaves the mutations made so far in place. *)
Definition D (A : Type) : Type := DataFrame → DataFrame * result A.

Global Instance D_ret : MRet D := λ A a df, (df, Ok a).
Global Instance D_bind : MBind D := λ A B f m df,
  match m df with
  | (df', Ok a) => f a df'
  | (df', Raise e) => (df', Raise e)
  end.

Definition raise {A} (e : exn) : D A := λ df, (df, Raise e).
Definition get_df : D DataFrame := λ df, (df, Ok df).

(** [if b: body] *)
Definition when (b : bool) (body : D unit) : D unit :=
  if b then body else mret tt.

(** [for x in xs: body] *)
Fixpoint for_each {A} (xs : list A) (body : A → D unit) : D unit :=
  match xs with
  | [] => mret tt
  | x :: xs' => _ ← body x; for_each xs' body
  end.

(** The store of DataFrame objects. *)
Definition ref := positive.
Abbreviation store := (gmap ref DataFrame).
Definition M (A : Type) : Type := store → store * result A.

Global Instance M_ret : MRet M := λ A a σ, (σ, Ok a).
Global Instance M_bind : MBind M := λ A B f m σ,
  match m σ with
  | (σ', Ok a) => f a σ'
  | (σ', Raise e) => (σ', Raise e)
  end.

(** Run object-level code on the object behind [r]. *)
Definition on_object {A} (r : ref) (m : D A) : M A := λ σ,
  match σ !! r with
  | Some df => let '(df', a) := m df in (<[r := df']> σ, a)
  | None => (σ, Raise InvalidReference)
  end.

(** Allocate a new DataFrame object. *)
Definition new_object (df : DataFrame) : M ref := λ σ,
  let r := fresh (dom σ) in (<[r := df]> σ, Ok r).

(** ** pandas primitives *)

(** The column labelled [var], if there is one. *)
Fixpoint lookup_column (var : string) (df : DataFrame) : option Column :=
  match df with
  | [] => None
  | c :: df' => if decide (name c = var) then Some c else lookup_column var df'
  end.

(** [df[var]] *)
Definition getitem (var : string) : D Column := λ df,
  match lookup_column var df with
  | Some c => (df, Ok c)
  | None => (df, Raise KeyError)
  end.

(** The effect of [df[var] = ...] on the column list: an existing column
    keeps its position and gets the new contents, a new label is appended. *)
Fixpoint assign (var : string) (k : dtype) (vs : list value)
    (df : DataFrame) : DataFrame :=
  match df with
  | [] => [mkColumn var k vs]
  | c :: df' =>
      if decide (name c = var) then mkColumn var k vs :: df'
      else c :: assign var k vs df'
  end.

(** [df[var] = s], for a series [s] of kind [k] with values [vs] *)
Definition setitem (var : string) (k : dtype) (vs : list value) : D unit :=
  λ df, (assign var k vs df, Ok tt).

(** [df.columns = labels] *)
Definition set_columns (labels : list string) : D unit := λ df,
  if decide (length labels = length df)
  then (zip_with (λ l c, mkColumn l (kind c) (values c)) labels df, Ok tt)
  else (df, Raise ValueError).

(** [df.select_dtypes(include=k).columns.to_list()] *)
Definition select_dtypes_include (k : dtype) (df : DataFrame) : list string :=
  columns (filter (λ c, kind c = k) df).

(** [df.select_dtypes(exclude=k).columns.to_list()] *)
Definition select_dtypes_exclude (k : dtype) (df : DataFrame) : list string :=
  columns (filter (λ c, kind c ≠ k) df).

(** ** Strings: the [.str] methods the header normalizer uses

    Column labels are ASCII strings; case mapping acts on the letters. *)

Definition chars (s : string) : list ascii := String.list_ascii_of_string s.

(** [s.replace(old, new)] for a one-character pattern [old] *)
Fixpoint str_replace (old : ascii) (new : string) (s : string) : string :=
  match s with
  | EmptyString => EmptyString
  | String c s' =>
      if decide (c = old) then new +:+ str_replace old new s'
      else String c (str_replace old new s')
  end.

Definition is_lower (c : ascii) : bool :=
  let n := nat_of_ascii c in (97 <=? n)%nat && (n <=? 122)%nat.
Definition is_upper (c : ascii) : bool :=
  let n := nat_of_ascii c in (65 <=? n)%nat && (n <=? 90)%nat.

Definition lower_char (c : ascii) : ascii :=
  if is_upper c then ascii_of_nat (nat_of_ascii c + 32) else c.
Definition upper_char (c : ascii) : ascii :=
  if is_lower c then ascii_of_nat (nat_of_ascii c - 32) else c.

(** [s.lower()], [s.upper()] on ASCII labels.  Python's two methods
    follow the Unicode case tables; on a string of ASCII characters they
    change the 26 letters and nothing else, which is what is embedded
    here.  Every statement below about a call with the lowercase or the
    uppercase switch on assumes ASCII labels ([ascii_labels]). *)
Fixpoint str_map (f : ascii → ascii) (s : string) : string :=
  match s with
  | EmptyString => EmptyString
  | String c s' => String (f c) (str_map f s')
  end.
Definition str_lower : string → string := str_map lower_char.
Definition str_upper : string → string := str_map upper_char.



(** ** clean_headers *)

(** A keyword argument: [None] when the caller leaves it out. *)
Definition kwarg (default : bool) (given : option bool) : bool :=
  match given with Some b => b | None => default end.

Definition clean_headers_body
    (remove_whitespace replace_dash lowercase uppercase : option bool) : D unit :=
  let remove_whitespace := kwarg true remove_whitespace in
  let replace_dash := kwarg false replace_dash in
  let lowercase := kwarg false lowercase in
  let uppercase := kwarg false uppercase in
  _ ← when remove_whitespace
        (df ← get_df; set_columns (str_replace " " "" <$> columns df));
  _ ← when replace_dash
        (df ← get_df; set_columns (str_replace "-" "_" <$> columns df));
  _ ← when lowercase
        (df ← get_df; set_columns (str_lower <$> columns df));
  when uppercase
        (df ← get_df; set_columns (str_upper <$> columns df)).

Definition clean_headers (df : ref)
    (remove_whitespace replace_dash lowercase uppercase : option bool) : M ref :=
  _ ← on_object df
        (clean_headers_body remove_whitespace replace_dash lowercase uppercase);
  mret df.

(** ** check_missing *)

(** A float series indexed by column label; [None] is NaN. *)
Abbreviation Series := (list (string * option Q)).

Definition isnull (v : value) : bool :=
  match v with NaN => true | _ => false end.

(** The mean of a boolean column: the share of [true]; NaN on no rows. *)
Definition bool_mean (bs : list bool) : option Q :=
  match bs with
  | [] => None
  | _ => Some (Z.of_nat (length (filter (λ b, b = true) bs))
               # Pos.of_nat (length bs))%Q
  end.

(** [df.isnull().mean()] *)
Definition isnull_mean (df : DataFrame) : Series :=
  (λ c, (name c, bool_mean (isnull <$> values c))) <$> df.

Definition non_nans (s : Series) : list (string * Q) :=
  omap (λ e : string * option Q, match e.2 with Some q => Some (e.1, q) | None => None end) s.
Definition nans (s : Series) : Series :=
  filter (λ e : string * option Q, e.2 = None) s.

(** [s * 100] and [s.loc[s > 0]]; NaN stays NaN and is not positive. *)
Definition times_100 (s : Series) : Series :=
  (λ e : string * option Q, (e.1, (λ q, q * 100)%Q <$> e.2)) <$> s.
Definition positive_cell (x : option Q) : bool :=
  match x with Some q => (0 <? Qnum q)%Z | None => false end.
Definition loc_positive (s : Series) : Series :=
  filter (λ e : string * option Q, positive_cell e.2 = true) s.

Section check_missing.
(** What numpy's argsort does to the non-missing entries, ascending.  The
    function calls [sort_values] with the default [kind='quicksort'], for
    which the library promises a sorted permutation and no more. *)
Variable sort : list (string * Q) → list (string * Q).

(** [s.sort_values(ascending=False)]: pandas reverses the non-missing
    entries, sorts them ascending, reverses the outcome and puts the
    missing entries last. *)
Definition sort_values_descending (s : Series) : Series :=
  ((λ e : string * Q, (e.1, Some e.2)) <$> reverse (sort (reverse (non_nans s))))
  ++ nans s.

Definition check_missing_body : D Series :=
  df ← get_df;
  let missing_percentages :=
    times_100 (sort_values_descending (isnull_mean df)) in
  let missing_percentages := loc_positive missing_percentages in
  mret missing_percentages.

Definition check_missing (df : ref) : M Series :=
  on_object df check_missing_body.
End check_missing.

(** The contract of a sort by value. *)
Definition by_value : relation (string * Q) := λ a b, (a.2 <= b.2)%Q.
Definition sorts_ascending (sort : list (string * Q) → list (string * Q)) : Prop :=
  ∀ l, sort l ≡ₚ l ∧ Sorted by_value (sort l).

Global Instance Qlt_decision (x y : Q) : Decision (x < y)%Q.
Proof. unfold Qlt. apply _. Defined.
Global Instance Qeq_decision (x y : Q) : Decision (x == y)%Q.
Proof. unfold Qeq. apply _. Defined.
Global Instance Qle_decision (x y : Q) : Decision (x <= y)%Q.
Proof. unfold Qle. apply _. Defined.
Global Instance by_value_dec a b : Decision (by_value a b).
Proof. unfold by_value. apply _. Defined.

(** A sort that meets the contract.  Insertion from the right puts an
    entry before the later entries of equal value, which is what
    [kind='stable'] does. *)
Fixpoint insert_sorted (x : string * Q) (l : list (string * Q)) :=
  match l with
  | [] => [x]
  | y :: l' =>
      if decide (by_value x y) then x :: l else y :: insert_sorted x l'
  end.
Definition stable_sort (l : list (string * Q)) : list (string * Q) :=
  foldr insert_sorted [] l.

(** numpy's [argsort(kind='quicksort')] on a float array, the sort that
    [sort_values] runs by default: the introsort of numpy's
    [npysort/quicksort.cpp] ([aquicksort_]).  A range of more than 17
    entries is partitioned around the median of its first, middle and last
    entry; a range of at most 17 entries is sorted by insertion; a range
    popped from the stack below the depth limit is sorted by heapsort.
    The C code permutes an array of positions and compares the keys at
    them; here the array holds the entries themselves, label and key, and
    [less] compares their keys. *)
Definition less (x y : string * Q) : bool := bool_decide (x.2 < y.2)%Q.

Definition SMALL_QUICKSORT : Z := 16.

Definition get (a : list (string * Q)) (i : Z) : string * Q :=
  default ("", 0%Q) (a !! Z.to_nat i).
Definition set_at (a : list (string * Q)) (i : Z) (x : string * Q) :=
  <[Z.to_nat i := x]> a.
Definition swap (a : list (string * Q)) (i j : Z) :=
  set_at (set_at a i (get a j)) j (get a i).

(** [do { ++pi; } while (less(v[*pi], vp));] entered with [pi] already
    stepped once, and [do { --pj; } while (less(vp, v[*pj]));] likewise. *)
Fixpoint scan_up (fuel : nat) (a : list (string * Q)) (vp : string * Q)
    (pi : Z) : Z :=
  match fuel with
  | O => pi
  | S fuel' => if less (get a pi) vp then scan_up fuel' a vp (pi + 1) else pi
  end.
Fixpoint scan_down (fuel : nat) (a : list (string * Q)) (vp : string * Q)
    (pj : Z) : Z :=
  match fuel with
  | O => pj
  | S fuel' => if less vp (get a pj) then scan_down fuel' a vp (pj - 1) else pj
  end.

(** [for (;;) { scan up; scan down; if (pi >= pj) break; swap; }] *)
Fixpoint partition_loop (fuel : nat) (a : list (string * Q)) (vp : string * Q)
    (pi pj : Z) : list (string * Q) * Z :=
  match fuel with
  | O => (a, pi)
  | S fuel' =>
      let pi := scan_up (length a) a vp (pi + 1) in
      let pj := scan_down (length a) a vp (pj - 1) in
      if (pj <=? pi)%Z then (a, pi)
      else partition_loop fuel' (swap a pi pj) vp pi pj
  end.

(** The partition of the range [pl..pr]: the array afterwards and the
    place of the pivot. *)
Definition partition (a : list (string * Q)) (pl pr : Z)
    : list (string * Q) * Z :=
  let pm := (pl + (pr - pl) / 2)%Z in
  let a := if less (get a pm) (get a pl) then swap a pm pl else a in
  let a := if less (get a pr) (get a pm) then swap a pr pm else a in
  let a := if less (get a pm) (get a pl) then swap a pm pl else a in
  let vp := get a pm in
  let pi := pl in
  let pj := (pr - 1)%Z in
  let a := swap a pm pj in
  let '(a, pi) := partition_loop (length a) a vp pi pj in
  let pk := (pr - 1)%Z in
  (swap a pi pk, pi).

(** The insertion sort of the range [pl..pr]:
    [while (pj > pl && less(vp, v[*pk])) { *pj-- = *pk--; } *pj = vi;] *)
Fixpoint shift_down (fuel : nat) (a : list (string * Q)) (vi : string * Q)
    (pl pj : Z) : list (string * Q) :=
  match fuel with
  | O => set_at a pj vi
  | S fuel' =>
      if (pl <? pj)%Z && less vi (get a (pj - 1))
      then shift_down fuel' (set_at a pj (get a (pj - 1))) vi pl (pj - 1)
      else set_at a pj vi
  end.
Fixpoint insertion_from (fuel : nat) (a : list (string * Q)) (pl pi pr : Z)
    : list (string * Q) :=
  match fuel with
  | O => a
  | S fuel' =>
      if (pi <=? pr)%Z
      then insertion_from fuel' (shift_down (length a) a (get a pi) pl pi)
             pl (pi + 1) pr
      else a
  end.
Definition insertion_sort (a : list (string * Q)) (pl pr : Z) :=
  insertion_from (length a) a pl (pl + 1) pr.

(** The heapsort of the range [pl..pr] ([aheapsort_]), on the [n] entries
    [a[1]..a[n]] counted from [pl]. *)
Definition get1 (a : list (string * Q)) (pl k : Z) := get a (pl + k - 1).
Definition set1 (a : list (string * Q)) (pl k : Z) (x : string * Q) :=
  set_at a (pl + k - 1) x.
Fixpoint sift (fuel : nat) (a : list (string * Q)) (pl n : Z)
    (tmp : string * Q) (i j : Z) : list (string * Q) :=
  match fuel with
  | O => set1 a pl i tmp
  | S fuel' =>
      if (j <=? n)%Z then
        let j := if (j <? n)%Z && less (get1 a pl j) (get1 a pl (j + 1))
                 then (j + 1)%Z else j in
        if less tmp (get1 a pl j)
        then sift fuel' (set1 a pl i (get1 a pl j)) pl n tmp j (j + j)
        else set1 a pl i tmp
      else set1 a pl i tmp
  end.
Fixpoint heapify (fuel : nat) (a : list (string * Q)) (pl n l : Z) :=
  match fuel with
  | O => a
  | S fuel' =>
      if (0 <? l)%Z
      then heapify fuel' (sift (length a) a pl n (get1 a pl l) l (2 * l))
             pl n (l - 1)
      else a
  end.
Fixpoint heap_pop (fuel : nat) (a : list (string * Q)) (pl n : Z) :=
  match fuel with
  | O => a
  | S fuel' =>
      if (1 <? n)%Z then
        let tmp := get1 a pl n in
        let a := set1 a pl n (get1 a pl 1) in
        let n := (n - 1)%Z in
        heap_pop fuel' (sift (length a) a pl n tmp 1 2) pl n
      else a
  end.
Definition heapsort (a : list (string * Q)) (pl pr : Z) :=
  let n := (pr - pl + 1)%Z in
  heap_pop (length a) (heapify (length a) a pl n (n / 2)) pl n.

(** The main loop on the range [pl..pr].  The C code keeps the larger part
    of a partition on a stack, with the depth left, and goes on with the
    smaller one; a range is checked against the depth limit when it is
    popped.  The ranges are disjoint, so the order in which they are
    worked off does not matter. *)
Fixpoint sort_range (fuel : nat) (a : list (string * Q)) (pl pr cdepth : Z)
    (popped : bool) : list (string * Q) :=
  match fuel with
  | O => a
  | S fuel' =>
      if popped && (cdepth <? 0)%Z then heapsort a pl pr
      else if (SMALL_QUICKSORT <? pr - pl)%Z then
        let '(a, pi) := partition a pl pr in
        let cdepth := (cdepth - 1)%Z in
        if (pi - pl <? pr - pi)%Z then
          let a := sort_range fuel' a pl (pi - 1) cdepth false in
          sort_range fuel' a (pi + 1) pr cdepth true
        else
          let a := sort_range fuel' a (pi + 1) pr cdepth false in
          sort_range fuel' a pl (pi - 1) cdepth true
      else insertion_sort a pl pr
  end.

(** [npy_aquicksort(v, tosort, num)], with the depth limit
    [2 * floor(log2(num))]. *)
Definition numpy_quicksort (l : list (string * Q)) : list (string * Q) :=
  let num := Z.of_nat (length l) in
  sort_range (S (length l)) l 0 (num - 1) (2 * Z.log2 num) true.

(** ** check_negative *)

(** One cell of [series < 0]; a missing value compares [False]. *)
Definition lt0 (v : value) : bool :=
  match v with Num n => (n <? 0)%Z | _ => false end.

(** [acc = []; for x in xs: acc.append(body(x))] *)
Fixpoint collect {A B} (xs : list A) (body : A → D B) : D (list B) :=
  match xs with
  | [] => mret []
  | x :: xs' => b ← body x; bs ← collect xs' body; mret (b :: bs)
  end.

(** A Python [dict] keeps insertion order; a repeated key keeps its place
    and takes the later value. *)
Fixpoint dict_set `{EqDecision K} {V} (k : K) (v : V) (d : list (K * V)) :=
  match d with
  | [] => [(k, v)]
  | (k', v') :: d' =>
      if decide (k' = k) then (k, v) :: d' else (k', v') :: dict_set k v d'
  end.
Definition dict `{EqDecision K} {V} (items : list (K * V)) : list (K * V) :=
  foldl (λ d kv, dict_set kv.1 kv.2 d) [] items.
Definition dict_get `{EqDecision K} {V} (k : K) (d : list (K * V)) : option V :=
  snd <$> (snd <$> list_find (λ kv, kv.1 = k) d).

(** The report: one row per dictionary key, column [NegativeValues]. *)
Abbreviation Report := (list (string * bool)).

Definition check_negative_body (exclude_vars : option (list string)) : D Report :=
  let exclude_vars := default [] exclude_vars in
  df ← get_df;
  let numeric_vars := select_dtypes_include number df in
  let vars_to_check := filter (λ var, var ∉ exclude_vars) numeric_vars in
  neg_values ← collect vars_to_check
                 (λ var, c ← getitem var; mret (existsb lt0 (values c)));
  let results := dict (zip vars_to_check neg_values) in
  mret results.

Definition check_negative (df : ref) (exclude_vars : option (list string)) : M Report :=
  on_object df (check_negative_body exclude_vars).

(** ** create_time_vars *)

Definition month_number (m : Month) : Z :=
  match m with
  | Jan => 1 | Feb => 2 | Mar => 3 | Apr => 4 | May => 5 | Jun => 6
  | Jul => 7 | Aug => 8 | Sep => 9 | Oct => 10 | Nov => 11 | Dec => 12
  end.

Definition month_name (m : Month) : string :=
  match m with
  | Jan => "January" | Feb => "February" | Mar => "March" | Apr => "April"
  | May => "May" | Jun => "June" | Jul => "July" | Aug => "August"
  | Sep => "September" | Oct => "October" | Nov => "November"
  | Dec => "December"
  end.

(** Days since 1970-01-01 in the proleptic Gregorian calendar. *)
Definition days_from_civil (t : Timestamp) : Z :=
  let m := month_number (ts_month t) in
  let y := if (m <=? 2)%Z then ts_year t - 1 else ts_year t in
  let era := y `div` 400 in
  let yoe := y - era * 400 in
  let doy := (153 * (if (2 <? m)%Z then m - 3 else m + 9) + 2) `div` 5
             + ts_day t - 1 in
  let doe := yoe * 365 + yoe `div` 4 - yoe `div` 100 + doy in
  era * 146097 + doe - 719468.

(** [dayofweek], Monday is 0; 1970-01-01 was a Thursday. *)
Definition dayofweek (t : Timestamp) : Z := (days_from_civil t + 3) `mod` 7.

Definition day_names : list string :=
  ["Monday"; "Tuesday"; "Wednesday"; "Thursday"; "Friday"; "Saturday"; "Sunday"].
Definition day_name (t : Timestamp) : string :=
  default "" (day_names !! Z.to_nat (dayofweek t)).

(** The [.dt] accessor: only a datetime column has one.  A cell that holds
    no timestamp reads as [NaT]. *)
Definition as_timestamp (v : value) : option Timestamp :=
  match v with Time t => Some t | _ => None end.
Definition dt (c : Column) : D (list (option Timestamp)) :=
  if decide (kind c = datetime) then mret (as_timestamp <$> values c)
  else raise AttributeError.

(** One cell of [.dt.year], [.dt.month_name()], [.dt.day_name()], [.dt.month] *)
Definition dt_year (t : option Timestamp) : value :=
  match t with Some t => Num (ts_year t) | None => NaN end.
Definition dt_month_name (t : option Timestamp) : value :=
  match t with Some t => Str (month_name (ts_month t)) | None => NaN end.
Definition dt_day_name (t : option Timestamp) : value :=
  match t with Some t => Str (day_name t) | None => NaN end.
Definition dt_month (t : option Timestamp) : value :=
  match t with Some t => Num (month_number (ts_month t)) | None => NaN end.

(** One cell of [series.map(d)] for a dictionary keyed by integers: a key
    that is not in the dictionary, and a missing cell, give NaN. *)
Definition series_map (d : list (Z * string)) (v : value) : value :=
  match v with
  | Num n => match dict_get n d with Some s => Str s | None => NaN end
  | _ => NaN
  end.

Definition seasons : list string :=
  [ "Winter"; "Winter"; "Spring"; "Spring"; "Spring"; "Summer";
    "Summer"; "Summer"; "Autumn"; "Autumn"; "Autumn"; "Winter" ].

(** [dict(zip(range(1,13), seasons))] *)
Definition month_to_season : list (Z * string) :=
  dict (zip (seqZ 1 12) seasons).

(** [df.x = df.x.astype('category')] *)
Definition astype_category_inplace (var : string) : D unit :=
  c ← getitem var; setitem var category (values c).

(** The statements up to the [drop]: they act on the caller's object. *)
Definition create_time_vars_body (time_var : string)
    (year month day season : bool) : D unit :=
  _ ← when year
        (c ← getitem time_var; ts ← dt c;
         _ ← setitem "year" number (dt_year <$> ts);
         astype_category_inplace "year");
  _ ← when month
        (c ← getitem time_var; ts ← dt c;
         _ ← setitem "month" object (dt_month_name <$> ts);
         astype_category_inplace "month");
  _ ← when day
        (c ← getitem time_var; ts ← dt c;
         _ ← setitem "day" object (dt_day_name <$> ts);
         astype_category_inplace "day");
  when season
        (let month_to_season := month_to_season in
         c ← getitem time_var; ts ← dt c;
         _ ← setitem "season" object
               (series_map month_to_season <$> (dt_month <$> ts));
         astype_category_inplace "season").

(** [df.drop(var, axis=1)]: a new DataFrame without the columns labelled
    [var]; the receiver is not changed. *)
Definition df_drop (var : string) : D DataFrame := λ df,
  if decide (var ∈ columns df)
  then (df, Ok (filter (λ c, name c ≠ var) df))
  else (df, Raise KeyError).

Definition create_time_vars (df : ref) (time_var : string)
    (year month day season drop : option bool) : M ref :=
  let year := kwarg true year in
  let month := kwarg true month in
  let day := kwarg true day in
  let season := kwarg true season in
  let drop := kwarg true drop in
  _ ← on_object df (create_time_vars_body time_var year month day season);
  if drop then
    dropped ← on_object df (df_drop time_var);
    df ← new_object dropped;      (* [df] now names the new object *)
    mret df
  else mret df.

(** ** convert_to_categorical *)

Definition convert_to_categorical_body (add_vars : option (list string)) : D unit :=
  let add_vars := default [] add_vars in
  df ← get_df;
  let cat_vars := select_dtypes_exclude number df in
  let cat_vars :=
    if decide (0 < length add_vars)%nat then (cat_vars ++ add_vars)%list else cat_vars in
  for_each cat_vars (λ var, c ← getitem var; setitem var category (values c)).

Definition convert_to_categorical (df : ref) (add_vars : option (list string)) : M ref :=
  _ ← on_object df (convert_to_categorical_body add_vars);
  mret df.

(** ** label_encode *)

(** [series.unique()]: the distinct values in order of first appearance; a
    missing value is one of them. *)
Fixpoint unique (vs : list value) : list value :=
  match vs with
  | [] => []
  | v :: vs' => v :: filter (λ w, w ≠ v) (unique vs')
  end.

(** The order the encoder sorts by: numbers by size, strings by character
    code, timestamps by date.  Python compares no two values of different
    types, so the encoder raises before it would sort such a list; the
    order between the types below only makes the relation total. *)
Definition type_tag (v : value) : nat :=
  match v with Num _ => 0 | Str _ => 1 | Time _ => 2 | NaN => 3 end.

Definition timestamp_leb (a b : Timestamp) : bool :=
  if decide (ts_year a = ts_year b) then
    if decide (month_number (ts_month a) = month_number (ts_month b))
    then (ts_day a <=? ts_day b)%Z
    else (month_number (ts_month a) <? month_number (ts_month b))%Z
  else (ts_year a <? ts_year b)%Z.

Definition value_leb (a b : value) : bool :=
  match a, b with
  | Num x, Num y => (x <=? y)%Z
  | Str x, Str y => String.leb x y
  | Time x, Time y => timestamp_leb x y
  | _, _ => (type_tag a <=? type_tag b)%nat
  end.
Definition value_le : relation value := λ a b, value_leb a b = true.

Global Instance value_le_dec a b : Decision (value_le a b).
Proof. unfold value_le. apply _. Defined.

Definition same_type (vs : list value) : bool :=
  match vs with
  | [] => true
  | v :: vs' => forallb (λ w, (type_tag w =? type_tag v)%nat) vs'
  end.

(** The classes the encoder fits: the distinct values that are present,
    sorted, and the missing value last if the column has one. *)
Definition fit (vs : list value) : D (list value) :=
  let uniques := unique (filter (λ v, v ≠ NaN) vs) in
  if same_type uniques
  then mret (merge_sort value_le uniques
             ++ (if decide (NaN ∈ vs) then [NaN] else []))%list
  else raise TypeError.

(** The code of a value: its position among the classes. *)
Definition transform (classes : list value) (v : value) : value :=
  match list_find (λ w, w = v) classes with
  | Some (i, _) => Num (Z.of_nat i)
  | None => NaN
  end.

(** [encoder.fit_transform(series)] *)
Definition fit_transform (vs : list value) : D (list value) :=
  classes ← fit vs; mret (transform classes <$> vs).

Definition label_encode_body (exclude_list : option (list string)) : D unit :=
  let exclude_list := default [] exclude_list in
  df ← get_df;
  let cat_vars := select_dtypes_include category df in
  let vars_to_encode := filter (λ x, x ∉ exclude_list) cat_vars in
  for_each vars_to_encode (λ var,
    c ← getitem var;
    if decide (length (unique (values c)) ≤ 2)%nat then
      c ← getitem var;
      codes ← fit_transform (values c);
      setitem var number codes
    else mret tt).

Definition label_encode (df : ref) (exclude_list : option (list string)) : M ref :=
  _ ← on_object df (label_encode_body exclude_list);
  mret df.

(** ** Definitions the statements below use *)

(** The same columns under new labels. *)
Definition rename (f : string → string) (df : DataFrame) : DataFrame :=
  (λ c, mkColumn (f (name c)) (kind c) (values c)) <$> df.

(** What the four switches of [clean_headers] do to one label. *)
Definition normalize (remove_whitespace replace_dash lowercase uppercase : bool)
    (label : string) : string :=
  let label := if remove_whitespace then str_replace " " "" label else label in
  let label := if replace_dash then str_replace "-" "_" label else label in
  let label := if lowercase then str_lower label else label in
  if uppercase then str_upper label else label.


(** The flag of one column in the negative-value report, in words: some
    cell holds a number below zero. *)
Definition holds_negative (c : Column) : Prop :=
  ∃ n, Num n ∈ values c ∧ n < 0.

(** The share of missing cells of a column, in words: missing cells over
    rows (zero for a column without rows). *)
Definition missing_fraction (c : Column) : Q :=
  (Z.of_nat (length (filter (λ v, v = NaN) (values c)))
   # Pos.of_nat (length (values c)))%Q.

(** A report entry is at least as large as the one after it. *)
Definition report_ge : relation (string * option Q) := λ a b,
  match a.2, b.2 with
  | Some x, Some y => (y <= x)%Q
  | _, _ => False
  end.

(** [a] stands before [b] in a list. *)
Definition before {A} (l : list A) (a b : A) : Prop :=
  ∃ i j : nat, (i < j)%nat ∧ l !! i = Some a ∧ l !! j = Some b.

(** Entries of equal percentage appear in the order of their columns. *)
Definition ties_keep_column_order (df : DataFrame) (report : Series) : Prop :=
  ∀ a b x y,
    before report (a, Some x) (b, Some y) →
    (x == y)%Q →
    before (columns df) a b.

(** The season of a month number, in words: 12, 1, 2 are Winter; 3, 4, 5
    Spring; 6, 7, 8 Summer; 9, 10, 11 Autumn. *)
Definition season_of_month (n : Z) : string :=
  if decide (n = 12 ∨ n = 1 ∨ n = 2) then "Winter"
  else if decide (n = 3 ∨ n = 4 ∨ n = 5) then "Spring"
  else if decide (n = 6 ∨ n = 7 ∨ n = 8) then "Summer"
  else "Autumn".

(** The season cell that belongs to a cell of the source column. *)
Definition season_cell (v : value) : value :=
  match v with
  | Time t => Str (season_of_month (month_number (ts_month t)))
  | _ => NaN
  end.

(** What one of the four blocks of [create_time_vars] does to the dataset:
    it reads the source column and writes the feature column. *)
Definition feature_step (time_var var : string) (f : option Timestamp → value)
    (df : DataFrame) : DataFrame * result unit :=
  match lookup_column time_var df with
  | Some c =>
      if decide (kind c = datetime)
      then (assign var category (f <$> (as_timestamp <$> values c)) df, Ok tt)
      else (df, Raise AttributeError)
  | None => (df, Raise KeyError)
  end.

(** The same under its switch. *)
Definition feature_when (b : bool) (time_var var : string)
    (f : option Timestamp → value) : D unit := λ df,
  if b then feature_step time_var var f df else (df, Ok tt).

Definition season_feature (t : option Timestamp) : value :=
  series_map month_to_season (dt_month t).

(** The labels and the columns the switched-on features add, in the order
    the function writes them. *)
Definition feature_labels (year month day season : bool) : list string :=
  (if year then ["year"] else []) ++ (if month then ["month"] else [])
  ++ (if day then ["day"] else []) ++ (if season then ["season"] else []).

Definition feature_column (var : string) (f : option Timestamp → value)
    (src : Column) : Column :=
  mkColumn var category (f <$> (as_timestamp <$> values src)).

Definition feature_columns (src : Column) (year month day season : bool)
    : DataFrame :=
  (if year then [feature_column "year" dt_year src] else [])
  ++ (if month then [feature_column "month" dt_month_name src] else [])
  ++ (if day then [feature_column "day" dt_day_name src] else [])
  ++ (if season then [feature_column "season" season_feature src] else []).

(** Every column has [n] rows. *)
Definition rows (n : nat) (df : DataFrame) : Prop :=
  Forall (λ c, length (values c) = n) df.

(** The source column as a block of [create_time_vars] can find it: as the
    caller passed it, or overwritten by a feature written under its label
    (which makes it categorical). *)
Definition source_state (time_var : string) (src : Column) (df : DataFrame)
    : Prop :=
  lookup_column time_var df = Some src
  ∨ ∃ c, lookup_column time_var df = Some c ∧ kind c = category.

(** A column with its kind set to categorical, and a dataset in which the
    columns labelled in [vars] are. *)
Definition as_category (c : Column) : Column :=
  mkColumn (name c) category (values c).
Definition categorical_where (vars : list string) (df : DataFrame) : DataFrame :=
  (λ c, if decide (name c ∈ vars) then as_category c else c) <$> df.

(** The loop body of [convert_to_categorical]. *)
Definition convert_column (var : string) : D unit :=
  c ← getitem var; setitem var category (values c).

(** The encoder on a column whose present values are of one type: its
    classes, and the column it writes back. *)
Definition classes_of (vs : list value) : list value :=
  merge_sort value_le (unique (filter (λ v, v ≠ NaN) vs))
  ++ (if decide (NaN ∈ vs) then [NaN] else []).
Definition encode_column (c : Column) : Column :=
  mkColumn (name c) number (transform (classes_of (values c)) <$> values c).

(** The number of distinct values of a column, the missing value counted:
    the length of the column's values with repetitions left out. *)
Definition distinct_values (c : Column) : nat :=
  length (remove_dups (values c)).

(** At most two distinct values. *)
Definition low_cardinality (c : Column) : Prop :=
  (distinct_values c ≤ 2)%nat.

(** The columns [label_encode] encodes. *)
Definition encodable (exclude_list : list string) (c : Column) : Prop :=
  kind c = category ∧ (name c ∉ exclude_list) ∧ low_cardinality c.

(** The present values of a column are of one type. *)
Definition one_type (c : Column) : Prop :=
  ∀ v w, v ∈ values c → w ∈ values c → v ≠ NaN → w ≠ NaN →
         type_tag v = type_tag w.

(** A dataset in which the low-cardinality columns labelled in [vars] are
    encoded. *)
Definition encoded_where (vars : list string) (df : DataFrame) : DataFrame :=
  (λ c, if decide (name c ∈ vars ∧ low_cardinality c)
        then encode_column c else c) <$> df.

(** The loop body of [label_encode]. *)
Definition encode_if_low (var : string) : D unit :=
  c ← getitem var;
  if decide (length (unique (values c)) ≤ 2)%nat then
    c ← getitem var;
    codes ← fit_transform (values c);
    setitem var number codes
  else mret tt.

(** A value has the code [i]: it is the class at position [i]. *)
Definition has_code (classes : list value) (v code : value) : Prop :=
  ∃ i : nat, classes !! i = Some v ∧ code = Num (Z.of_nat i).

(** The column [c'] holds the codes of the column [c]: same label, numeric,
    and each cell is the 0-based position of the old cell's value among
    the distinct values of [c] in strictly sorted order. *)
Definition encodes (c c' : Column) : Prop :=
  name c' = name c
  ∧ kind c' = number
  ∧ ∃ classes,
      StronglySorted value_le classes
      ∧ NoDup classes
      ∧ (∀ v, v ∈ classes ↔ v ∈ values c)
      ∧ Forall2 (has_code classes) (values c) (values c').

(** What a block of [create_time_vars] writes when it runs on the source
    column [src]. *)
Definition write_feature (b : bool) (var : string)
    (f : option Timestamp → value) (src : Column) (df : DataFrame) : DataFrame :=
  if b then assign var category (f <$> (as_timestamp <$> values src)) df else df.

(** The four blocks in a row. *)
Definition write_features (year month day season : bool) (src : Column)
    (df : DataFrame) : DataFrame :=
  write_feature season "season" season_feature src
    (write_feature day "day" dt_day_name src
       (write_feature month "month" dt_month_name src
          (write_feature year "year" dt_year src df))).

(** The feature a label stands for. *)
Definition feature_for (var : string) : option Timestamp → value :=
  if decide (var = "year") then dt_year
  else if decide (var = "month") then dt_month_name
  else if decide (var = "day") then dt_day_name
  else season_feature.

(** A column whose cells are timestamps or missing, as a datetime column's
    are. *)
Definition holds_timestamps (c : Column) : Prop :=
  Forall (λ v, v = NaN ∨ ∃ t, v = Time t) (values c).

(** ** Example data *)

Definition sales : DataFrame :=
  [ mkColumn " Sale-Date " datetime
      [Time (mkTimestamp 2023 Jul 15); Time (mkTimestamp 2023 Dec 1); NaN];
    mkColumn "Amount" number [Num 3; Num (-2); NaN];
    mkColumn "Region" object [Str "north"; Str "east"; Str "north"] ].

Definition sales_store : store := {[ 1%positive := sales ]}.


(** A dataset with a numeric column that holds only missing values. *)
Definition gaps : DataFrame :=
  [ mkColumn "Score" number [NaN; NaN];
    mkColumn "Note" object [Str "kept"; NaN] ].
Definition gaps_store : store := {[ 1%positive := gaps ]}.

(** A dataset that already has a column labelled [year]. *)
Definition visits : DataFrame :=
  [ mkColumn "year" number [Num 1; Num 2];
    mkColumn "seen" datetime
      [Time (mkTimestamp 2023 Jul 15); Time (mkTimestamp 2024 Dec 1)];
    mkColumn "count" number [Num 7; Num 9] ].
Definition visits_store : store := {[ 1%positive := visits ]}.

(** A dataset with a timestamp column and fresh feature labels. *)
Definition orders : DataFrame :=
  [ mkColumn "placed" datetime
      [Time (mkTimestamp 2023 Jul 15); Time (mkTimestamp 2023 Dec 1); NaN];
    mkColumn "total" number [Num 3; Num (-2); NaN] ].
Definition orders_store : store := {[ 1%positive := orders ]}.

(** A dataset of categorical columns: a yes/no answer, an answer with
    gaps, a three-valued grade, a two-valued flag (to be excluded) and a
    two-valued number. *)
Definition survey : DataFrame :=
  [ mkColumn "answer" category [Str "yes"; Str "no"; Str "yes"; Str "yes"];
    mkColumn "opt" category [Str "x"; NaN; Str "x"; NaN];
    mkColumn "grade" category [Str "a"; Str "b"; Str "c"; Str "a"];
    mkColumn "flag" category [Num 5; Num 3; Num 5; Num 5];
    mkColumn "kept" category [Num 1; Num 0; Num 1; Num 0] ].
Definition survey_store : store := {[ 1%positive := survey ]}.

(** A dataset of twenty columns, each with one cell of two missing. *)
Definition wide_labels : list string :=
  [ "q01"; "q02"; "q03"; "q04"; "q05"; "q06"; "q07"; "q08"; "q09"; "q10";
    "q11"; "q12"; "q13"; "q14"; "q15"; "q16"; "q17"; "q18"; "q19"; "q20" ].
Definition wide : DataFrame :=
  (λ label, mkColumn label number [Num 1; NaN]) <$> wide_labels.
Definition wide_store : store := {[ 1%positive := wide ]}.

(** Two labels that differ only by a space. *)
Definition spaced : DataFrame :=
  [ mkColumn "unit price" number [Num 4; Num 5];
    mkColumn "unitprice" number [Num 6; Num 7] ].
Definition spaced_store : store := {[ 1%positive := spaced ]}.

(** A dataset whose date column holds text, not timestamps. *)
Definition raw : DataFrame :=
  [ mkColumn "when" object [Str "2023-07-15"; Str "2023-12-01"];
    mkColumn "paid" number [Num 3; Num 8] ].
Definition raw_store : store := {[ 1%positive := raw ]}.

(** A dataset whose timestamp column is labelled [year]. *)
Definition yearly : DataFrame :=
  [ mkColumn "year" datetime
      [Time (mkTimestamp 2023 Jul 15); Time (mkTimestamp 2024 Dec 1)];
    mkColumn "paid" number [Num 3; Num 8] ].
Definition yearly_store : store := {[ 1%positive := yearly ]}.

(** A dataset with every kind of column. *)
Definition ledger : DataFrame :=
  [ mkColumn "day" datetime [Time (mkTimestamp 2023 Jul 15); NaN];
    mkColumn "who" object [Str "ann"; Str "bob"];
    mkColumn "sum" number [Num 3; Num (-8)];
    mkColumn "tier" number [Num 1; Num 2] ].
Definition ledger_store : store := {[ 1%positive := ledger ]}.

(** A dataset of categorical columns, the second holding text and a number. *)
Definition mixed : DataFrame :=
  [ mkColumn "code" category [Str "b"; Str "a"];
    mkColumn "mix" category [Str "a"; Num 1];
    mkColumn "late" category [Str "y"; Str "n"] ].
Definition mixed_store : store := {[ 1%positive := mixed ]}.

(** * Properties *)

(** ** Running monadic code *)

Ltac unfold_D :=
  unfold mbind, mret, D_bind, D_ret, get_df, raise, when, setitem in *.

Lemma D_bind_ok {A B} (m : D A) (f : A → D B) df df' a :
  m df = (df', Ok a) → (m ≫= f) df = f a df'.
Proof. intros H. unfold mbind, D_bind. by rewrite H. Qed.

Lemma D_bind_raise {A B} (m : D A) (f : A → D B) df df' e :
  m df = (df', Raise e) → (m ≫= f) df = (df', Raise e).
Proof. intros H. unfold mbind, D_bind. by rewrite H. Qed.

Lemma D_bind_inv {A B} (m : D A) (f : A → D B) df df2 b :
  (m ≫= f) df = (df2, Ok b) →
  ∃ df1 a, m df = (df1, Ok a) ∧ f a df1 = (df2, Ok b).
Proof.
  unfold mbind, D_bind. destruct (m df) as [df1 [a|e]]; [|done]. eauto.
Qed.

Lemma on_object_run {A} (r : ref) (m : D A) (σ : store) df :
  σ !! r = Some df →
  on_object r m σ = (<[r := (m df).1]> σ, (m df).2).
Proof. intros H. unfold on_object. rewrite H. by destruct (m df). Qed.

(** A function whose body only works on the caller's object returns the
    reference it was given. *)
Lemma in_place_run (r : ref) (body : D unit) (σ : store) df df' :
  σ !! r = Some df →
  body df = (df', Ok tt) →
  (_ ← on_object r body; mret r) σ = (<[r := df']> σ, Ok r).
Proof.
  intros H Hb. unfold mbind, M_bind, mret, M_ret.
  rewrite (on_object_run _ _ _ _ H), Hb. done.
Qed.

(** ** Characters and strings *)




Lemma chars_append s1 s2 : chars (s1 +:+ s2) = chars s1 ++ chars s2.
Proof. unfold chars. induction s1 as [|c s1 IH]; simpl; [done|]. by f_equal. Qed.

Lemma str_replace_gone old new s :
  old ∉ chars new → old ∉ chars (str_replace old new s).
Proof.
  intros Hnew. induction s as [|c s IH]; simpl.
  - apply not_elem_of_nil.
  - case_decide as Hc.
    + rewrite chars_append. rewrite elem_of_app. tauto.
    + change (chars (String c ?t)) with (c :: chars t).
      rewrite elem_of_cons. naive_solver.
Qed.




(** ** clean_headers *)

Lemma columns_rename f df : columns (rename f df) = f <$> columns df.
Proof. unfold columns, rename. rewrite <-!list_fmap_compose. done. Qed.

Lemma rename_rename f g df : rename g (rename f df) = rename (g ∘ f) df.
Proof. unfold rename. rewrite <-list_fmap_compose. done. Qed.

Lemma rename_id df : rename id df = df.
Proof.
  induction df as [|[n k vs] df IH]; [done|].
  unfold rename in *. rewrite fmap_cons. by f_equal.
Qed.

Lemma set_columns_rename f df :
  set_columns (f <$> columns df) df = (rename f df, Ok tt).
Proof.
  unfold set_columns, columns.
  rewrite !length_fmap. rewrite decide_True by done. f_equal.
  unfold rename. induction df as [|c df IH]; simpl; [done|]. by f_equal.
Qed.

Lemma clean_headers_body_run (a b c d : bool) df :
  clean_headers_body (Some a) (Some b) (Some c) (Some d) df
  = (rename (normalize a b c d) df, Ok tt).
Proof.
  unfold clean_headers_body, kwarg, normalize. unfold_D.
  destruct a, b, c, d; simpl;
    repeat (rewrite set_columns_rename; rewrite ?rename_rename);
    try done; by rewrite <-(rename_id df) at 1.
Qed.









(** C9.  The signature gives [remove_whitespace] the default [True] and the
    other three switches the default [False]: a call with the dataset alone
    strips the spaces from every label, exactly as the call that switches
    only [remove_whitespace] on, and it changes every dataset that has a
    space in a label. *)
Theorem clean_headers_defaults (σ : store) (r : ref) (df : DataFrame) :
  σ !! r = Some df →
  clean_headers r None None None None σ
    = (<[r := rename (str_replace " " "") df]> σ, Ok r)
  ∧ clean_headers r None None None None σ
    = clean_headers r (Some true) (Some false) (Some false) (Some false) σ
  ∧ ((∃ label, label ∈ columns df ∧ (" "%char ∈ chars label)) →
     rename (str_replace " " "") df ≠ df).
Proof.
  intros Hr.
  assert (Hrun : clean_headers r None None None None σ
    = (<[r := rename (str_replace " " "") df]> σ, Ok r)).
  { apply (in_place_run _ _ _ df); [done|].
    apply (clean_headers_body_run true false false false). }
  split_and!; [done|done|].
  intros (label & Hin & Hsp) Heq.
  apply (f_equal columns) in Heq. rewrite columns_rename in Heq.
  apply list_elem_of_lookup in Hin as [i Hi].
  apply (f_equal (λ l, l !! i)) in Heq. rewrite list_lookup_fmap, Hi in Heq.
  simpl in Heq. injection Heq as Heq.
  apply (str_replace_gone " " "" label); [apply not_elem_of_nil|].
  by rewrite Heq.
Qed.

Lemma clean_headers_defaults_witness :
  sales_store !! 1%positive = Some sales
  ∧ clean_headers 1%positive None None None None sales_store
    = (<[1%positive := rename (str_replace " " "") sales]> sales_store,
       Ok 1%positive)
  ∧ rename (str_replace " " "") sales ≠ sales.
Proof.
  split; [reflexivity|].
  destruct (clean_headers_defaults sales_store 1%positive sales) as (H1 & _ & H3);
    [reflexivity|].
  split; [exact H1|]. apply H3. exists " Sale-Date ". split.
  - apply list_elem_of_here.
  - apply list_elem_of_here.
Defined.

(** ** Column lookup and assignment *)

Lemma getitem_lookup var df :
  getitem var df
  = (df, match lookup_column var df with Some c => Ok c | None => Raise KeyError end).
Proof. unfold getitem. by destruct (lookup_column var df). Qed.

Lemma lookup_column_Some var df c :
  lookup_column var df = Some c → c ∈ df ∧ name c = var.
Proof.
  induction df as [|c' df IH]; simpl; [done|].
  case_decide.
  - intros [= ->]. split; [apply list_elem_of_here|done].
  - intros [? ?]%IH. split; [by apply list_elem_of_further|done].
Qed.

Lemma lookup_column_elem df c :
  unique_labels df → c ∈ df → lookup_column (name c) df = Some c.
Proof.
  unfold unique_labels, columns.
  induction df as [|c' df IH]; simpl; [by intros _ ?%elem_of_nil|].
  intros [Hnotin Hnd]%NoDup_cons [->|Hin]%elem_of_cons.
  - by rewrite decide_True.
  - rewrite decide_False; [by apply IH|].
    intros Heq. apply Hnotin. rewrite Heq. by apply list_elem_of_fmap_2.
Qed.

Lemma lookup_column_assign_eq var k vs df :
  lookup_column var (assign var k vs df) = Some (mkColumn var k vs).
Proof.
  induction df as [|c df IH]; simpl.
  - by rewrite decide_True.
  - case_decide; simpl; [by rewrite decide_True|]. by rewrite decide_False.
Qed.

Lemma lookup_column_assign_ne var var' k vs df :
  var' ≠ var →
  lookup_column var' (assign var k vs df) = lookup_column var' df.
Proof.
  intros Hne. induction df as [|c df IH]; simpl.
  - by rewrite decide_False.
  - case_decide as Hc; simpl.
    + rewrite decide_False by done. rewrite decide_False by congruence. done.
    + case_decide; [done|]. apply IH.
Qed.

Lemma assign_assign var k vs k' vs' df :
  assign var k' vs' (assign var k vs df) = assign var k' vs' df.
Proof.
  induction df as [|c df IH]; simpl.
  - by rewrite decide_True.
  - case_decide; simpl; [by rewrite decide_True|].
    rewrite decide_False by done. by rewrite IH.
Qed.

Lemma assign_fresh var k vs df :
  var ∉ columns df → assign var k vs df = df ++ [mkColumn var k vs].
Proof.
  induction df as [|c df IH]; simpl; [done|].
  intros [Hne Hnotin]%not_elem_of_cons.
  rewrite decide_False by done. by rewrite IH.
Qed.

(** ** check_negative *)

Lemma getitem_elem df c :
  unique_labels df → c ∈ df → getitem (name c) df = (df, Ok c).
Proof. intros. by rewrite getitem_lookup, lookup_column_elem. Qed.

Lemma collect_columns {B} (f : Column → B) (cs : list Column) df :
  unique_labels df →
  cs ⊆ df →
  collect (name <$> cs) (λ var, c ← getitem var; mret (f c)) df
  = (df, Ok (f <$> cs)).
Proof.
  intros Hu. induction cs as [|c cs IH]; intros Hsub; [done|].
  rewrite fmap_cons. cbn [collect].
  erewrite D_bind_ok; cycle 1.
  { erewrite D_bind_ok; [reflexivity|]. apply getitem_elem; [done|].
    apply Hsub, list_elem_of_here. }
  erewrite D_bind_ok; [reflexivity|]. apply IH.
  intros x Hx. apply Hsub. by apply list_elem_of_further.
Qed.

Lemma dict_set_fresh {V} (k : string) (v : V) d :
  k ∉ d.*1 → dict_set k v d = d ++ [(k, v)].
Proof.
  induction d as [|[k' v'] d IH]; simpl; [done|].
  intros [Hne Hnotin]%not_elem_of_cons.
  rewrite decide_False by done. by rewrite IH.
Qed.

Lemma dict_unique_keys {V} (items : list (string * V)) :
  NoDup items.*1 → dict items = items.
Proof.
  unfold dict.
  assert (Hgen : ∀ acc : list (string * V), NoDup (acc.*1 ++ items.*1) →
            foldl (λ d kv, dict_set kv.1 kv.2 d) acc items = acc ++ items).
  { induction items as [|[k v] items IH]; intros acc Hnd; simpl.
    - by rewrite app_nil_r.
    - rewrite dict_set_fresh.
      + rewrite IH; [by rewrite <-app_assoc|].
        rewrite fmap_app, <-app_assoc. done.
      + apply NoDup_app in Hnd as (_ & Hdisj & _).
        intros Hin. apply (Hdisj k Hin). apply list_elem_of_here. }
  intros Hnd. by apply (Hgen []).
Qed.

Lemma zip_fmap_columns {B} (f : Column → B) (cs : list Column) :
  zip (name <$> cs) (f <$> cs) = (λ c, (name c, f c)) <$> cs.
Proof. induction cs as [|c cs IH]; simpl; [done|]. by f_equal. Qed.

Lemma filter_columns (P : string → Prop) `{∀ x, Decision (P x)} (df : DataFrame) :
  filter P (columns df) = columns (filter (λ c, P (name c)) df).
Proof.
  unfold columns. induction df as [|c df IH]; [done|].
  rewrite fmap_cons. destruct (decide (P (name c))).
  - rewrite filter_cons_True by done.
    rewrite (filter_cons_True (λ c0, P (name c0))) by done.
    by rewrite fmap_cons, IH.
  - rewrite filter_cons_False by done.
    by rewrite (filter_cons_False (λ c0, P (name c0))) by done.
Qed.

Lemma existsb_lt0 (c : Column) :
  existsb lt0 (values c) = true ↔ holds_negative c.
Proof.
  unfold holds_negative. rewrite existsb_exists. split.
  - intros (v & Hin%list_elem_of_In & Hv). destruct v as [|n| |]; try done.
    exists n. split; [done|]. by apply Z.ltb_lt.
  - intros (n & Hin & Hn). exists (Num n). split; [by apply list_elem_of_In|].
    by apply Z.ltb_lt.
Qed.

(** The columns the check looks at: numeric and not excluded. *)
Lemma check_negative_body_run (exclude_vars : option (list string)) df :
  unique_labels df →
  check_negative_body exclude_vars df
  = (df, Ok ((λ c, (name c, existsb lt0 (values c)))
             <$> filter (λ c, name c ∉ default [] exclude_vars)
                   (filter (λ c, kind c = number) df))).
Proof.
  intros Hu. unfold check_negative_body, select_dtypes_include.
  set (ex := default [] exclude_vars).
  unfold mbind at 1, D_bind at 1, get_df.
  rewrite (filter_columns (λ var, var ∉ ex)).
  set (cs := filter (λ c, name c ∉ ex) (filter (λ c, kind c = number) df)).
  unfold columns. unfold mbind at 1, D_bind at 1.
  rewrite (collect_columns (λ c, existsb lt0 (values c)) cs df Hu).
  - unfold mret, D_ret. rewrite zip_fmap_columns. rewrite dict_unique_keys; [done|].
    rewrite <-list_fmap_compose. simpl.
    apply (sublist_NoDup _ (columns df)); [exact Hu|]. unfold columns.
    apply (fmap_sublist name). unfold cs.
    etrans; apply sublist_filter.
  - intros c (_ & (_ & Hc)%list_elem_of_filter)%list_elem_of_filter. done.
Qed.

Lemma unique_labels_inj df c c' :
  unique_labels df → c ∈ df → c' ∈ df → name c = name c' → c = c'.
Proof.
  intros Hu Hc Hc' Heq.
  pose proof (lookup_column_elem df c Hu Hc) as H1.
  pose proof (lookup_column_elem df c' Hu Hc') as H2.
  rewrite Heq in H1. congruence.
Qed.

Lemma check_negative_run (σ : store) (r : ref) df exclude_vars :
  σ !! r = Some df →
  unique_labels df →
  check_negative r exclude_vars σ
  = (σ, Ok ((λ c, (name c, existsb lt0 (values c)))
            <$> filter (λ c, name c ∉ default [] exclude_vars)
                  (filter (λ c, kind c = number) df))).
Proof.
  intros Hr Hu. unfold check_negative.
  rewrite (on_object_run _ _ _ _ Hr), check_negative_body_run by done.
  simpl. by rewrite insert_id.
Qed.

Lemma report_row df (ex : list string) c flag :
  unique_labels df →
  c ∈ df →
  (name c, flag) ∈ ((λ c, (name c, existsb lt0 (values c)))
                    <$> filter (λ c, name c ∉ ex)
                          (filter (λ c, kind c = number) df))
  ↔ kind c = number ∧ (name c ∉ ex) ∧ flag = existsb lt0 (values c).
Proof.
  intros Hu Hc. rewrite list_elem_of_fmap. split.
  - intros (c' & [= Hn ->] & (Hex & (Hk & Hc')%list_elem_of_filter)%list_elem_of_filter).
    assert (c = c') as <- by by apply (unique_labels_inj df).
    done.
  - intros (Hk & Hex & ->). exists c. split; [done|].
    by rewrite !list_elem_of_filter.
Qed.

(** C5.  [check_negative] leaves the dataset as it is and returns one row
    for each numeric column that is not excluded, in column order.  The
    flag of a column is true exactly when one of its cells is a number
    below zero, so a column without rows is flagged false, and an excluded
    or non-numeric column has no row. *)
Theorem check_negative_report (σ : store) (r : ref) (df : DataFrame)
    (exclude_vars : option (list string)) :
  σ !! r = Some df →
  unique_labels df →
  ∃ report : Report,
    check_negative r exclude_vars σ = (σ, Ok report)
    ∧ report.*1
      = columns (filter (λ c, kind c = number
                              ∧ name c ∉ default [] exclude_vars) df)
    ∧ (∀ c flag, c ∈ df → (name c, flag) ∈ report →
         (flag = true ↔ holds_negative c)
         ∧ (values c = [] → flag = false))
    ∧ (∀ c, c ∈ df →
         name c ∈ default [] exclude_vars ∨ kind c ≠ number →
         name c ∉ report.*1).
Proof.
  intros Hr Hu. eexists. split; [by apply check_negative_run|].
  set (ex := default [] exclude_vars). split_and!.
  - rewrite <-list_fmap_compose. unfold columns.
    rewrite (list_filter_filter (λ c, name c ∉ ex) (λ c, kind c = number)).
    f_equal. apply list_filter_iff. intros c. tauto.
  - intros c flag Hc (Hk & Hex & ->)%report_row; [|done..]. split.
    + apply existsb_lt0.
    + by intros ->.
  - intros c Hc Hbad ([label flag] & Hl & Hin)%list_elem_of_fmap.
    simpl in Hl. subst label.
    apply report_row in Hin as (Hk & Hex & _); [|done..]. tauto.
Qed.

Lemma check_negative_report_witness :
  ∃ report : Report,
    check_negative 1%positive (Some ["Region"]) sales_store
    = (sales_store, Ok report)
    ∧ report.*1 = ["Amount"].
Proof.
  destruct (check_negative_report sales_store 1%positive sales (Some ["Region"]))
    as (report & Hrun & Hidx & _).
  - reflexivity.
  - unfold unique_labels. vm_compute. repeat constructor; set_solver.
  - exists report. split; [exact Hrun|]. rewrite Hidx. reflexivity.
Defined.

(** C10.  A numeric column that is not excluded and holds only missing
    values is reported with the flag false: a missing cell is not below
    zero, so a column is flagged only when it holds a number below zero. *)
Theorem check_negative_missing (σ : store) (r : ref) (df : DataFrame)
    (exclude_vars : option (list string)) (c : Column) :
  σ !! r = Some df →
  unique_labels df →
  c ∈ df →
  kind c = number →
  name c ∉ default [] exclude_vars →
  ∃ report : Report,
    check_negative r exclude_vars σ = (σ, Ok report)
    ∧ (Forall (λ v, v = NaN) (values c) →
         (name c, false) ∈ report ∧ (name c, true) ∉ report)
    ∧ ((name c, true) ∈ report → holds_negative c)
    ∧ lt0 NaN = false.
Proof.
  intros Hr Hu Hc Hk Hex. eexists. split; [by apply check_negative_run|].
  assert (Hall : Forall (λ v, v = NaN) (values c) → existsb lt0 (values c) = false).
  { intros Hnan. apply not_true_is_false. rewrite existsb_lt0.
    intros (n & Hin & _). rewrite Forall_forall in Hnan. by apply Hnan in Hin. }
  split_and!.
  - intros Hnan. rewrite !report_row by done. rewrite (Hall Hnan). split; [done|].
    by intros (_ & _ & ?).
  - intros (_ & _ & Hflag)%report_row; [|done..]. by apply existsb_lt0.
  - done.
Qed.

Lemma check_negative_missing_witness :
  ∃ report : Report,
    check_negative 1%positive None gaps_store = (gaps_store, Ok report)
    ∧ ("Score", false) ∈ report.
Proof.
  destruct (check_negative_missing gaps_store 1%positive gaps None
              (mkColumn "Score" number [NaN; NaN]))
    as (report & Hrun & Hall & _).
  - reflexivity.
  - unfold unique_labels. vm_compute. repeat constructor; set_solver.
  - apply list_elem_of_here.
  - reflexivity.
  - simpl. apply not_elem_of_nil.
  - exists report. split; [exact Hrun|]. apply Hall. by repeat constructor.
Defined.

(** ** check_missing *)

Global Instance by_value_total : Total by_value.
Proof.
  intros a b. unfold by_value.
  destruct (Qlt_le_dec a.2 b.2); [left|right]; [by apply Qlt_le_weak|done].
Qed.
Global Instance by_value_trans : Transitive by_value.
Proof. intros a b c. unfold by_value. apply Qle_trans. Qed.
Lemma insert_sorted_Permutation x l : insert_sorted x l ≡ₚ x :: l.
Proof.
  induction l as [|y l IH]; simpl; [done|].
  case_decide; [done|]. rewrite IH. apply Permutation_swap.
Qed.

Lemma insert_sorted_Sorted x l :
  Sorted by_value l → Sorted by_value (insert_sorted x l).
Proof.
  induction 1 as [|y l Hs IH Hhd]; simpl; [by repeat constructor|].
  case_decide as Hxy.
  - constructor; [by constructor|]. by constructor.
  - constructor; [done|].
    assert (Hyx : by_value y x) by (destruct (total by_value x y); done).
    destruct Hhd as [|z l' Hyz]; simpl; [by constructor|].
    case_decide; by constructor.
Qed.

Lemma stable_sort_contract : sorts_ascending stable_sort.
Proof.
  intros l. unfold stable_sort. split.
  - induction l as [|x l IH]; simpl; [done|].
    by rewrite insert_sorted_Permutation, IH.
  - induction l as [|x l IH]; simpl; [constructor|].
    by apply insert_sorted_Sorted.
Qed.

Lemma StronglySorted_filter {A} (R : relation A) (P : A → Prop)
    `{∀ x, Decision (P x)} l :
  StronglySorted R l → StronglySorted R (filter P l).
Proof.
  induction 1 as [|x l Hs IH Hall]; [constructor|].
  rewrite filter_cons. case_decide; [|done].
  constructor; [done|]. rewrite Forall_forall in Hall |- *.
  intros y [_ Hy]%list_elem_of_filter. by apply Hall.
Qed.

Lemma filter_fmap {A B} (f : A → B) (P : B → Prop) `{∀ x, Decision (P x)}
    (l : list A) :
  filter P (f <$> l) = f <$> filter (λ a, P (f a)) l.
Proof.
  induction l as [|a l IH]; [done|].
  rewrite fmap_cons. destruct (decide (P (f a))).
  - rewrite filter_cons_True by done.
    rewrite (filter_cons_True (λ a, P (f a))) by done.
    by rewrite fmap_cons, IH.
  - rewrite filter_cons_False by done.
    by rewrite (filter_cons_False (λ a, P (f a))) by done.
Qed.

Lemma count_isnull vs :
  length (filter (λ b, b = true) (isnull <$> vs))
  = length (filter (λ v, v = NaN) vs).
Proof.
  induction vs as [|v vs IH]; [done|].
  rewrite fmap_cons, !filter_cons. destruct v; simpl; by rewrite IH.
Qed.

(** What the code computes for a column with rows is the share of its
    missing cells. *)
Lemma bool_mean_isnull c :
  values c ≠ [] → bool_mean (isnull <$> values c) = Some (missing_fraction c).
Proof.
  unfold bool_mean, missing_fraction. intros Hne.
  rewrite <-count_isnull, <-(length_fmap isnull (values c)).
  destruct (values c); done.
Qed.

Lemma bool_mean_no_rows c :
  values c = [] → bool_mean (isnull <$> values c) = None.
Proof. by intros ->. Qed.

Lemma non_nans_isnull_mean df :
  non_nans (isnull_mean df)
  = (λ c, (name c, missing_fraction c)) <$> filter (λ c, values c ≠ []) df.
Proof.
  unfold non_nans, isnull_mean. induction df as [|c df IH]; [done|].
  rewrite fmap_cons. cbn [omap list_omap].
  destruct (decide (values c ≠ [])) as [Hne|He]; simpl.
  - rewrite (filter_cons_True (λ c, values c ≠ [])) by done.
    rewrite bool_mean_isnull by done. rewrite fmap_cons. f_equal. apply IH.
  - rewrite (filter_cons_False (λ c, values c ≠ [])) by done.
    apply dec_stable in He. rewrite bool_mean_no_rows by done. apply IH.
Qed.

Lemma Qpositive_num (q : Q) : (0 < q)%Q ↔ (0 < Qnum q)%Z.
Proof. unfold Qlt. simpl. lia. Qed.

Lemma missing_fraction_positive c :
  (0 < missing_fraction c)%Q ↔ NaN ∈ values c.
Proof.
  rewrite Qpositive_num. unfold missing_fraction. simpl. split.
  - intros Hpos. destruct (filter (λ v, v = NaN) (values c)) as [|v l] eqn:Hf;
      [simpl in Hpos; lia|].
    assert (Hv : v ∈ filter (λ v, v = NaN) (values c))
      by (rewrite Hf; apply list_elem_of_here).
    apply list_elem_of_filter in Hv as [-> ?]. done.
  - intros Hin.
    assert (Hv : NaN ∈ filter (λ v, v = NaN) (values c))
      by by apply list_elem_of_filter.
    destruct (filter (λ v, v = NaN) (values c)); [by apply elem_of_nil in Hv|].
    simpl. lia.
Qed.

Lemma missing_fraction_bounds c :
  (0 < missing_fraction c)%Q →
  (0 < missing_fraction c * 100 ∧ missing_fraction c * 100 <= 100)%Q.
Proof.
  intros Hpos. pose proof Hpos as Hnum. apply Qpositive_num in Hnum.
  unfold missing_fraction in *. simpl in Hnum.
  pose proof (length_filter (λ v, v = NaN) (values c)) as Hle.
  set (a := length (filter (λ v, v = NaN) (values c))) in *.
  set (b := length (values c)) in *.
  assert (Hb : (0 < b)%nat) by lia.
  unfold Qlt, Qle, Qmult. simpl.
  rewrite Pos.mul_1_r.
  assert (Hpb : Z.pos (Pos.of_nat b) = Z.of_nat b).
  { rewrite <-positive_nat_Z, Nat2Pos.id by lia. done. }
  rewrite Hpb. lia.
Qed.

Lemma loc_positive_times_100_nans (s : Series) :
  loc_positive (times_100 (nans s)) = [].
Proof.
  unfold loc_positive, times_100, nans.
  induction s as [|[l [q|]] s IH]; [done| |].
  - rewrite filter_cons_False by done. apply IH.
  - rewrite filter_cons_True by done. rewrite fmap_cons.
    rewrite filter_cons_False by done. apply IH.
Qed.

Lemma loc_positive_times_100 (l : list (string * Q)) :
  loc_positive (times_100 ((λ e : string * Q, (e.1, Some e.2)) <$> l))
  = (λ e : string * Q, (e.1, Some (e.2 * 100)%Q))
    <$> filter (λ e : string * Q, (0 < e.2)%Q) l.
Proof.
  unfold loc_positive, times_100.
  induction l as [|[label q] l IH]; [done|].
  rewrite !fmap_cons. simpl.
  destruct (decide (0 < q)%Q) as [Hq|Hq].
  - rewrite (filter_cons_True (λ e : string * Q, (0 < e.2)%Q)) by done.
    rewrite filter_cons_True.
    + rewrite fmap_cons. f_equal. apply IH.
    + simpl. apply Qpositive_num in Hq. apply Z.ltb_lt. lia.
  - rewrite (filter_cons_False (λ e : string * Q, (0 < e.2)%Q)) by done.
    rewrite filter_cons_False; [apply IH|].
    simpl. rewrite Qpositive_num in Hq. rewrite Z.ltb_lt. lia.
Qed.

Lemma check_missing_body_run sort df :
  check_missing_body sort df
  = (df, Ok ((λ e : string * Q, (e.1, Some (e.2 * 100)%Q))
             <$> filter (λ e : string * Q, (0 < e.2)%Q)
                   (reverse (sort (reverse (non_nans (isnull_mean df))))))).
Proof.
  unfold check_missing_body, sort_values_descending. unfold_D. f_equal. f_equal.
  unfold times_100 at 1. rewrite fmap_app. unfold loc_positive at 1.
  rewrite filter_app.
  change (filter _ (_ <$> nans (isnull_mean df)))
    with (loc_positive (times_100 (nans (isnull_mean df)))).
  rewrite loc_positive_times_100_nans, app_nil_r.
  apply loc_positive_times_100.
Qed.

Lemma check_missing_run sort (σ : store) (r : ref) df :
  σ !! r = Some df →
  check_missing sort r σ = (σ, (check_missing_body sort df).2).
Proof.
  intros Hr. unfold check_missing.
  rewrite (on_object_run _ _ _ _ Hr), check_missing_body_run.
  simpl. by rewrite insert_id.
Qed.

(** C2 (as amended).  [check_missing] leaves the dataset as it is; its
    report holds exactly the columns with a positive share of missing
    cells, each with that share times 100, which lies in (0, 100], and the
    entries are in non-increasing order of percentage.  This holds for
    every sort that returns a sorted permutation, which is all the default
    [kind='quicksort'] promises; the order among equal percentages is not
    part of the statement: numpy's quicksort keeps the column order among
    them on a small dataset and not on a wide one. *)
Theorem check_missing_report (sort : list (string * Q) → list (string * Q))
    (σ : store) (r : ref) (df : DataFrame) :
  sorts_ascending sort →
  σ !! r = Some df →
  ∃ report : Series,
    check_missing sort r σ = (σ, Ok report)
    ∧ report ≡ₚ (λ c, (name c, Some (missing_fraction c * 100)%Q))
                <$> filter (λ c, (0 < missing_fraction c)%Q) df
    ∧ Forall (λ e, ∃ p, e.2 = Some p ∧ (0 < p)%Q ∧ (p <= 100)%Q) report
    ∧ StronglySorted report_ge report.
Proof.
  intros Hsort Hr. eexists. split.
  { rewrite (check_missing_run _ _ _ _ Hr), check_missing_body_run. done. }
  set (nn := non_nans (isnull_mean df)).
  set (L := reverse (sort (reverse nn))).
  assert (Hperm : (λ e : string * Q, (e.1, Some (e.2 * 100)%Q))
                    <$> filter (λ e : string * Q, (0 < e.2)%Q) L
                  ≡ₚ (λ c, (name c, Some (missing_fraction c * 100)%Q))
                    <$> filter (λ c, (0 < missing_fraction c)%Q) df).
  { assert (HL : L ≡ₚ nn).
    { unfold L. rewrite reverse_Permutation.
      rewrite (proj1 (Hsort _)). apply reverse_Permutation. }
    rewrite HL. unfold nn. rewrite non_nans_isnull_mean.
    rewrite (filter_fmap (λ c, (name c, missing_fraction c))
               (λ e : string * Q, (0 < e.2)%Q)).
    rewrite <-list_fmap_compose.
    rewrite (list_filter_filter (λ c, (0 < missing_fraction c)%Q)
               (λ c, values c ≠ [])).
    erewrite (list_filter_iff _ (λ c, (0 < missing_fraction c)%Q)); [done|].
    intros c. simpl. split; [tauto|]. intros Hpos. split; [done|].
    apply missing_fraction_positive in Hpos. intros Hnil.
    rewrite Hnil in Hpos. by apply elem_of_nil in Hpos. }
  split_and!.
  - exact Hperm.
  - rewrite Hperm. apply Forall_fmap, Forall_forall.
    intros c [Hpos _]%list_elem_of_filter. simpl.
    exists (missing_fraction c * 100)%Q. split; [done|].
    by apply missing_fraction_bounds.
  - apply (StronglySorted_fmap _ (flip by_value)).
    + intros a b Hab. unfold report_ge, flip, by_value in *. simpl.
      apply Qmult_le_compat_r; [done|]. by unfold Qle.
    + apply StronglySorted_filter.
      apply Sorted_StronglySorted; [apply _|].
      unfold L. apply Sorted_reverse. apply Hsort.
Qed.

Lemma check_missing_report_witness :
  ∃ report : Series,
    check_missing stable_sort 1%positive sales_store = (sales_store, Ok report)
    ∧ StronglySorted report_ge report.
Proof.
  destruct (check_missing_report stable_sort sales_store 1%positive sales)
    as (report & Hrun & _ & _ & Hsorted).
  - exact stable_sort_contract.
  - reflexivity.
  - exists report. split; [exact Hrun | exact Hsorted].
Defined.

(** C2 as stated fails in its tie rule.  On [wide], twenty columns that
    are each half missing, numpy's quicksort partitions the twenty equal
    entries and the report lists the columns as [q01], [q02], [q19], [q18],
    down to [q03], then [q20]: [q19] stands before [q03] in the report and
    after it in the dataset. *)
Lemma check_missing_ties_not_kept :
  ∃ report : Series,
    check_missing numpy_quicksort 1%positive wide_store
    = (wide_store, Ok report)
    ∧ report.*1
      = [ "q01"; "q02"; "q19"; "q18"; "q17"; "q16"; "q15"; "q14"; "q13"; "q12";
          "q11"; "q10"; "q09"; "q08"; "q07"; "q06"; "q05"; "q04"; "q03"; "q20" ]
    ∧ Forall (λ e, e.2 = Some (100 # 2)%Q) report
    ∧ ¬ ties_keep_column_order wide report.
Proof.
  eexists. split.
  { rewrite (check_missing_run _ wide_store 1%positive wide eq_refl).
    rewrite check_missing_body_run. reflexivity. }
  match goal with |- ?rep.*1 = _ ∧ _ => set (report := rep) end.
  assert (Hlabels : report.*1
    = [ "q01"; "q02"; "q19"; "q18"; "q17"; "q16"; "q15"; "q14"; "q13"; "q12";
        "q11"; "q10"; "q09"; "q08"; "q07"; "q06"; "q05"; "q04"; "q03"; "q20" ])
    by (vm_compute; reflexivity).
  split_and!; [exact Hlabels|vm_compute; repeat constructor|].
  intros H.
  destruct (H "q19" "q03" (100 # 2)%Q (100 # 2)%Q) as (i & j & Hlt & Hi & Hj).
  - exists 2%nat, 18%nat. split_and!; [lia|by vm_compute..].
  - done.
  - unfold columns, wide in Hi, Hj. rewrite <-list_fmap_compose in Hi, Hj.
    cbn [compose name] in Hi, Hj. rewrite list_fmap_id in Hi, Hj.
    unfold wide_labels in Hi, Hj.
    assert (i = 18%nat) as ->.
    { do 20 (destruct i as [|i]; [first [reflexivity|discriminate Hi]|]).
      discriminate Hi. }
    assert (j = 2%nat) as ->.
    { do 20 (destruct j as [|j]; [first [reflexivity|discriminate Hj]|]).
      discriminate Hj. }
    lia.
Qed.

(** On a dataset of up to seventeen columns the same sort is an insertion
    sort: on [sales] the two columns that are both one third missing come
    out in their column order. *)
Lemma check_missing_sales_order :
  ∃ report : Series,
    check_missing numpy_quicksort 1%positive sales_store
    = (sales_store, Ok report)
    ∧ report.*1 = [" Sale-Date "; "Amount"].
Proof.
  eexists. split.
  - rewrite (check_missing_run _ sales_store 1%positive sales eq_refl).
    rewrite check_missing_body_run. reflexivity.
  - vm_compute. reflexivity.
Qed.

(** *** What a stable sort would add

    The tie rule is a property of the sort, not of [check_missing]: with
    the stable sort in place of the default one the entries of equal
    percentage do come out in column order. *)

Lemma before_sublist {A} (l1 l2 : list A) a b :
  l1 `sublist_of` l2 → before l1 a b → before l2 a b.
Proof.
  induction 1 as [|x l1 l2 Hsub IH|x l1 l2 Hsub IH]; intros (i & j & Hlt & Hi & Hj).
  - done.
  - destruct j as [|j]; [lia|]. simpl in Hj. destruct i as [|i]; simpl in Hi.
    + assert (Hb : b ∈ l2).
      { eapply elem_of_sublist; [|exact Hsub]. by eapply list_elem_of_lookup_2. }
      apply list_elem_of_lookup in Hb as [j' Hj'].
      exists 0%nat, (S j'). split_and!; [lia|done|done].
    + destruct IH as (i' & j' & ? & ? & ?); [exists i, j; split_and!; [lia|done..]|].
      exists (S i'), (S j'). split_and!; [lia|done..].
  - destruct IH as (i' & j' & ? & ? & ?); [by exists i, j|].
    exists (S i'), (S j'). split_and!; [lia|done..].
Qed.

Lemma before_filter {A} (P : A → Prop) `{∀ x, Decision (P x)} (l : list A) a b :
  before l a b → P a → P b → before (filter P l) a b.
Proof.
  intros Hbefore Ha Hb. induction l as [|c l IH].
  - by destruct Hbefore as (i & j & _ & Hi & _).
  - destruct Hbefore as (i & j & Hlt & Hi & Hj).
    destruct j as [|j]; [lia|]. simpl in Hj. destruct i as [|i]; simpl in Hi.
    + injection Hi as ->. rewrite filter_cons_True by done.
      assert (Hin : b ∈ filter P l).
      { apply list_elem_of_filter. split; [done|]. by eapply list_elem_of_lookup_2. }
      apply list_elem_of_lookup in Hin as [j' Hj'].
      exists 0%nat, (S j'). split_and!; [lia|done|done].
    + destruct IH as (i' & j' & ? & ? & ?); [exists i, j; split_and!; [lia|done..]|].
      rewrite filter_cons. case_decide.
      * exists (S i'), (S j'). split_and!; [lia|done..].
      * by exists i', j'.
Qed.

Lemma before_fmap_inv {A B} (f : A → B) (l : list A) x y :
  before (f <$> l) x y → ∃ a b, x = f a ∧ y = f b ∧ before l a b.
Proof.
  intros (i & j & Hlt & Hi & Hj). rewrite list_lookup_fmap in Hi, Hj.
  destruct (l !! i) as [a|] eqn:Ha; [|done].
  destruct (l !! j) as [b|] eqn:Hb; [|done].
  injection Hi as <-. injection Hj as <-.
  exists a, b. split_and!; [done..|]. by exists i, j.
Qed.

Lemma before_fmap {A B} (f : A → B) (l : list A) a b :
  before l a b → before (f <$> l) (f a) (f b).
Proof.
  intros (i & j & Hlt & Hi & Hj). exists i, j.
  rewrite !list_lookup_fmap, Hi, Hj. done.
Qed.

Lemma insert_sorted_same_value (q : Q) x l :
  filter (λ e : string * Q, (e.2 == q)%Q) (insert_sorted x l)
  = filter (λ e : string * Q, (e.2 == q)%Q) (x :: l).
Proof.
  induction l as [|y l IH]; simpl; [done|].
  case_decide as Hxy; [done|].
  rewrite (filter_cons _ y), IH, !(filter_cons _ x), (filter_cons _ y).
  destruct (decide (x.2 == q)%Q) as [Hx|Hx]; [|done].
  destruct (decide (y.2 == q)%Q) as [Hy|Hy]; [|done].
  exfalso. apply Hxy. unfold by_value. rewrite Hx, Hy. apply Qle_refl.
Qed.

Lemma stable_sort_same_value (q : Q) l :
  filter (λ e : string * Q, (e.2 == q)%Q) (stable_sort l)
  = filter (λ e : string * Q, (e.2 == q)%Q) l.
Proof.
  unfold stable_sort. induction l as [|x l IH]; simpl; [done|].
  rewrite insert_sorted_same_value, !(filter_cons _ x), IH. done.
Qed.

Lemma check_missing_stable_ties df report :
  check_missing_body stable_sort df = (df, Ok report) →
  ties_keep_column_order df report.
Proof.
  rewrite check_missing_body_run. intros [= <-] a b x y Hbefore Hxy.
  apply before_fmap_inv in Hbefore as ([a' p] & [b' q] & [= -> ->] & [= -> ->] & Hbefore).
  simpl in Hxy.
  assert (Hpq : (p == q)%Q).
  { apply (Qmult_inj_r _ _ 100); [done|exact Hxy]. }
  set (same := λ e : string * Q, (e.2 == q)%Q).
  assert (Hsame : before (filter same (non_nans (isnull_mean df))) (a', p) (b', q)).
  { rewrite <-(reverse_involutive (non_nans (isnull_mean df))) at 1.
    rewrite filter_reverse, <-(stable_sort_same_value q), <-filter_reverse.
    apply before_filter; [|exact Hpq|unfold same; simpl; reflexivity].
    eapply before_sublist; [|exact Hbefore]. apply sublist_filter. }
  apply (before_sublist _ _ _ _ (sublist_filter _ _)) in Hsame.
  rewrite non_nans_isnull_mean in Hsame.
  apply (before_fmap fst) in Hsame. simpl in Hsame.
  rewrite <-list_fmap_compose in Hsame.
  eapply before_sublist; [|exact Hsame].
  unfold columns. apply (fmap_sublist name), sublist_filter.
Qed.

(** ** create_time_vars *)

Lemma astype_category_after_setitem var k vs df :
  (_ ← setitem var k vs; astype_category_inplace var) df
  = (assign var category vs df, Ok tt).
Proof.
  unfold astype_category_inplace.
  erewrite D_bind_ok; [|reflexivity].
  erewrite D_bind_ok; [|by rewrite getitem_lookup, lookup_column_assign_eq].
  unfold setitem. simpl. by rewrite assign_assign.
Qed.

Lemma feature_block_run time_var var k
    (g : list (option Timestamp) → list value) (f : option Timestamp → value) df :
  (∀ ts, g ts = f <$> ts) →
  (c ← getitem time_var; ts ← dt c;
   _ ← setitem var k (g ts); astype_category_inplace var) df
  = feature_step time_var var f df.
Proof.
  intros Hg. unfold feature_step.
  destruct (lookup_column time_var df) as [c|] eqn:Hc.
  - erewrite D_bind_ok; [|by rewrite getitem_lookup, Hc].
    unfold dt. case_decide.
    + erewrite D_bind_ok; [|reflexivity]. rewrite Hg.
      apply astype_category_after_setitem.
    + by erewrite D_bind_raise.
  - by erewrite D_bind_raise; [|by rewrite getitem_lookup, Hc].
Qed.

Lemma D_bind_ext {A B} (m m' : D A) (f f' : A → D B) df :
  m df = m' df → (∀ a df', f a df' = f' a df') → (m ≫= f) df = (m' ≫= f') df.
Proof.
  intros Hm Hf. unfold mbind, D_bind. rewrite Hm.
  destruct (m' df) as [df' [a|e]]; [apply Hf|done].
Qed.

Lemma create_time_vars_body_steps time_var (year month day season : bool) df :
  create_time_vars_body time_var year month day season df
  = (_ ← feature_when year time_var "year" dt_year;
     _ ← feature_when month time_var "month" dt_month_name;
     _ ← feature_when day time_var "day" dt_day_name;
     feature_when season time_var "season" season_feature) df.
Proof.
  assert (Hblock : ∀ (b : bool) var k g f df',
            (∀ ts, g ts = f <$> ts) →
            when b (c ← getitem time_var; ts ← dt c;
                    _ ← setitem var k (g ts); astype_category_inplace var) df'
            = feature_when b time_var var f df').
  { intros [] var k g f df' Hg; [|done]. by apply feature_block_run. }
  unfold create_time_vars_body.
  apply D_bind_ext; [by apply Hblock|]. intros _ df1.
  apply D_bind_ext; [by apply Hblock|]. intros _ df2.
  apply D_bind_ext; [by apply Hblock|]. intros _ df3.
  apply (Hblock season "season" object
           (λ ts, series_map month_to_season <$> (dt_month <$> ts))).
  intros ts. by rewrite <-list_fmap_compose.
Qed.

Lemma create_time_vars_body_inv time_var (year month day season : bool) df df4 :
  create_time_vars_body time_var year month day season df = (df4, Ok tt) →
  ∃ df1 df2 df3,
    feature_when year time_var "year" dt_year df = (df1, Ok tt)
    ∧ feature_when month time_var "month" dt_month_name df1 = (df2, Ok tt)
    ∧ feature_when day time_var "day" dt_day_name df2 = (df3, Ok tt)
    ∧ feature_when season time_var "season" season_feature df3 = (df4, Ok tt).
Proof.
  rewrite create_time_vars_body_steps.
  intros (df1 & [] & H1 & (df2 & [] & H2 & (df3 & [] & H3 & H4)%D_bind_inv)
            %D_bind_inv)%D_bind_inv.
  eauto 10.
Qed.

(** The whole call, once the body has run on the caller's object. *)
Lemma create_time_vars_run (σ : store) (r : ref) df time_var
    (year month day season drop : option bool) :
  σ !! r = Some df →
  create_time_vars r time_var year month day season drop σ
  = match create_time_vars_body time_var (kwarg true year) (kwarg true month)
            (kwarg true day) (kwarg true season) df with
    | (df1, Ok _) =>
        let σ1 := <[r := df1]> σ in
        if kwarg true drop then
          if decide (time_var ∈ columns df1)
          then (<[fresh (dom σ1) := filter (λ c, name c ≠ time_var) df1]> σ1,
                Ok (fresh (dom σ1)))
          else (σ1, Raise KeyError)
        else (σ1, Ok r)
    | (df1, Raise e) => (<[r := df1]> σ, Raise e)
    end.
Proof.
  intros Hr. unfold create_time_vars.
  unfold mbind at 1, M_bind at 1. rewrite (on_object_run _ _ _ _ Hr).
  destruct (create_time_vars_body _ _ _ _ _ df) as [df1 [[]|e]]; simpl; [|done].
  destruct (kwarg true drop); [|done].
  unfold mbind, M_bind. erewrite on_object_run by apply lookup_insert_eq.
  unfold df_drop. rewrite insert_insert_eq. case_decide; done.
Qed.

(** *** When the call succeeds *)

Lemma feature_when_intact b time_var var f src df :
  lookup_column time_var df = Some src →
  kind src = datetime →
  (b = true → var ≠ time_var) →
  ∃ df1, feature_when b time_var var f df = (df1, Ok tt)
         ∧ lookup_column time_var df1 = Some src.
Proof.
  intros Hsrc Hk Hne. destruct b; simpl; [|by exists df].
  unfold feature_step. rewrite Hsrc, decide_True by done.
  eexists. split; [done|]. rewrite lookup_column_assign_ne; [done|].
  intros Heq. by apply Hne.
Qed.

Lemma create_time_vars_body_succeeds time_var (year month day season : bool)
    src df :
  lookup_column time_var df = Some src →
  kind src = datetime →
  time_var ∉ feature_labels year month day season →
  ∃ df4, create_time_vars_body time_var year month day season df = (df4, Ok tt)
         ∧ lookup_column time_var df4 = Some src.
Proof.
  intros Hsrc Hk Hlabel. rewrite create_time_vars_body_steps.
  assert (Hne : ∀ (b : bool) var,
            (b = true → var ∈ feature_labels year month day season) →
            b = true → var ≠ time_var).
  { intros b var Hin Hb ->. by apply Hlabel, Hin. }
  destruct (feature_when_intact year time_var "year" dt_year src df)
    as (df1 & H1 & Hsrc1); [done..| |].
  { apply Hne. intros ->. unfold feature_labels. set_solver. }
  destruct (feature_when_intact month time_var "month" dt_month_name src df1)
    as (df2 & H2 & Hsrc2); [done..| |].
  { apply Hne. intros ->. unfold feature_labels. destruct year; set_solver. }
  destruct (feature_when_intact day time_var "day" dt_day_name src df2)
    as (df3 & H3 & Hsrc3); [done..| |].
  { apply Hne. intros ->. unfold feature_labels. destruct year, month; set_solver. }
  destruct (feature_when_intact season time_var "season" season_feature src df3)
    as (df4 & H4 & Hsrc4); [done..| |].
  { apply Hne. intros ->. unfold feature_labels.
    destruct year, month, day; set_solver. }
  exists df4. split; [|done].
  erewrite D_bind_ok by exact H1. erewrite D_bind_ok by exact H2.
  erewrite D_bind_ok by exact H3. exact H4.
Qed.

(** The call succeeds on a datetime column whose label is none of the
    labels it writes. *)
Lemma create_time_vars_succeeds (σ : store) (r : ref) df time_var
    (year month day season drop : option bool) src :
  σ !! r = Some df →
  lookup_column time_var df = Some src →
  kind src = datetime →
  time_var ∉ feature_labels (kwarg true year) (kwarg true month)
               (kwarg true day) (kwarg true season) →
  ∃ σ' r',
    create_time_vars r time_var year month day season drop σ = (σ', Ok r').
Proof.
  intros Hr Hsrc Hk Hlabel.
  rewrite (create_time_vars_run _ _ _ _ _ _ _ _ _ Hr).
  destruct (create_time_vars_body_succeeds time_var _ _ _ _ src df Hsrc Hk Hlabel)
    as (df4 & -> & Hsrc4).
  cbv zeta. destruct (kwarg true drop); [|eauto].
  rewrite decide_True; [eauto|].
  apply lookup_column_Some in Hsrc4 as [Hin <-]. by apply list_elem_of_fmap_2.
Qed.

(** C1 (as amended).  With the drop switch on, the call succeeds on a
    datetime column whose label is none of the labels it writes, and a
    successful call returns a new dataset object, which is the caller's
    dataset after feature extraction without the source column.  The
    caller's own object is not that object: it has received the feature
    columns in place and still holds the source column.  No other object
    of the store changes. *)
Theorem create_time_vars_drop (σ : store) (r : ref) (df : DataFrame)
    (time_var : string) (year month day season drop : option bool) :
  σ !! r = Some df →
  unique_labels df →
  kwarg true drop = true →
  (∀ src,
     lookup_column time_var df = Some src →
     kind src = datetime →
     time_var ∉ feature_labels (kwarg true year) (kwarg true month)
                  (kwarg true day) (kwarg true season) →
     ∃ σ' r',
       create_time_vars r time_var year month day season drop σ = (σ', Ok r'))
  ∧ (∀ σ' r',
       create_time_vars r time_var year month day season drop σ = (σ', Ok r') →
       ∃ df1 df',
         σ' !! r' = Some df'
         ∧ (time_var ∉ columns df')
         ∧ df' = filter (λ c, name c ≠ time_var) df1
         ∧ r' ≠ r
         ∧ σ' !! r = Some df1
         ∧ time_var ∈ columns df1
         ∧ create_time_vars_body time_var (kwarg true year) (kwarg true month)
             (kwarg true day) (kwarg true season) df = (df1, Ok tt)
         ∧ (∀ r'', r'' ≠ r → r'' ≠ r' → σ' !! r'' = σ !! r'')).
Proof.
  intros Hr _ Hdrop. split.
  { intros src Hsrc Hk Hlabel. by apply (create_time_vars_succeeds _ _ df _ _ _ _ _ _ src). }
  intros σ' r'.
  rewrite (create_time_vars_run _ _ _ _ _ _ _ _ _ Hr), Hdrop.
  destruct (create_time_vars_body _ _ _ _ _ df) as [df1 [[]|e]]; [|done].
  cbv zeta. case_decide as Hin; [|done]. intros [= <- <-].
  assert (Hfresh : fresh (dom (<[r:=df1]> σ)) ≠ r).
  { intros Heq. apply (is_fresh (dom (<[r:=df1]> σ))). rewrite Heq.
    apply elem_of_dom. rewrite lookup_insert_eq. eauto. }
  exists df1, (filter (λ c, name c ≠ time_var) df1). split_and!.
  - apply lookup_insert_eq.
  - unfold columns. intros (c & Hn & [Hc _]%list_elem_of_filter)%list_elem_of_fmap.
    by apply Hc.
  - done.
  - done.
  - rewrite lookup_insert_ne by done. apply lookup_insert_eq.
  - done.
  - done.
  - intros r'' Hne1 Hne2. rewrite !lookup_insert_ne by done. done.
Qed.

Lemma create_time_vars_drop_witness :
  ∃ (σ' : store) (r' : ref) (df' : DataFrame),
    create_time_vars 1%positive "placed" None None None None None orders_store
    = (σ', Ok r')
    ∧ σ' !! r' = Some df' ∧ ("placed" ∉ columns df') ∧ r' ≠ 1%positive.
Proof.
  destruct (create_time_vars_drop orders_store 1%positive orders
              "placed" None None None None None) as [Hsucc Hprop].
  - reflexivity.
  - unfold unique_labels. vm_compute. repeat constructor; set_solver.
  - reflexivity.
  - destruct (Hsucc (mkColumn "placed" datetime
                 [Time (mkTimestamp 2023 Jul 15); Time (mkTimestamp 2023 Dec 1); NaN]))
      as (σ' & r' & Hrun).
    + reflexivity.
    + reflexivity.
    + vm_compute. set_solver.
    + destruct (Hprop σ' r' Hrun) as (df1 & df' & H1 & H2 & _ & H4 & _).
      exists σ', r', df'. split_and!; [exact Hrun|exact H1|exact H2|exact H4].
Defined.

(** C1 as stated fails: on [orders] the call with the drop switch on
    returns the reference 2, not the caller's reference 1, and the
    caller's dataset still has the column [placed]. *)
Lemma create_time_vars_drop_not_in_place :
  ¬ (∀ (σ σ' : store) (r r' : ref) (df : DataFrame) (time_var : string),
       σ !! r = Some df →
       create_time_vars r time_var None None None None (Some true) σ
       = (σ', Ok r') →
       r' = r)
  ∧ ¬ (∀ (σ σ' : store) (r r' : ref) (df : DataFrame) (time_var : string),
       σ !! r = Some df →
       create_time_vars r time_var None None None None (Some true) σ
       = (σ', Ok r') →
       ∀ df1, σ' !! r = Some df1 → time_var ∉ columns df1).
Proof.
  pose (res := create_time_vars 1%positive "placed" None None None None
                 (Some true) orders_store).
  assert (Hres : res = (res.1, Ok 2%positive)) by (vm_compute; reflexivity).
  split; intros H.
  - specialize (H orders_store res.1 1%positive 2%positive orders "placed"
                  eq_refl Hres). discriminate H.
  - pose (df1 := default [] (res.1 !! 1%positive)).
    apply (H orders_store res.1 1%positive 2%positive orders "placed"
             eq_refl Hres df1).
    + vm_compute. reflexivity.
    + vm_compute. apply list_elem_of_here.
Qed.

(** *** The season column *)

Lemma season_feature_cell v : season_feature (as_timestamp v) = season_cell v.
Proof.
  destruct v as [| | |[y m d]]; try done.
  unfold season_feature, season_cell. simpl. by destruct m.
Qed.

Lemma feature_step_source time_var var f src df df1 :
  source_state time_var src df →
  feature_step time_var var f df = (df1, Ok tt) →
  lookup_column time_var df = Some src
  ∧ kind src = datetime
  ∧ df1 = assign var category (f <$> (as_timestamp <$> values src)) df.
Proof.
  unfold feature_step. intros [Hsrc|(c & Hc & Hk)].
  - rewrite Hsrc. case_decide; [|done]. by intros [= <-].
  - rewrite Hc. rewrite decide_False by congruence. done.
Qed.

Lemma feature_when_source b time_var var f src df df1 :
  source_state time_var src df →
  feature_when b time_var var f df = (df1, Ok tt) →
  source_state time_var src df1.
Proof.
  intros Hst. destruct b; simpl; [|by intros [= <-]].
  intros (Hsrc & Hk & ->)%(feature_step_source _ _ _ src); [|done].
  destruct (decide (var = time_var)) as [->|Hne].
  - right. eexists. by rewrite lookup_column_assign_eq.
  - left. by rewrite lookup_column_assign_ne.
Qed.

Lemma lookup_column_filter var time_var df :
  var ≠ time_var →
  lookup_column var (filter (λ c, name c ≠ time_var) df) = lookup_column var df.
Proof.
  intros Hne. induction df as [|c df IH]; [done|].
  destruct (decide (name c = time_var)) as [Hc|Hc].
  - rewrite (filter_cons_False (λ c, name c ≠ time_var)) by (by intros ?).
    simpl. rewrite decide_False by congruence. done.
  - rewrite (filter_cons_True (λ c, name c ≠ time_var)) by done.
    simpl. case_decide; [done|]. apply IH.
Qed.

(** C4.  With the season switch on, the call succeeds on a datetime column
    whose label is none of the labels it writes, and a successful call
    writes a categorical column [season] whose cell in each row is the
    season of the month number of the source timestamp of that row, under
    the mapping 12, 1, 2 to Winter; 3, 4, 5 to Spring; 6, 7, 8 to Summer;
    9, 10, 11 to Autumn; a row without a timestamp gets a missing season.
    The column is in the caller's dataset, and in the returned one unless
    the source column is itself labelled [season] and dropped. *)
Theorem season_by_month (σ : store) (r : ref) (df : DataFrame)
    (time_var : string) (year month day season drop : option bool)
    (src : Column) :
  σ !! r = Some df →
  unique_labels df →
  lookup_column time_var df = Some src →
  kwarg true season = true →
  (kind src = datetime →
   time_var ∉ feature_labels (kwarg true year) (kwarg true month)
                (kwarg true day) (kwarg true season) →
   ∃ σ' r',
     create_time_vars r time_var year month day season drop σ = (σ', Ok r'))
  ∧ (∀ σ' r',
       create_time_vars r time_var year month day season drop σ = (σ', Ok r') →
       ∃ df1 col,
         σ' !! r = Some df1
         ∧ lookup_column "season" df1 = Some col
         ∧ kind col = category
         ∧ values col = season_cell <$> values src
         ∧ (time_var ≠ "season" →
            ∃ df', σ' !! r' = Some df' ∧ lookup_column "season" df' = Some col)).
Proof.
  intros Hr _ Hsrc Hseason. split.
  { intros Hk Hlabel. by apply (create_time_vars_succeeds _ _ df _ _ _ _ _ _ src). }
  intros σ' r'.
  rewrite (create_time_vars_run _ _ _ _ _ _ _ _ _ Hr), Hseason.
  destruct (create_time_vars_body _ _ _ _ _ df) as [df4 [[]|e]] eqn:Hbody; [|done].
  apply create_time_vars_body_inv in Hbody as (df1 & df2 & df3 & H1 & H2 & H3 & H4).
  assert (Hst : source_state time_var src df3).
  { eapply feature_when_source; [|exact H3].
    eapply feature_when_source; [|exact H2].
    eapply feature_when_source; [|exact H1]. by left. }
  simpl in H4. apply (feature_step_source _ _ _ src) in H4 as (_ & _ & ->); [|done].
  set (col := mkColumn "season" category
                (season_feature <$> (as_timestamp <$> values src))).
  assert (Hcol : values col = season_cell <$> values src).
  { unfold col. simpl. rewrite <-list_fmap_compose. apply list_fmap_ext.
    intros _ v _. apply season_feature_cell. }
  set (df4 := assign "season" category
                (season_feature <$> (as_timestamp <$> values src)) df3).
  assert (Hlook : lookup_column "season" df4 = Some col)
    by apply lookup_column_assign_eq.
  cbv zeta. destruct (kwarg true drop).
  - case_decide; [|done]. intros [= <- <-].
    assert (Hfresh : fresh (dom (<[r:=df4]> σ)) ≠ r).
    { intros Heq. apply (is_fresh (dom (<[r:=df4]> σ))). rewrite Heq.
      apply elem_of_dom. rewrite lookup_insert_eq. eauto. }
    exists df4, col. split_and!; [|done..|].
    + rewrite lookup_insert_ne by done. apply lookup_insert_eq.
    + intros Hne. exists (filter (λ c, name c ≠ time_var) df4).
      split; [apply lookup_insert_eq|].
      by rewrite lookup_column_filter.
  - intros [= <- <-]. exists df4, col. split_and!; [|done..|].
    + apply lookup_insert_eq.
    + intros _. exists df4. split; [apply lookup_insert_eq|done].
Qed.

Lemma season_by_month_witness :
  ∃ (σ' : store) (df1 : DataFrame) (col : Column),
    σ' !! 1%positive = Some df1
    ∧ lookup_column "season" df1 = Some col
    ∧ values col = [Str "Summer"; Str "Winter"; NaN].
Proof.
  destruct (season_by_month orders_store 1%positive orders
              "placed" None None None None None
              (mkColumn "placed" datetime
                 [Time (mkTimestamp 2023 Jul 15); Time (mkTimestamp 2023 Dec 1); NaN]))
    as [Hsucc Hprop].
  - reflexivity.
  - unfold unique_labels. vm_compute. repeat constructor; set_solver.
  - reflexivity.
  - reflexivity.
  - destruct Hsucc as (σ' & r' & Hrun); [reflexivity|vm_compute; set_solver|].
    destruct (Hprop σ' r' Hrun) as (df1 & col & H1 & H2 & _ & H4 & _).
    exists σ', df1, col. split_and!; [exact H1|exact H2|exact H4].
Defined.

(** *** Rows and column order *)

Lemma rows_assign n var k vs df :
  rows n df → length vs = n → rows n (assign var k vs df).
Proof.
  unfold rows. intros Hrows Hlen. induction Hrows as [|c df Hc Hdf IH]; simpl.
  - by repeat constructor.
  - case_decide; constructor; done.
Qed.

Lemma assign_keeps var k vs df c :
  c ∈ df → name c ≠ var → c ∈ assign var k vs df.
Proof.
  intros Hin Hne. induction df as [|c' df IH]; simpl; [by apply elem_of_nil in Hin|].
  apply elem_of_cons in Hin as [->|Hin].
  - rewrite decide_False by done. apply list_elem_of_here.
  - case_decide; apply list_elem_of_further; [done|by apply IH].
Qed.

Lemma feature_when_rows n b time_var var f df df1 :
  rows n df →
  feature_when b time_var var f df = (df1, Ok tt) →
  rows n df1 ∧ ∀ c, c ∈ df → (b = true → name c ≠ var) → c ∈ df1.
Proof.
  intros Hrows. destruct b; simpl; [|by intros [= <-]].
  unfold feature_step. destruct (lookup_column time_var df) as [c|] eqn:Hc; [|done].
  case_decide; [|done]. intros [= <-]. split.
  - apply rows_assign; [done|]. rewrite !length_fmap.
    apply lookup_column_Some in Hc as [Hin _].
    unfold rows in Hrows. rewrite Forall_forall in Hrows. by apply Hrows.
  - intros c' Hin Hne. apply assign_keeps; auto.
Qed.

Lemma lookup_column_app_l var df1 df2 c :
  lookup_column var df1 = Some c → lookup_column var (df1 ++ df2) = Some c.
Proof.
  induction df1 as [|c' df1 IH]; simpl; [done|]. case_decide; [done|apply IH].
Qed.

Lemma feature_when_fresh b time_var var f src df acc :
  lookup_column time_var df = Some src →
  kind src = datetime →
  (b = true → var ∉ columns (df ++ acc)) →
  feature_when b time_var var f (df ++ acc)
  = (df ++ (acc ++ if b then [feature_column var f src] else []), Ok tt).
Proof.
  intros Hsrc Hk Hfresh. destruct b; simpl; [|by rewrite app_nil_r].
  unfold feature_step. rewrite (lookup_column_app_l _ _ _ _ Hsrc).
  rewrite decide_True by done. rewrite assign_fresh by auto.
  by rewrite <-app_assoc.
Qed.

Lemma columns_app df1 df2 : columns (df1 ++ df2) = columns df1 ++ columns df2.
Proof. unfold columns. apply fmap_app. Qed.

Lemma columns_feature_columns src (year month day season : bool) :
  columns (feature_columns src year month day season)
  = feature_labels year month day season.
Proof. by destruct year, month, day, season. Qed.

Lemma create_time_vars_body_fresh time_var (year month day season : bool) src df :
  lookup_column time_var df = Some src →
  kind src = datetime →
  (∀ label, label ∈ feature_labels year month day season → label ∉ columns df) →
  create_time_vars_body time_var year month day season df
  = (df ++ feature_columns src year month day season, Ok tt).
Proof.
  intros Hsrc Hk Hfresh. rewrite create_time_vars_body_steps.
  assert (Hstep : ∀ (b : bool) var f acc,
            (b = true → var ∈ feature_labels year month day season) →
            (b = true → var ∉ columns acc) →
            feature_when b time_var var f (df ++ acc)
            = (df ++ (acc ++ if b then [feature_column var f src] else []), Ok tt)).
  { intros b var f acc Hlabel Hacc. apply feature_when_fresh; [done..|].
    intros Hb. rewrite columns_app, elem_of_app. intros [Hin|Hin].
    - by apply (Hfresh var (Hlabel Hb)).
    - by apply Hacc. }
  rewrite <-(app_nil_r df) at 1.
  erewrite D_bind_ok; cycle 1.
  { apply Hstep; [intros ->; set_solver | intros _; set_solver]. }
  erewrite D_bind_ok; cycle 1.
  { apply Hstep; [intros ->; destruct year; set_solver
                 | intros _; destruct year; set_solver]. }
  erewrite D_bind_ok; cycle 1.
  { apply Hstep; [intros ->; destruct year, month; set_solver
                 | intros _; destruct year, month; set_solver]. }
  rewrite Hstep.
  - unfold feature_columns. simpl. by rewrite <-!app_assoc.
  - intros ->; destruct year, month, day; set_solver.
  - intros _; destruct year, month, day; set_solver.
Qed.

Lemma create_time_vars_body_rows n time_var (year month day season : bool) df df4 :
  rows n df →
  create_time_vars_body time_var year month day season df = (df4, Ok tt) →
  rows n df4
  ∧ ∀ c, c ∈ df → name c ∉ feature_labels year month day season → c ∈ df4.
Proof.
  intros Hrows (df1 & df2 & df3 & H1 & H2 & H3 & H4)%create_time_vars_body_inv.
  apply (feature_when_rows n) in H1 as [Hr1 Hk1]; [|done].
  apply (feature_when_rows n) in H2 as [Hr2 Hk2]; [|done].
  apply (feature_when_rows n) in H3 as [Hr3 Hk3]; [|done].
  apply (feature_when_rows n) in H4 as [Hr4 Hk4]; [|done].
  split; [done|]. intros c Hin Hlabel.
  apply Hk4; [apply Hk3; [apply Hk2; [apply Hk1; [done|]|]|]|];
    intros Hb Heq; apply Hlabel; rewrite Heq; unfold feature_labels;
    destruct year, month, day, season; try discriminate Hb; set_solver.
Qed.

Lemma filter_all {A} (P : A → Prop) `{∀ x, Decision (P x)} (l : list A) :
  Forall P l → filter P l = l.
Proof.
  induction 1 as [|x l Hx Hl IH]; [done|].
  rewrite filter_cons_True by done. by rewrite IH.
Qed.

Lemma Forall_filter_rows n (P : Column → Prop) `{∀ x, Decision (P x)} df :
  rows n df → rows n (filter P df).
Proof.
  unfold rows. rewrite !Forall_forall. intros Hrows c [_ Hc]%list_elem_of_filter.
  by apply Hrows.
Qed.


(** ** convert_to_categorical *)

Lemma columns_categorical_where vars df :
  columns (categorical_where vars df) = columns df.
Proof.
  unfold columns, categorical_where. rewrite <-list_fmap_compose.
  apply list_fmap_ext. intros _ c _. simpl. by case_decide.
Qed.

Lemma assign_as_category df c :
  unique_labels df →
  c ∈ df →
  assign (name c) category (values c) df = categorical_where [name c] df.
Proof.
  unfold unique_labels, columns, categorical_where.
  induction df as [|c' df IH]; [by intros _ ?%elem_of_nil|].
  intros [Hnotin Hnd]%NoDup_cons Hin. simpl.
  destruct (decide (name c' = name c)) as [Heq|Hne].
  - assert (c = c') as ->.
    { apply elem_of_cons in Hin as [?|Hin]; [done|].
      exfalso. apply Hnotin. rewrite Heq. by apply list_elem_of_fmap_2. }
    rewrite decide_True by set_solver. f_equal.
    symmetry. etrans; [|apply list_fmap_id]. apply list_fmap_ext.
    intros _ c'' Hc''%list_elem_of_lookup_2. simpl.
    rewrite decide_False; [done|]. intros ?%list_elem_of_singleton.
    apply Hnotin. replace (name c') with (name c'') by done.
    by apply list_elem_of_fmap_2.
  - rewrite decide_False by set_solver. f_equal. apply IH; [done|].
    apply elem_of_cons in Hin as [->|?]; done.
Qed.

Lemma convert_column_run df c :
  unique_labels df →
  c ∈ df →
  convert_column (name c) df = (categorical_where [name c] df, Ok tt).
Proof.
  intros Hu Hc. unfold convert_column.
  erewrite D_bind_ok; [|by apply getitem_elem].
  unfold setitem. by rewrite assign_as_category.
Qed.

Lemma categorical_where_cons var vars df :
  categorical_where vars (categorical_where [var] df)
  = categorical_where (var :: vars) df.
Proof.
  unfold categorical_where. rewrite <-list_fmap_compose.
  apply list_fmap_ext. intros _ c _. simpl.
  destruct (decide (name c ∈ [var])) as [Hv|Hv]; simpl.
  - rewrite (decide_True (P := name c ∈ var :: vars)) by set_solver.
    by case_decide.
  - destruct (decide (name c ∈ vars)).
    + by rewrite decide_True by set_solver.
    + by rewrite decide_False by set_solver.
Qed.

Lemma for_each_convert vars df :
  unique_labels df →
  vars ⊆ columns df →
  for_each vars convert_column df = (categorical_where vars df, Ok tt).
Proof.
  revert df. induction vars as [|var vars IH]; intros df Hu Hsub.
  - simpl. unfold mret, D_ret, categorical_where. f_equal.
    symmetry. etrans; [|apply list_fmap_id]. apply list_fmap_ext.
    by intros _ c _.
  - assert (Hvar : var ∈ columns df) by (apply Hsub, list_elem_of_here).
    apply list_elem_of_fmap in Hvar as (c & -> & Hc).
    cbn [for_each]. erewrite D_bind_ok; [|by apply convert_column_run].
    rewrite IH.
    + by rewrite categorical_where_cons.
    + unfold unique_labels. by rewrite columns_categorical_where.
    + rewrite columns_categorical_where. intros x Hx. apply Hsub.
      by apply list_elem_of_further.
Qed.

Lemma categorical_where_ext vars1 vars2 df :
  (∀ c, c ∈ df → name c ∈ vars1 ↔ name c ∈ vars2) →
  categorical_where vars1 df = categorical_where vars2 df.
Proof.
  intros Hiff. unfold categorical_where. apply list_fmap_ext.
  intros _ c Hc%list_elem_of_lookup_2. simpl.
  apply Hiff in Hc. destruct (decide (name c ∈ vars1)).
  - by rewrite decide_True by tauto.
  - by rewrite decide_False by tauto.
Qed.

Lemma convert_to_categorical_body_run (add_vars : option (list string)) df :
  unique_labels df →
  default [] add_vars ⊆ columns df →
  convert_to_categorical_body add_vars df
  = (categorical_where (select_dtypes_exclude number df ++ default [] add_vars) df,
     Ok tt).
Proof.
  intros Hu Hsub. unfold convert_to_categorical_body.
  set (add := default [] add_vars) in *.
  erewrite D_bind_ok; [|reflexivity].
  assert (Hcat : select_dtypes_exclude number df ⊆ columns df).
  { unfold select_dtypes_exclude, columns.
    intros x (c & -> & [_ Hc]%list_elem_of_filter)%list_elem_of_fmap.
    by apply list_elem_of_fmap_2. }
  case_decide as Hlen.
  - apply (for_each_convert _ df Hu). set_solver.
  - assert (add = []) as -> by (destruct add; [done|simpl in Hlen; lia]).
    rewrite app_nil_r. by apply (for_each_convert _ df Hu).
Qed.

Lemma selected_by_label df (add : list string) c :
  unique_labels df →
  c ∈ df →
  name c ∈ select_dtypes_exclude number df ++ add
  ↔ kind c ≠ number ∨ name c ∈ add.
Proof.
  intros Hu Hc. rewrite elem_of_app. unfold select_dtypes_exclude, columns.
  rewrite list_elem_of_fmap. split.
  - intros [(c' & Hn & [Hk Hc']%list_elem_of_filter)|?]; [|by right].
    left. by rewrite (unique_labels_inj df c c').
  - intros [Hk|?]; [|by right]. left. exists c. by rewrite list_elem_of_filter.
Qed.

(** C8.  When every extra label is a column of the dataset,
    [convert_to_categorical] changes the caller's dataset in place and
    returns it: every column that is not numeric, and every column named in
    the extra list, gets the kind categorical; every column keeps its
    label, its position and its values, and the other columns keep their
    kind.  A label selected twice is converted twice, with the outcome of
    converting the selection without its repetitions. *)
Theorem convert_to_categorical_kinds (σ : store) (r : ref) (df : DataFrame)
    (add_vars : option (list string)) :
  σ !! r = Some df →
  unique_labels df →
  default [] add_vars ⊆ columns df →
  ∃ df',
    convert_to_categorical r add_vars σ = (<[r := df']> σ, Ok r)
    ∧ Forall2 (λ c c',
         name c' = name c
         ∧ values c' = values c
         ∧ kind c' = if decide (kind c ≠ number ∨ name c ∈ default [] add_vars)
                     then category else kind c) df df'
    ∧ for_each
        (remove_dups (select_dtypes_exclude number df ++ default [] add_vars))
        convert_column df
      = (df', Ok tt).
Proof.
  intros Hr Hu Hsub.
  set (vars := select_dtypes_exclude number df ++ default [] add_vars).
  assert (Hvars : vars ⊆ columns df).
  { unfold vars, select_dtypes_exclude, columns. intros x [Hx|Hx]%elem_of_app.
    - apply list_elem_of_fmap in Hx as (c & -> & [_ Hc]%list_elem_of_filter).
      by apply list_elem_of_fmap_2.
    - by apply Hsub. }
  exists (categorical_where vars df). split_and!.
  - apply (in_place_run _ _ _ df); [done|].
    by apply convert_to_categorical_body_run.
  - unfold categorical_where. apply Forall2_fmap_r, Forall_Forall2_diag.
    apply Forall_forall. intros c Hc.
    pose proof (selected_by_label df (default [] add_vars) c Hu Hc) as Hsel.
    unfold vars, compose. cbv beta.
    repeat case_decide; simpl; split_and!; try done; tauto.
  - rewrite for_each_convert; [|done|].
    + f_equal. apply categorical_where_ext. intros c _.
      apply elem_of_remove_dups.
    + intros x Hx. apply Hvars. by apply elem_of_remove_dups.
Qed.

Lemma convert_to_categorical_kinds_witness :
  ∃ df',
    convert_to_categorical 1%positive (Some ["Amount"; "Region"]) sales_store
    = (<[1%positive := df']> sales_store, Ok 1%positive)
    ∧ kind <$> df' = [category; category; category]
    ∧ values <$> df' = values <$> sales.
Proof.
  destruct (convert_to_categorical_kinds sales_store 1%positive sales
              (Some ["Amount"; "Region"])) as (df' & Hrun & Hall & _).
  - reflexivity.
  - unfold unique_labels. vm_compute. repeat constructor; set_solver.
  - vm_compute. set_solver.
  - exists df'. split; [exact Hrun|].
    unfold sales in Hall.
    repeat match goal with
           | H : Forall2 _ (_ :: _) _ |- _ =>
               apply Forall2_cons_inv_l in H as (? & ? & (? & ? & ?) & ? & ->)
           | H : Forall2 _ [] _ |- _ => apply Forall2_nil_inv_l in H as ->
           end.
    simpl in *. split; repeat f_equal; congruence.
Defined.

(** ** label_encode *)

Lemma elem_of_unique v vs : v ∈ unique vs ↔ v ∈ vs.
Proof.
  induction vs as [|w vs IH]; simpl; [done|].
  rewrite !elem_of_cons, list_elem_of_filter, IH.
  destruct (decide (v = w)); naive_solver.
Qed.

Lemma NoDup_unique vs : NoDup (unique vs).
Proof.
  induction vs as [|w vs IH]; simpl; [constructor|].
  apply NoDup_cons. split.
  - rewrite list_elem_of_filter. naive_solver.
  - by apply NoDup_filter.
Qed.

Lemma value_leb_NaN v : value_leb v NaN = true.
Proof. by destruct v. Qed.

Global Instance value_le_total : Total value_le.
Proof.
  intros a b. unfold value_le.
  destruct a as [|x|x|x], b as [|y|y|y]; simpl; auto.
  - destruct (Z.leb_spec x y), (Z.leb_spec y x); auto; lia.
  - apply String.leb_total.
  - unfold timestamp_leb.
    repeat case_decide; try (left; lia); try (right; lia); try congruence.
    + destruct (Z.leb_spec (ts_day x) (ts_day y)),
        (Z.leb_spec (ts_day y) (ts_day x)); auto; lia.
    + destruct (Z.ltb_spec (month_number (ts_month x)) (month_number (ts_month y))),
        (Z.ltb_spec (month_number (ts_month y)) (month_number (ts_month x)));
        auto; lia.
    + destruct (Z.ltb_spec (ts_year x) (ts_year y)),
        (Z.ltb_spec (ts_year y) (ts_year x)); auto; lia.
Qed.

Lemma Sorted_snoc_top {A} (R : relation A) l x :
  (∀ y, R y x) → Sorted R l → Sorted R (l ++ [x]).
Proof.
  intros Htop. induction 1 as [|y l Hs IH Hhd]; simpl.
  - by repeat constructor.
  - constructor; [done|]. destruct Hhd; simpl; by constructor.
Qed.

Lemma Sorted_short {A} (R : relation A) l :
  (length l ≤ 2)%nat → Sorted R l → StronglySorted R l.
Proof.
  destruct l as [|a [|b [|c l]]]; simpl; intros Hlen Hs; try lia.
  - constructor.
  - by repeat constructor.
  - inversion Hs as [|? ? _ Hhd]; subst. inversion Hhd; subst.
    by repeat constructor.
Qed.

Lemma classes_of_elem vs v : v ∈ classes_of vs ↔ v ∈ vs.
Proof.
  unfold classes_of. rewrite elem_of_app, merge_sort_Permutation, elem_of_unique.
  rewrite list_elem_of_filter. destruct (decide (v = NaN)) as [->|Hv].
  - case_decide; [|set_solver]. rewrite list_elem_of_singleton. naive_solver.
  - case_decide; [rewrite list_elem_of_singleton|rewrite elem_of_nil]; naive_solver.
Qed.

Lemma classes_of_NoDup vs : NoDup (classes_of vs).
Proof.
  unfold classes_of. apply NoDup_app. split_and!.
  - rewrite merge_sort_Permutation. apply NoDup_unique.
  - intros v. rewrite merge_sort_Permutation, elem_of_unique, list_elem_of_filter.
    intros [Hv _]. case_decide; [|apply not_elem_of_nil].
    by rewrite list_elem_of_singleton.
  - case_decide; [apply NoDup_singleton|apply NoDup_nil_2].
Qed.

Lemma classes_of_Sorted vs : Sorted value_le (classes_of vs).
Proof.
  unfold classes_of. case_decide.
  - apply Sorted_snoc_top; [intros y; apply value_leb_NaN|].
    apply Sorted_merge_sort. apply _.
  - rewrite app_nil_r. apply Sorted_merge_sort. apply _.
Qed.

Lemma classes_of_length vs :
  (length (classes_of vs) ≤ length (unique vs))%nat.
Proof.
  apply submseteq_length, NoDup_submseteq; [apply classes_of_NoDup|].
  intros v. by rewrite classes_of_elem, elem_of_unique.
Qed.

(** [series.unique()] has one entry per distinct value. *)
Lemma length_unique c : length (unique (values c)) = distinct_values c.
Proof.
  unfold distinct_values. apply Permutation_length, NoDup_Permutation.
  - apply NoDup_unique.
  - apply NoDup_remove_dups.
  - intros v. by rewrite elem_of_unique, elem_of_remove_dups.
Qed.

(** At most two distinct values: there are two values such that every
    cell holds one of them. *)
Lemma low_cardinality_two_values c :
  low_cardinality c ↔ ∃ a b, ∀ v, v ∈ values c → v = a ∨ v = b.
Proof.
  unfold low_cardinality, distinct_values. split.
  - intros Hlen.
    assert (Hall : ∀ v, v ∈ values c → v ∈ remove_dups (values c))
      by (intros v; by rewrite elem_of_remove_dups).
    destruct (remove_dups (values c)) as [|a [|b [|? ?]]]; simpl in Hlen; [| | |lia].
    + exists NaN, NaN. intros v Hv%Hall. by apply elem_of_nil in Hv.
    + exists a, a. intros v Hv%Hall. apply list_elem_of_singleton in Hv. auto.
    + exists a, b. intros v Hv%Hall. set_solver.
  - intros (a & b & Hab).
    change 2%nat with (length [a; b]).
    apply submseteq_length, NoDup_submseteq; [apply NoDup_remove_dups|].
    intros v Hv. rewrite elem_of_remove_dups in Hv.
    destruct (Hab v Hv) as [-> | ->]; set_solver.
Qed.

(** Three or more distinct values: three cells hold pairwise different
    values. *)
Lemma three_distinct_values c :
  (3 ≤ distinct_values c)%nat
  ↔ ∃ u v w, u ∈ values c ∧ v ∈ values c ∧ w ∈ values c
             ∧ u ≠ v ∧ u ≠ w ∧ v ≠ w.
Proof.
  unfold distinct_values. split.
  - intros Hlen. pose proof (NoDup_remove_dups (values c)) as Hnd.
    assert (Hall : ∀ v, v ∈ remove_dups (values c) → v ∈ values c)
      by (intros v; by rewrite elem_of_remove_dups).
    destruct (remove_dups (values c)) as [|u [|v [|w ?]]]; simpl in Hlen; [lia..|].
    exists u, v, w.
    apply NoDup_cons in Hnd as [Hu Hnd]. apply NoDup_cons in Hnd as [Hv _].
    split_and!; [apply Hall; set_solver..| | |]; set_solver.
  - intros (u & v & w & Hu & Hv & Hw & Huv & Huw & Hvw).
    change 3%nat with (length [u; v; w]).
    apply submseteq_length, NoDup_submseteq.
    + repeat constructor; set_solver.
    + intros x. rewrite elem_of_remove_dups. set_solver.
Qed.

Lemma transform_has_code classes v :
  v ∈ classes → has_code classes v (transform classes v).
Proof.
  intros Hin. unfold transform, has_code.
  destruct (list_find (λ w, w = v) classes) as [[i w]|] eqn:Hfind.
  - apply list_find_Some in Hfind as (Hi & -> & _). eauto.
  - apply list_find_None in Hfind. rewrite Forall_forall in Hfind.
    by destruct (Hfind v Hin).
Qed.

(** The column the encoder writes back: the classes are the distinct
    values in sorted order, and each cell holds the position of its old
    value among them. *)
Lemma encode_column_codes c :
  low_cardinality c →
  ∃ classes,
    StronglySorted value_le classes
    ∧ NoDup classes
    ∧ (∀ v, v ∈ classes ↔ v ∈ values c)
    ∧ Forall2 (has_code classes) (values c) (values (encode_column c)).
Proof.
  intros Hlow. exists (classes_of (values c)). split_and!.
  - apply Sorted_short; [|apply classes_of_Sorted].
    etrans; [apply classes_of_length|]. by rewrite length_unique.
  - apply classes_of_NoDup.
  - apply classes_of_elem.
  - unfold encode_column. simpl. apply Forall2_fmap_r, Forall_Forall2_diag.
    apply Forall_forall. intros v Hv. apply transform_has_code.
    by apply classes_of_elem.
Qed.

Lemma fit_one_type c df :
  one_type c → fit (values c) df = (df, Ok (classes_of (values c))).
Proof.
  intros Hone. unfold fit, classes_of.
  set (U := unique (filter (λ v, v ≠ NaN) (values c))).
  assert (HU : ∀ v, v ∈ U → v ∈ values c ∧ v ≠ NaN).
  { intros v. unfold U. rewrite elem_of_unique, list_elem_of_filter. tauto. }
  assert (Hsame : same_type U = true).
  { destruct U as [|v l]; [done|]. simpl. apply forallb_forall.
    intros w Hw%list_elem_of_In. apply Nat.eqb_eq.
    destruct (HU v) as [? ?]; [apply list_elem_of_here|].
    destruct (HU w) as [? ?]; [by apply list_elem_of_further|].
    by apply Hone. }
  by rewrite Hsame.
Qed.

Lemma assign_existing df c k vs :
  unique_labels df →
  c ∈ df →
  assign (name c) k vs df
  = (λ c', if decide (name c' = name c) then mkColumn (name c) k vs else c') <$> df.
Proof.
  unfold unique_labels, columns.
  induction df as [|c' df IH]; [by intros _ ?%elem_of_nil|].
  intros [Hnotin Hnd]%NoDup_cons Hin. simpl.
  destruct (decide (name c' = name c)) as [Heq|Hne].
  - f_equal. symmetry. etrans; [|apply list_fmap_id]. apply list_fmap_ext.
    intros _ c'' Hc''%list_elem_of_lookup_2. simpl.
    rewrite decide_False; [done|]. intros Heq'.
    apply Hnotin. rewrite Heq, <-Heq'. by apply list_elem_of_fmap_2.
  - f_equal. apply IH; [done|].
    apply elem_of_cons in Hin as [->|?]; done.
Qed.

Lemma encode_if_low_run df c :
  unique_labels df →
  c ∈ df →
  (low_cardinality c → one_type c) →
  encode_if_low (name c) df = (encoded_where [name c] df, Ok tt).
Proof.
  intros Hu Hc Hone. unfold encode_if_low.
  erewrite D_bind_ok; [|by apply getitem_elem].
  assert (Hother : ∀ c', c' ∈ df → name c' = name c → c' = c).
  { intros c' Hc' Heq. by apply (unique_labels_inj df). }
  case_decide as Hlow; rewrite length_unique in Hlow.
  - erewrite D_bind_ok; [|by apply getitem_elem].
    unfold fit_transform.
    erewrite D_bind_ok; cycle 1.
    { erewrite D_bind_ok; [reflexivity|]. by apply fit_one_type, Hone. }
    unfold setitem. rewrite assign_existing by done. f_equal.
    unfold encoded_where. apply list_fmap_ext.
    intros _ c' Hc'%list_elem_of_lookup_2. simpl.
    destruct (decide (name c' = name c)) as [Heq|Hne].
    + rewrite (Hother c' Hc' Heq). rewrite decide_True; [done|].
      split; [apply list_elem_of_here|done].
    + rewrite decide_False; [done|]. intros [?%list_elem_of_singleton _]. done.
  - unfold mret, D_ret. f_equal. unfold encoded_where.
    symmetry. etrans; [|apply list_fmap_id]. apply list_fmap_ext.
    intros _ c' Hc'%list_elem_of_lookup_2. simpl.
    rewrite decide_False; [done|]. intros [Heq%list_elem_of_singleton Hlow'].
    rewrite (Hother c' Hc' Heq) in Hlow'. done.
Qed.

Lemma columns_encoded_where vars df :
  columns (encoded_where vars df) = columns df.
Proof.
  unfold columns, encoded_where. rewrite <-list_fmap_compose.
  apply list_fmap_ext. intros _ c _. simpl. by case_decide.
Qed.

Lemma encoded_where_cons var vars df :
  var ∉ vars →
  encoded_where vars (encoded_where [var] df) = encoded_where (var :: vars) df.
Proof.
  intros Hnotin. unfold encoded_where. rewrite <-list_fmap_compose.
  apply list_fmap_ext. intros _ c _. simpl.
  destruct (decide (name c ∈ [var] ∧ low_cardinality c)) as [[Hv Hlow]|Hv].
  - apply list_elem_of_singleton in Hv.
    rewrite decide_False by (simpl; rewrite Hv; tauto).
    rewrite decide_True; [done|]. split; [|done]. rewrite Hv. apply list_elem_of_here.
  - destruct (decide (name c ∈ vars ∧ low_cardinality c)) as [[Hin Hlow]|Hno].
    + rewrite decide_True; [done|]. split; [by apply list_elem_of_further|done].
    + rewrite decide_False; [done|]. intros [[Heq|Hin]%elem_of_cons Hlow].
      * apply Hv. split; [rewrite Heq; apply list_elem_of_here|done].
      * by apply Hno.
Qed.

Lemma for_each_encode vars df :
  unique_labels df →
  NoDup vars →
  vars ⊆ columns df →
  (∀ c, c ∈ df → name c ∈ vars → low_cardinality c → one_type c) →
  for_each vars encode_if_low df = (encoded_where vars df, Ok tt).
Proof.
  revert df. induction vars as [|var vars IH]; intros df Hu Hnd Hsub Hone.
  - simpl. unfold mret, D_ret, encoded_where. f_equal.
    symmetry. etrans; [|apply list_fmap_id]. apply list_fmap_ext.
    intros _ c _. cbv beta. rewrite decide_False; [done|].
    intros [?%elem_of_nil _]. done.
  - apply NoDup_cons in Hnd as [Hnotin Hnd].
    assert (Hvar : var ∈ columns df) by (apply Hsub, list_elem_of_here).
    apply list_elem_of_fmap in Hvar as (c & -> & Hc).
    cbn [for_each]. erewrite D_bind_ok; cycle 1.
    { apply encode_if_low_run; [done..|]. apply Hone; [done|apply list_elem_of_here]. }
    rewrite IH.
    + by rewrite encoded_where_cons.
    + unfold unique_labels. by rewrite columns_encoded_where.
    + done.
    + rewrite columns_encoded_where. intros x Hx. apply Hsub.
      by apply list_elem_of_further.
    + intros c1 (c0 & -> & Hc0)%list_elem_of_fmap.
      destruct (decide (name c0 ∈ [name c] ∧ low_cardinality c0))
        as [[Heq%list_elem_of_singleton _]|_].
      * simpl. rewrite Heq. by intros ?.
      * intros Hin. apply Hone; [done|by apply list_elem_of_further].
Qed.

Lemma vars_to_encode_elem df (ex : list string) c :
  unique_labels df →
  c ∈ df →
  name c ∈ filter (λ x, x ∉ ex) (select_dtypes_include category df)
  ↔ kind c = category ∧ name c ∉ ex.
Proof.
  intros Hu Hc. rewrite list_elem_of_filter.
  unfold select_dtypes_include, columns. rewrite list_elem_of_fmap. split.
  - intros (Hex & c' & Hn & [Hk Hc']%list_elem_of_filter).
    assert (c = c') as -> by by apply (unique_labels_inj df). done.
  - intros [Hk Hex]. split; [done|]. exists c. by rewrite list_elem_of_filter.
Qed.

Lemma label_encode_body_run (exclude_list : option (list string)) df :
  unique_labels df →
  (∀ c, c ∈ df → encodable (default [] exclude_list) c → one_type c) →
  label_encode_body exclude_list df
  = (encoded_where
       (filter (λ x, x ∉ default [] exclude_list)
          (select_dtypes_include category df)) df,
     Ok tt).
Proof.
  intros Hu Hone. unfold label_encode_body.
  set (ex := default [] exclude_list) in *.
  erewrite D_bind_ok; [|reflexivity].
  apply (for_each_encode _ df Hu).
  - apply NoDup_filter. unfold select_dtypes_include.
    apply (sublist_NoDup _ (columns df)); [exact Hu|].
    apply (fmap_sublist name), sublist_filter.
  - intros x [_ Hx]%list_elem_of_filter.
    unfold select_dtypes_include, columns in *.
    apply list_elem_of_fmap in Hx as (c & -> & [_ Hc]%list_elem_of_filter).
    by apply list_elem_of_fmap_2.
  - intros c Hc Hin Hlow. apply vars_to_encode_elem in Hin as [Hk Hex]; [|done..].
    by apply Hone.
Qed.

(** C3.  On a dataset whose columns each hold values of one type,
    [label_encode] changes the caller's dataset in place and returns it.
    A categorical column that is not excluded and has at most two distinct
    values, the missing value counted, becomes a numeric column of codes:
    the classes are its distinct values in strictly sorted order with the
    missing value last, and every cell holds the 0-based position of its
    old value among them, the same code for the same value.  Every other
    column is left as it was, in particular a categorical column with three
    or more distinct values and every column of the exclusion list. *)
Theorem label_encode_codes (σ : store) (r : ref) (df : DataFrame)
    (exclude_list : option (list string)) :
  let ex := default [] exclude_list in
  σ !! r = Some df →
  unique_labels df →
  (∀ c, c ∈ df → encodable ex c → one_type c) →
  ∃ df',
    label_encode r exclude_list σ = (<[r := df']> σ, Ok r)
    ∧ Forall2 (λ c c',
         name c' = name c
         ∧ (encodable ex c →
              kind c' = number
              ∧ ∃ classes,
                  StronglySorted value_le classes
                  ∧ NoDup classes
                  ∧ (∀ v, v ∈ classes ↔ v ∈ values c)
                  ∧ Forall2 (has_code classes) (values c) (values c'))
         ∧ (¬ encodable ex c → c' = c)
         ∧ (kind c = category → (3 ≤ distinct_values c)%nat → c' = c)
         ∧ (name c ∈ ex → c' = c)) df df'.
Proof.
  intros ex Hr Hu Hone.
  set (vars := filter (λ x, x ∉ ex) (select_dtypes_include category df)).
  exists (encoded_where vars df). split.
  { apply (in_place_run _ _ _ df); [done|]. by apply label_encode_body_run. }
  unfold encoded_where. apply Forall2_fmap_r, Forall_Forall2_diag.
  apply Forall_forall. intros c Hc. unfold compose. cbv beta.
  pose proof (vars_to_encode_elem df ex c Hu Hc) as Hvars. fold vars in Hvars.
  assert (Hiff : name c ∈ vars ∧ low_cardinality c ↔ encodable ex c)
    by (unfold encodable; tauto).
  unfold vars in *.
  destruct (decide (name c ∈ filter (λ x, x ∉ ex) (select_dtypes_include category df)
                    ∧ low_cardinality c)) as [Hyes|Hno].
  - assert (Henc : encodable ex c) by tauto.
    split_and!; [done| |tauto| |].
    + intros _. split; [done|]. apply encode_column_codes, Henc.
    + intros _ Hlen. destruct Henc as (_ & _ & Hlow). unfold low_cardinality in Hlow. lia.
    + intros Hin. by destruct Henc as (_ & ? & _).
  - split_and!; [done| |done..]. intros Henc. tauto.
Qed.

Lemma one_type_check c :
  same_type (filter (λ v, v ≠ NaN) (values c)) = true → one_type c.
Proof.
  unfold one_type. intros Hsame v w Hv Hw Hnv Hnw.
  assert (Hv' : v ∈ filter (λ v, v ≠ NaN) (values c)) by by apply list_elem_of_filter.
  assert (Hw' : w ∈ filter (λ v, v ≠ NaN) (values c)) by by apply list_elem_of_filter.
  destruct (filter (λ v, v ≠ NaN) (values c)) as [|u l]; [by apply elem_of_nil in Hv'|].
  simpl in Hsame. rewrite forallb_forall in Hsame.
  assert (Htag : ∀ x, x ∈ u :: l → type_tag x = type_tag u).
  { intros x [->|Hx]%elem_of_cons; [done|].
    apply Nat.eqb_eq, Hsame. by apply list_elem_of_In. }
  by rewrite (Htag v), (Htag w).
Qed.

Lemma label_encode_codes_witness :
  ∃ df',
    label_encode 1%positive (Some ["flag"]) survey_store
    = (<[1%positive := df']> survey_store, Ok 1%positive)
    ∧ columns df' = columns survey
    ∧ kind <$> df' = [number; number; category; category; number].
Proof.
  destruct (label_encode_codes survey_store 1%positive survey (Some ["flag"]))
    as (df' & Hrun & Hall).
  - reflexivity.
  - unfold unique_labels. vm_compute. repeat constructor; set_solver.
  - intros c Hc _. apply one_type_check.
    unfold survey in Hc.
    repeat (apply elem_of_cons in Hc as [->|Hc]; [reflexivity|]).
    by apply elem_of_nil in Hc.
  - exists df'. split; [exact Hrun|]. split.
    + unfold columns. symmetry. apply list_eq_Forall2.
      apply Forall2_fmap. eapply Forall2_impl; [exact Hall|].
      intros c c' (Hn & _). by symmetry.
    + unfold survey in Hall.
      apply Forall2_cons_inv_l in Hall as (c1 & l1 & (_ & H1 & _) & Hall & ->).
      apply Forall2_cons_inv_l in Hall as (c2 & l2 & (_ & H2 & _) & Hall & ->).
      apply Forall2_cons_inv_l in Hall as (c3 & l3 & (_ & _ & _ & H3 & _) & Hall & ->).
      apply Forall2_cons_inv_l in Hall as (c4 & l4 & (_ & _ & _ & _ & H4) & Hall & ->).
      apply Forall2_cons_inv_l in Hall as (c5 & l5 & (_ & H5 & _) & Hall & ->).
      apply Forall2_nil_inv_l in Hall as ->.
      destruct H1 as [Hk1 _].
      { split_and!; [done|cbn; set_solver|]. unfold low_cardinality. vm_compute. lia. }
      destruct H2 as [Hk2 _].
      { split_and!; [done|cbn; set_solver|]. unfold low_cardinality. vm_compute. lia. }
      rewrite H3; [|done|vm_compute; lia].
      rewrite H4 by (cbn; set_solver).
      destruct H5 as [Hk5 _].
      { split_and!; [done|cbn; set_solver|]. unfold low_cardinality. vm_compute. lia. }
      cbn. by rewrite Hk1, Hk2, Hk5.
Defined.

(** The encoder at work on [survey], with [flag] excluded: [answer] has the
    classes no, yes; [opt] has the classes x and the missing value; the
    numbers of [kept] are their own codes; [grade] has three values and
    [flag] is excluded. *)
Example label_encode_survey :
  (label_encode 1%positive (Some ["flag"]) survey_store).1 !! 1%positive
  = Some
      [ mkColumn "answer" number [Num 1; Num 0; Num 1; Num 1];
        mkColumn "opt" number [Num 0; Num 1; Num 0; Num 1];
        mkColumn "grade" category [Str "a"; Str "b"; Str "c"; Str "a"];
        mkColumn "flag" category [Num 5; Num 3; Num 5; Num 5];
        mkColumn "kept" number [Num 1; Num 0; Num 1; Num 0] ].
Proof. vm_compute. reflexivity. Qed.

(** The dates of the specification's examples. *)
Example time_features_of_dates :
  dt_year (Some (mkTimestamp 2023 Jul 15)) = Num 2023
  ∧ dt_month_name (Some (mkTimestamp 2023 Jul 15)) = Str "July"
  ∧ dt_day_name (Some (mkTimestamp 2023 Jul 15)) = Str "Saturday"
  ∧ season_feature (Some (mkTimestamp 2023 Jul 15)) = Str "Summer"
  ∧ season_feature (Some (mkTimestamp 2023 Dec 1)) = Str "Winter".
Proof. by vm_compute. Qed.

(** * Further properties *)

(** ** clean_headers: what it keeps, running it twice, clashing labels *)

















(** ** check_missing: the empty report and the full column *)

Lemma check_missing_body_entries sort df :
  sorts_ascending sort →
  ∃ report : Series,
    check_missing_body sort df = (df, Ok report)
    ∧ report ≡ₚ (λ c, (name c, Some (missing_fraction c * 100)%Q))
                <$> filter (λ c, (0 < missing_fraction c)%Q) df.
Proof.
  intros Hsort. eexists. split; [apply check_missing_body_run|].
  rewrite reverse_Permutation, (proj1 (Hsort _)), reverse_Permutation.
  rewrite non_nans_isnull_mean.
  rewrite (filter_fmap (λ c, (name c, missing_fraction c))
             (λ e : string * Q, (0 < e.2)%Q)).
  rewrite <-list_fmap_compose.
  rewrite (list_filter_filter (λ c, (0 < missing_fraction c)%Q)
             (λ c, values c ≠ [])).
  erewrite (list_filter_iff _ (λ c, (0 < missing_fraction c)%Q)); [done|].
  intros c. simpl. split; [tauto|]. intros Hpos. split; [done|].
  apply missing_fraction_positive in Hpos. intros Hnil.
  rewrite Hnil in Hpos. by apply elem_of_nil in Hpos.
Qed.

Lemma check_missing_entries sort (σ : store) (r : ref) df :
  sorts_ascending sort →
  σ !! r = Some df →
  ∃ report : Series,
    check_missing sort r σ = (σ, Ok report)
    ∧ report ≡ₚ (λ c, (name c, Some (missing_fraction c * 100)%Q))
                <$> filter (λ c, (0 < missing_fraction c)%Q) df.
Proof.
  intros Hsort Hr.
  destruct (check_missing_body_entries sort df Hsort) as (report & Hrun & Hperm).
  exists report. split; [|done].
  by rewrite (check_missing_run _ _ _ _ Hr), Hrun.
Qed.

Lemma filter_none {A} (P : A → Prop) `{∀ x, Decision (P x)} (l : list A) :
  (∀ x, x ∈ l → ¬ P x) → filter P l = [].
Proof.
  induction l as [|x l IH]; intros Hall; [done|].
  rewrite filter_cons_False by (apply Hall, list_elem_of_here).
  apply IH. intros y Hy. by apply Hall, list_elem_of_further.
Qed.

(** X4.  The report of [check_missing] is empty exactly when no cell of the
    dataset is missing; so it is empty for a dataset without rows and for
    one without columns, and it never has more entries than the dataset has
    columns. *)
Theorem check_missing_empty_report (sort : list (string * Q) → list (string * Q))
    (σ : store) (r : ref) (df : DataFrame) :
  sorts_ascending sort →
  σ !! r = Some df →
  ∃ report : Series,
    check_missing sort r σ = (σ, Ok report)
    ∧ (report = [] ↔ ∀ c, c ∈ df → NaN ∉ values c)
    ∧ (rows 0 df → report = [])
    ∧ (length report ≤ length df)%nat.
Proof.
  intros Hsort Hr.
  destruct (check_missing_entries sort σ r df Hsort Hr) as (report & Hrun & Hperm).
  exists report. split; [done|].
  assert (Hiff : report = [] ↔ ∀ c, c ∈ df → NaN ∉ values c).
  { split.
    - intros -> c Hc Hnan. symmetry in Hperm. apply Permutation_nil_r in Hperm.
      apply fmap_nil_inv in Hperm.
      assert (Hin : c ∈ filter (λ c, (0 < missing_fraction c)%Q) df).
      { apply list_elem_of_filter. split; [by apply missing_fraction_positive|done]. }
      rewrite Hperm in Hin. by apply elem_of_nil in Hin.
    - intros Hall. apply Permutation_nil_r. rewrite Hperm.
      replace (filter (λ c, (0 < missing_fraction c)%Q) df) with (@nil Column); [done|].
      symmetry. apply filter_none. intros c Hc Hpos.
      apply missing_fraction_positive in Hpos. by apply (Hall c). }
  split_and!; [done| |].
  - intros Hrows. apply Hiff. intros c Hc.
    unfold rows in Hrows. rewrite Forall_forall in Hrows.
    apply Hrows, nil_length_inv in Hc. rewrite Hc. apply not_elem_of_nil.
  - rewrite Hperm, length_fmap. apply length_filter.
Qed.

Lemma check_missing_empty_report_witness :
  ∃ report : Series,
    check_missing stable_sort 1%positive spaced_store = (spaced_store, Ok report)
    ∧ report = [].
Proof.
  destruct (check_missing_empty_report stable_sort spaced_store 1%positive spaced)
    as (report & Hrun & Hiff & _).
  - exact stable_sort_contract.
  - reflexivity.
  - exists report. split; [exact Hrun|]. apply Hiff.
    intros c Hc. unfold spaced in Hc.
    repeat (apply elem_of_cons in Hc as [->|Hc]; [simpl; set_solver|]).
    by apply elem_of_nil in Hc.
Defined.

Lemma missing_fraction_all_missing c :
  values c ≠ [] →
  Forall (λ v, v = NaN) (values c) →
  (missing_fraction c * 100 == 100)%Q.
Proof.
  intros Hne Hall. unfold missing_fraction.
  rewrite filter_all by done.
  assert (Hlen : (0 < length (values c))%nat)
    by (destruct (values c); [done|simpl; lia]).
  unfold Qeq, Qmult. simpl. rewrite Pos.mul_1_r.
  rewrite <-(positive_nat_Z (Pos.of_nat _)), Nat2Pos.id by lia. lia.
Qed.

(** X5.  A column with rows whose cells are all missing is listed by
    [check_missing] with the percentage 100. *)
Theorem check_missing_full_column (sort : list (string * Q) → list (string * Q))
    (σ : store) (r : ref) (df : DataFrame) (c : Column) :
  sorts_ascending sort →
  σ !! r = Some df →
  c ∈ df →
  values c ≠ [] →
  Forall (λ v, v = NaN) (values c) →
  ∃ (report : Series) (p : Q),
    check_missing sort r σ = (σ, Ok report)
    ∧ (name c, Some p) ∈ report
    ∧ (p == 100)%Q.
Proof.
  intros Hsort Hr Hc Hne Hall.
  destruct (check_missing_entries sort σ r df Hsort Hr) as (report & Hrun & Hperm).
  exists report, (missing_fraction c * 100)%Q. split_and!; [done| |].
  - rewrite Hperm. apply (list_elem_of_fmap_2 (λ c, (name c, Some (missing_fraction c * 100)%Q))).
    apply list_elem_of_filter. split; [|done].
    apply missing_fraction_positive.
    destruct (values c) as [|v vs]; [done|].
    apply Forall_cons in Hall as [-> _]. apply list_elem_of_here.
  - by apply missing_fraction_all_missing.
Qed.

Lemma check_missing_full_column_witness :
  ∃ (report : Series) (p : Q),
    check_missing stable_sort 1%positive gaps_store = (gaps_store, Ok report)
    ∧ ("Score", Some p) ∈ report
    ∧ (p == 100)%Q.
Proof.
  apply (check_missing_full_column stable_sort gaps_store 1%positive gaps
           (mkColumn "Score" number [NaN; NaN])).
  - exact stable_sort_contract.
  - reflexivity.
  - apply list_elem_of_here.
  - discriminate.
  - by repeat constructor.
Defined.

(** ** check_negative: the exclusion list *)

Lemma filter_ext_elem {A} (P Q : A → Prop) `{∀ x, Decision (P x)}
    `{∀ x, Decision (Q x)} (l : list A) :
  (∀ x, x ∈ l → P x ↔ Q x) → filter P l = filter Q l.
Proof.
  induction l as [|x l IH]; intros Hiff; [done|].
  assert (Hx : P x ↔ Q x) by apply Hiff, list_elem_of_here.
  assert (Hl : filter P l = filter Q l).
  { apply IH. intros y Hy. by apply Hiff, list_elem_of_further. }
  rewrite !filter_cons. destruct (decide (P x)), (decide (Q x));
    first [tauto | by rewrite Hl].
Qed.

(** X6.  A label of the exclusion list that is no column of the dataset is
    ignored without an error: the report is the one for the labels that are
    columns.  Excluding more labels only removes rows: the report for a
    longer exclusion list is the report for the shorter one with rows left
    out, in the same order. *)
Theorem check_negative_exclusion (σ : store) (r : ref) (df : DataFrame)
    (ex ex' : list string) :
  σ !! r = Some df →
  unique_labels df →
  ∃ report report' : Report,
    check_negative r (Some ex) σ = (σ, Ok report)
    ∧ check_negative r (Some (filter (λ x, x ∈ columns df) ex)) σ
      = (σ, Ok report)
    ∧ check_negative r (Some (ex ++ ex')) σ = (σ, Ok report')
    ∧ report' `sublist_of` report.
Proof.
  intros Hr Hu. eexists _, _.
  rewrite !(check_negative_run _ _ _ _ Hr Hu). simpl. split_and!; [done| |done|].
  - do 3 f_equal. apply filter_ext_elem.
    intros c [_ Hc]%list_elem_of_filter. rewrite list_elem_of_filter.
    split; [|tauto]. intros Hno Hin. apply Hno. split; [|done].
    by apply list_elem_of_fmap_2.
  - apply (fmap_sublist (λ c, (name c, existsb lt0 (values c)))).
    rewrite (filter_ext_elem (λ c, name c ∉ ex ++ ex')
               (λ c, name c ∉ ex' ∧ name c ∉ ex)).
    + rewrite <-(list_filter_filter (λ c, name c ∉ ex') (λ c, name c ∉ ex)).
      apply sublist_filter.
    + intros c _. rewrite elem_of_app. tauto.
Qed.

Lemma check_negative_exclusion_witness :
  ∃ report report' : Report,
    check_negative 1%positive (Some ["Region"; "nowhere"]) sales_store
    = (sales_store, Ok report)
    ∧ check_negative 1%positive
        (Some (filter (λ x, x ∈ columns sales) ["Region"; "nowhere"])) sales_store
      = (sales_store, Ok report)
    ∧ check_negative 1%positive (Some (["Region"; "nowhere"] ++ ["Amount"]))
        sales_store
      = (sales_store, Ok report')
    ∧ report' `sublist_of` report.
Proof.
  apply (check_negative_exclusion sales_store 1%positive sales).
  - reflexivity.
  - unfold unique_labels. vm_compute. repeat constructor; set_solver.
Defined.

(** ** create_time_vars: switches off, errors, and what an error leaves *)

Lemma lookup_column_None var df :
  lookup_column var df = None ↔ var ∉ columns df.
Proof.
  induction df as [|c' df IH]; simpl.
  - split; [intros _; apply not_elem_of_nil|done].
  - rewrite not_elem_of_cons. case_decide; [naive_solver|]. rewrite IH. naive_solver.
Qed.

Lemma create_time_vars_body_missing time_var (year month day season : bool) df :
  lookup_column time_var df = None →
  create_time_vars_body time_var year month day season df
  = (df, if year || month || day || season then Raise KeyError else Ok tt).
Proof.
  intros Hno. rewrite create_time_vars_body_steps.
  destruct year, month, day, season;
    unfold mbind, D_bind, feature_when, feature_step; by rewrite ?Hno.
Qed.

Lemma create_time_vars_body_not_datetime time_var (year month day season : bool)
    c df :
  lookup_column time_var df = Some c →
  kind c ≠ datetime →
  create_time_vars_body time_var year month day season df
  = (df, if year || month || day || season then Raise AttributeError else Ok tt).
Proof.
  intros Hc Hk. rewrite create_time_vars_body_steps.
  destruct year, month, day, season;
    unfold mbind, D_bind, feature_when, feature_step;
    rewrite ?Hc, ?decide_False by done; done.
Qed.

(** X7.  With the five switches off [create_time_vars] does nothing: it
    returns the caller's reference and leaves the store as it is, whatever
    the label it is given, a column of the dataset or not. *)
Theorem create_time_vars_all_off (σ : store) (r : ref) (df : DataFrame)
    (time_var : string) :
  σ !! r = Some df →
  create_time_vars r time_var (Some false) (Some false) (Some false)
    (Some false) (Some false) σ
  = (σ, Ok r).
Proof.
  intros Hr. rewrite (create_time_vars_run _ _ _ _ _ _ _ _ _ Hr).
  rewrite create_time_vars_body_steps. simpl. by rewrite insert_id.
Qed.

Lemma create_time_vars_all_off_witness :
  create_time_vars 1%positive "nowhere" (Some false) (Some false) (Some false)
    (Some false) (Some false) sales_store
  = (sales_store, Ok 1%positive).
Proof. apply (create_time_vars_all_off sales_store 1%positive sales). reflexivity. Defined.

(** X8.  When the label is no column of the dataset and at least one of
    the five switches is on, the call raises KeyError and the store is as
    it was: nothing is added and no object is created. *)
Theorem create_time_vars_missing_column (σ : store) (r : ref) (df : DataFrame)
    (time_var : string) (year month day season drop : option bool) :
  σ !! r = Some df →
  time_var ∉ columns df →
  kwarg true year || kwarg true month || kwarg true day || kwarg true season
    || kwarg true drop = true →
  create_time_vars r time_var year month day season drop σ = (σ, Raise KeyError).
Proof.
  intros Hr Hno Hon. rewrite (create_time_vars_run _ _ _ _ _ _ _ _ _ Hr).
  rewrite create_time_vars_body_missing by by apply lookup_column_None.
  rewrite insert_id by done.
  destruct (kwarg true year || kwarg true month || kwarg true day
            || kwarg true season) eqn:Hany; [done|].
  simpl in Hon. rewrite Hon. cbv zeta. by rewrite decide_False.
Qed.

Lemma create_time_vars_missing_column_witness :
  create_time_vars 1%positive "nowhere" None None None None None sales_store
  = (sales_store, Raise KeyError).
Proof.
  apply (create_time_vars_missing_column sales_store 1%positive sales).
  - reflexivity.
  - vm_compute. set_solver.
  - reflexivity.
Defined.

(** X9.  When the column is numeric or holds plain objects and one of the
    four feature switches is on, the call raises AttributeError before it
    writes anything: the store is as it was.  With the four feature
    switches off and drop on, the kind of the column is never looked at:
    the call returns a new dataset without the column. *)
Theorem create_time_vars_not_datetime (σ : store) (r : ref) (df : DataFrame)
    (time_var : string) (year month day season drop : option bool)
    (c : Column) :
  σ !! r = Some df →
  unique_labels df →
  lookup_column time_var df = Some c →
  kind c = number ∨ kind c = object →
  (kwarg true year || kwarg true month || kwarg true day || kwarg true season
     = true →
   create_time_vars r time_var year month day season drop σ
   = (σ, Raise AttributeError))
  ∧ create_time_vars r time_var (Some false) (Some false) (Some false)
      (Some false) (Some true) σ
    = (<[fresh (dom σ) := filter (λ c, name c ≠ time_var) df]> σ,
       Ok (fresh (dom σ))).
Proof.
  intros Hr _ Hc Hkind.
  assert (Hk : kind c ≠ datetime) by (destruct Hkind as [-> | ->]; done).
  split.
  - intros Hon. rewrite (create_time_vars_run _ _ _ _ _ _ _ _ _ Hr).
    rewrite (create_time_vars_body_not_datetime _ _ _ _ _ c) by done.
    by rewrite Hon, insert_id.
  - rewrite (create_time_vars_run _ _ _ _ _ _ _ _ _ Hr).
    rewrite (create_time_vars_body_not_datetime _ _ _ _ _ c) by done.
    cbn [kwarg orb]. cbv zeta. rewrite (insert_id σ r df Hr).
    rewrite decide_True; [done|].
    apply lookup_column_Some in Hc as [Hin <-]. by apply list_elem_of_fmap_2.
Qed.

Lemma create_time_vars_not_datetime_witness :
  create_time_vars 1%positive "when" None None None None None raw_store
  = (raw_store, Raise AttributeError).
Proof.
  apply (create_time_vars_not_datetime raw_store 1%positive raw "when"
           None None None None None
           (mkColumn "when" object [Str "2023-07-15"; Str "2023-12-01"])).
  - reflexivity.
  - unfold unique_labels. vm_compute. repeat constructor; set_solver.
  - reflexivity.
  - by right.
  - reflexivity.
Defined.

(** X10.  A source column labelled [year] is written over by the year
    feature.  With the year switch and one later feature switch on, the
    later block finds a categorical column where the timestamps were and
    the call raises AttributeError; the caller's dataset is left with the
    timestamps gone, its column [year] holding the year numbers. *)
Theorem create_time_vars_overwrites_source (σ : store) (r : ref)
    (df : DataFrame) (year month day season drop : option bool)
    (src : Column) :
  σ !! r = Some df →
  unique_labels df →
  lookup_column "year" df = Some src →
  kind src = datetime →
  kwarg true year = true →
  kwarg true month || kwarg true day || kwarg true season = true →
  create_time_vars r "year" year month day season drop σ
  = (<[r := assign "year" category (dt_year <$> (as_timestamp <$> values src)) df]> σ,
     Raise AttributeError).
Proof.
  intros Hr _ Hsrc Hk Hyear Hlater.
  rewrite (create_time_vars_run _ _ _ _ _ _ _ _ _ Hr), Hyear.
  set (df1 := assign "year" category
                (dt_year <$> (as_timestamp <$> values src)) df).
  assert (Hbody : create_time_vars_body "year" true (kwarg true month)
                    (kwarg true day) (kwarg true season) df
                  = (df1, Raise AttributeError)).
  { rewrite create_time_vars_body_steps.
    erewrite D_bind_ok; cycle 1.
    { simpl. unfold feature_step. by rewrite Hsrc, decide_True. }
    fold df1.
    pose proof (create_time_vars_body_not_datetime "year" false
                  (kwarg true month) (kwarg true day) (kwarg true season)
                  (mkColumn "year" category
                     (dt_year <$> (as_timestamp <$> values src))) df1) as Hrest.
    rewrite create_time_vars_body_steps in Hrest.
    erewrite D_bind_ok in Hrest by reflexivity.
    rewrite Hrest; [|apply lookup_column_assign_eq|done].
    cbn [orb]. by rewrite Hlater. }
  by rewrite Hbody.
Qed.

Lemma create_time_vars_overwrites_source_witness :
  create_time_vars 1%positive "year" None None None None None yearly_store
  = (<[1%positive := assign "year" category [Num 2023; Num 2024] yearly]>
       yearly_store,
     Raise AttributeError).
Proof.
  apply (create_time_vars_overwrites_source yearly_store 1%positive yearly
           None None None None None
           (mkColumn "year" datetime
              [Time (mkTimestamp 2023 Jul 15); Time (mkTimestamp 2024 Dec 1)]));
    [reflexivity| |reflexivity..].
  unfold unique_labels. vm_compute. repeat constructor; set_solver.
Defined.

(** ** create_time_vars: keeping the source column *)

Lemma columns_assign_keeps var k vs df x :
  x ∈ columns df → x ∈ columns (assign var k vs df).
Proof.
  induction df as [|c df IH]; simpl; [by intros ?%elem_of_nil|].
  intros [->|Hin]%elem_of_cons.
  - case_decide as Hc; simpl; [rewrite Hc|]; apply list_elem_of_here.
  - case_decide; simpl; apply list_elem_of_further; [done|by apply IH].
Qed.

Lemma feature_when_labels b time_var var f df df1 x :
  feature_when b time_var var f df = (df1, Ok tt) →
  x ∈ columns df → x ∈ columns df1.
Proof.
  destruct b; simpl; [|by intros [= <-]].
  unfold feature_step. destruct (lookup_column time_var df); [|done].
  case_decide; [|done]. intros [= <-]. apply columns_assign_keeps.
Qed.

Lemma create_time_vars_body_labels time_var (year month day season : bool)
    df df4 x :
  create_time_vars_body time_var year month day season df = (df4, Ok tt) →
  x ∈ columns df → x ∈ columns df4.
Proof.
  intros (df1 & df2 & df3 & H1 & H2 & H3 & H4)%create_time_vars_body_inv Hx.
  eapply feature_when_labels; [exact H4|].
  eapply feature_when_labels; [exact H3|].
  eapply feature_when_labels; [exact H2|].
  eapply feature_when_labels; [exact H1|done].
Qed.

(** X11.  With the drop switch off a successful call returns the caller's
    own reference: the features are written into the caller's dataset, no
    object is created, every label the dataset had is still there (the
    source column among them), and no other object changes. *)
Theorem create_time_vars_keep (σ σ' : store) (r r' : ref) (df : DataFrame)
    (time_var : string) (year month day season drop : option bool) :
  σ !! r = Some df →
  unique_labels df →
  kwarg true drop = false →
  create_time_vars r time_var year month day season drop σ = (σ', Ok r') →
  r' = r
  ∧ dom σ' = dom σ
  ∧ (∀ r'', r'' ≠ r → σ' !! r'' = σ !! r'')
  ∧ ∃ df1,
      σ' !! r = Some df1
      ∧ create_time_vars_body time_var (kwarg true year) (kwarg true month)
          (kwarg true day) (kwarg true season) df = (df1, Ok tt)
      ∧ ∀ x, x ∈ columns df → x ∈ columns df1.
Proof.
  intros Hr _ Hdrop. rewrite (create_time_vars_run _ _ _ _ _ _ _ _ _ Hr), Hdrop.
  destruct (create_time_vars_body _ _ _ _ _ df) as [df1 [[]|e]] eqn:Hbody; [|done].
  cbv zeta. intros [= <- <-]. split_and!; [done| | |].
  - apply dom_insert_lookup_L. eauto.
  - intros r'' Hne. by rewrite lookup_insert_ne.
  - exists df1. split_and!; [apply lookup_insert_eq|done|].
    intros x. by apply (create_time_vars_body_labels _ _ _ _ _ _ _ _ Hbody).
Qed.

Lemma create_time_vars_keep_witness :
  ∃ σ' : store,
    create_time_vars 1%positive "placed" None None None None (Some false)
      orders_store
    = (σ', Ok 1%positive)
    ∧ dom σ' = dom orders_store.
Proof.
  pose (res := create_time_vars 1%positive "placed" None None None None
                 (Some false) orders_store).
  assert (Hres : res = (res.1, Ok 1%positive)) by (vm_compute; reflexivity).
  destruct (create_time_vars_keep orders_store res.1 1%positive 1%positive
              orders "placed" None None None None (Some false))
    as (_ & Hdom & _); [reflexivity| |reflexivity|exact Hres|].
  { unfold unique_labels. vm_compute. repeat constructor; set_solver. }
  exists res.1. split; [exact Hres|exact Hdom].
Defined.

(** ** create_time_vars: what the feature columns hold, and calling again *)

Lemma feature_when_writes b time_var var f src df df1 :
  source_state time_var src df →
  feature_when b time_var var f df = (df1, Ok tt) →
  df1 = write_feature b var f src df.
Proof.
  intros Hst. destruct b; simpl; [|by intros [= <-]].
  by intros (_ & _ & ->)%(feature_step_source _ _ _ src).
Qed.

(** A successful run of the four blocks wrote each switched-on feature from
    the source column as the caller passed it. *)
Lemma create_time_vars_body_shape time_var (year month day season : bool)
    src df df4 :
  lookup_column time_var df = Some src →
  create_time_vars_body time_var year month day season df = (df4, Ok tt) →
  df4 = write_features year month day season src df.
Proof.
  intros Hsrc (df1 & df2 & df3 & H1 & H2 & H3 & H4)%create_time_vars_body_inv.
  assert (Hs0 : source_state time_var src df) by by left.
  pose proof (feature_when_source _ _ _ _ _ _ _ Hs0 H1) as Hs1.
  pose proof (feature_when_source _ _ _ _ _ _ _ Hs1 H2) as Hs2.
  pose proof (feature_when_source _ _ _ _ _ _ _ Hs2 H3) as Hs3.
  apply (feature_when_writes _ _ _ _ src) in H1, H2, H3, H4; try done.
  unfold write_features. by subst.
Qed.

Lemma lookup_write_feature_ne b var var' f src df :
  var' ≠ var →
  lookup_column var' (write_feature b var f src df) = lookup_column var' df.
Proof.
  intros Hne. destruct b; simpl; [|done]. by apply lookup_column_assign_ne.
Qed.

Lemma lookup_write_feature_eq var f src df :
  lookup_column var (write_feature true var f src df)
  = Some (feature_column var f src).
Proof. apply lookup_column_assign_eq. Qed.

Lemma lookup_write_features (year month day season : bool) src df :
  (year = true →
   lookup_column "year" (write_features year month day season src df)
   = Some (feature_column "year" dt_year src))
  ∧ (month = true →
     lookup_column "month" (write_features year month day season src df)
     = Some (feature_column "month" dt_month_name src))
  ∧ (day = true →
     lookup_column "day" (write_features year month day season src df)
     = Some (feature_column "day" dt_day_name src))
  ∧ (season = true →
     lookup_column "season" (write_features year month day season src df)
     = Some (feature_column "season" season_feature src)).
Proof.
  unfold write_features. split_and!; intros ->;
    rewrite ?lookup_write_feature_ne by done; apply lookup_write_feature_eq.
Qed.

(** X12.  After a successful call the caller's dataset holds, for each of
    the year, month and day switches that is on, a categorical column of
    that label whose cell in each row is the year number, the month name
    and the weekday name of the source timestamp of that row, and a missing
    value where the row has no timestamp.  The returned dataset holds the
    same columns, the one labelled like the dropped source column
    excepted. *)
Theorem create_time_vars_features (σ σ' : store) (r r' : ref) (df : DataFrame)
    (time_var : string) (year month day season drop : option bool)
    (src : Column) :
  σ !! r = Some df →
  unique_labels df →
  lookup_column time_var df = Some src →
  create_time_vars r time_var year month day season drop σ = (σ', Ok r') →
  ∃ df1 df',
    σ' !! r = Some df1
    ∧ σ' !! r' = Some df'
    ∧ (kwarg true year = true →
       lookup_column "year" df1 = Some (feature_column "year" dt_year src))
    ∧ (kwarg true month = true →
       lookup_column "month" df1
       = Some (feature_column "month" dt_month_name src))
    ∧ (kwarg true day = true →
       lookup_column "day" df1 = Some (feature_column "day" dt_day_name src))
    ∧ (∀ var, var ≠ time_var → lookup_column var df' = lookup_column var df1).
Proof.
  intros Hr _ Hsrc. rewrite (create_time_vars_run _ _ _ _ _ _ _ _ _ Hr).
  destruct (create_time_vars_body _ _ _ _ _ df) as [df4 [[]|e]] eqn:Hbody; [|done].
  apply (create_time_vars_body_shape _ _ _ _ _ src) in Hbody as ->; [|done].
  set (df4 := write_features _ _ _ _ src df).
  destruct (lookup_write_features (kwarg true year) (kwarg true month)
              (kwarg true day) (kwarg true season) src df)
    as (Hy & Hm & Hd & _).
  cbv zeta. destruct (kwarg true drop).
  - case_decide; [|done]. intros [= <- <-].
    assert (Hfresh : fresh (dom (<[r:=df4]> σ)) ≠ r).
    { intros Heq. apply (is_fresh (dom (<[r:=df4]> σ))). rewrite Heq.
      apply elem_of_dom. rewrite lookup_insert_eq. eauto. }
    exists df4, (filter (λ c, name c ≠ time_var) df4).
    split_and!; [|apply lookup_insert_eq|done..|].
    + rewrite lookup_insert_ne by done. apply lookup_insert_eq.
    + intros var Hne. by apply lookup_column_filter.
  - intros [= <- <-]. exists df4, df4.
    split_and!; [apply lookup_insert_eq|apply lookup_insert_eq|done..].
Qed.

Lemma create_time_vars_features_witness :
  ∃ (σ' : store) (df1 : DataFrame),
    σ' !! 1%positive = Some df1
    ∧ lookup_column "day" df1
      = Some (mkColumn "day" category [Str "Saturday"; Str "Friday"; NaN]).
Proof.
  pose (res := create_time_vars 1%positive "placed" None None None None None
                 orders_store).
  assert (Hres : res = (res.1, Ok 2%positive)) by (vm_compute; reflexivity).
  destruct (create_time_vars_features orders_store res.1 1%positive 2%positive
              orders "placed" None None None None None
              (mkColumn "placed" datetime
                 [Time (mkTimestamp 2023 Jul 15); Time (mkTimestamp 2023 Dec 1); NaN]))
    as (df1 & df' & H1 & _ & _ & _ & Hd & _);
    [reflexivity| |reflexivity|exact Hres|].
  { unfold unique_labels. vm_compute. repeat constructor; set_solver. }
  exists res.1, df1. split; [exact H1|]. rewrite Hd; reflexivity.
Defined.

Lemma assign_same var k vs df :
  lookup_column var df = Some (mkColumn var k vs) → assign var k vs df = df.
Proof.
  induction df as [|c df IH]; simpl; [done|].
  case_decide; [by intros [= ->]|]. intros Hlook. by rewrite IH.
Qed.

Lemma write_features_again (year month day season : bool) src df :
  write_features year month day season src
    (write_features year month day season src df)
  = write_features year month day season src df.
Proof.
  destruct (lookup_write_features year month day season src df)
    as (Hy & Hm & Hd & Hs).
  set (df4 := write_features year month day season src df) in *.
  assert (Hw : ∀ (b : bool) var f,
            (b = true → lookup_column var df4 = Some (feature_column var f src)) →
            write_feature b var f src df4 = df4).
  { intros [] var f Hlook; [|done]. simpl. apply assign_same. by apply Hlook. }
  unfold write_features at 1. by rewrite !Hw.
Qed.

(** X13.  With the drop switch off, calling [create_time_vars] a second
    time with the same arguments changes nothing: on a datetime column
    whose label is none of the labels the call writes, the second call
    succeeds and leaves the store and the reference as the first call left
    them. *)
Theorem create_time_vars_again (σ : store) (r : ref) (df : DataFrame)
    (time_var : string) (year month day season drop : option bool)
    (src : Column) :
  σ !! r = Some df →
  unique_labels df →
  lookup_column time_var df = Some src →
  kind src = datetime →
  time_var ∉ feature_labels (kwarg true year) (kwarg true month)
               (kwarg true day) (kwarg true season) →
  kwarg true drop = false →
  ∃ σ1,
    create_time_vars r time_var year month day season drop σ = (σ1, Ok r)
    ∧ create_time_vars r time_var year month day season drop σ1 = (σ1, Ok r).
Proof.
  intros Hr _ Hsrc Hk Hlabel Hdrop.
  destruct (create_time_vars_body_succeeds time_var _ _ _ _ src df Hsrc Hk Hlabel)
    as (df4 & Hbody & Hsrc4).
  destruct (create_time_vars_body_succeeds time_var _ _ _ _ src df4 Hsrc4 Hk Hlabel)
    as (df5 & Hbody' & _).
  pose proof (create_time_vars_body_shape _ _ _ _ _ _ _ _ Hsrc Hbody) as Hshape.
  pose proof (create_time_vars_body_shape _ _ _ _ _ _ _ _ Hsrc4 Hbody') as Hshape'.
  rewrite Hshape, write_features_again, <-Hshape in Hshape'. subst df5.
  exists (<[r := df4]> σ). split.
  - by rewrite (create_time_vars_run _ _ _ _ _ _ _ _ _ Hr), Hbody, Hdrop.
  - rewrite (create_time_vars_run _ r df4) by apply lookup_insert_eq.
    by rewrite Hbody', Hdrop, insert_insert_eq.
Qed.

Lemma create_time_vars_again_witness :
  ∃ σ1 : store,
    create_time_vars 1%positive "placed" None None None None (Some false)
      orders_store
    = (σ1, Ok 1%positive)
    ∧ create_time_vars 1%positive "placed" None None None None (Some false) σ1
      = (σ1, Ok 1%positive).
Proof.
  apply (create_time_vars_again orders_store 1%positive orders "placed"
           None None None None (Some false)
           (mkColumn "placed" datetime
              [Time (mkTimestamp 2023 Jul 15); Time (mkTimestamp 2023 Dec 1); NaN])).
  - reflexivity.
  - unfold unique_labels. vm_compute. repeat constructor; set_solver.
  - reflexivity.
  - reflexivity.
  - vm_compute. set_solver.
  - reflexivity.
Defined.

Lemma create_time_vars_raises_KeyError (σ : store) (r : ref) df time_var
    (year month day season drop : option bool) :
  σ !! r = Some df →
  time_var ∉ columns df →
  kwarg true year || kwarg true month || kwarg true day || kwarg true season
    || kwarg true drop = true →
  create_time_vars r time_var year month day season drop σ = (σ, Raise KeyError).
Proof.
  intros Hr Hno Hon. rewrite (create_time_vars_run _ _ _ _ _ _ _ _ _ Hr).
  rewrite create_time_vars_body_missing by by apply lookup_column_None.
  rewrite insert_id by done.
  destruct (kwarg true year || kwarg true month || kwarg true day
            || kwarg true season) eqn:Hany; [done|].
  simpl in Hon. rewrite Hon. cbv zeta. by rewrite decide_False.
Qed.

(** X14.  The dataset a call with the drop switch on returns cannot be fed
    back with the same label: the source column is gone, so a second call
    on it, with any switch on, raises KeyError and changes nothing. *)
Theorem create_time_vars_after_drop (σ σ1 : store) (r r1 : ref)
    (df : DataFrame) (time_var : string)
    (year month day season drop : option bool)
    (year' month' day' season' drop' : option bool) :
  σ !! r = Some df →
  unique_labels df →
  kwarg true drop = true →
  create_time_vars r time_var year month day season drop σ = (σ1, Ok r1) →
  kwarg true year' || kwarg true month' || kwarg true day'
    || kwarg true season' || kwarg true drop' = true →
  create_time_vars r1 time_var year' month' day' season' drop' σ1
  = (σ1, Raise KeyError).
Proof.
  intros Hr _ Hdrop. rewrite (create_time_vars_run _ _ _ _ _ _ _ _ _ Hr), Hdrop.
  destruct (create_time_vars_body _ _ _ _ _ df) as [df1 [[]|e]]; [|done].
  cbv zeta. case_decide; [|done]. intros [= <- <-] Hon.
  apply (create_time_vars_raises_KeyError _ _
           (filter (λ c, name c ≠ time_var) df1)); [apply lookup_insert_eq| |done].
  unfold columns. intros (c & Hn & [Hc _]%list_elem_of_filter)%list_elem_of_fmap.
  by apply Hc.
Qed.

Lemma create_time_vars_after_drop_witness :
  ∃ (σ1 : store) (r1 : ref),
    create_time_vars 1%positive "placed" None None None None None orders_store
    = (σ1, Ok r1)
    ∧ create_time_vars r1 "placed" None None None None None σ1
      = (σ1, Raise KeyError).
Proof.
  pose (res := create_time_vars 1%positive "placed" None None None None None
                 orders_store).
  assert (Hres : res = (res.1, Ok 2%positive)) by (vm_compute; reflexivity).
  exists res.1, 2%positive. split; [exact Hres|].
  apply (create_time_vars_after_drop orders_store res.1 1%positive 2%positive
           orders "placed" None None None None None None None None None None);
    [reflexivity| |reflexivity|exact Hres|reflexivity].
  unfold unique_labels. vm_compute. repeat constructor; set_solver.
Defined.

(** ** convert_to_categorical: kinds afterwards, running it twice, an
    unknown label *)

Lemma convert_to_categorical_run (σ : store) (r : ref) df
    (add_vars : option (list string)) :
  σ !! r = Some df →
  unique_labels df →
  default [] add_vars ⊆ columns df →
  convert_to_categorical r add_vars σ
  = (<[r := categorical_where
              (select_dtypes_exclude number df ++ default [] add_vars) df]> σ,
     Ok r).
Proof.
  intros Hr Hu Hsub. apply (in_place_run _ _ _ df); [done|].
  by apply convert_to_categorical_body_run.
Qed.

Lemma categorical_where_kinds df (add : list string) c' :
  unique_labels df →
  c' ∈ categorical_where (select_dtypes_exclude number df ++ add) df →
  ∃ c, c ∈ df ∧ name c' = name c ∧ values c' = values c
       ∧ ((kind c ≠ number ∨ name c ∈ add) ∧ kind c' = category
          ∨ (kind c = number ∧ name c ∉ add) ∧ c' = c).
Proof.
  intros Hu (c & -> & Hc)%list_elem_of_fmap. exists c.
  pose proof (selected_by_label df add c Hu Hc) as Hsel.
  case_decide as Hin; simpl; split_and!; try done.
  - left. tauto.
  - right. split; [|done]. destruct (decide (kind c = number)); tauto.
Qed.

(** X15.  After [convert_to_categorical] every column of the dataset is
    numeric or categorical: no text and no datetime column is left.  A
    numeric column that is not named in the extra list is untouched, so
    with no extra list the numeric columns are exactly those that were
    numeric before. *)
Theorem convert_to_categorical_leaves_two_kinds (σ : store) (r : ref)
    (df : DataFrame) (add_vars : option (list string)) :
  σ !! r = Some df →
  unique_labels df →
  default [] add_vars ⊆ columns df →
  ∃ df',
    convert_to_categorical r add_vars σ = (<[r := df']> σ, Ok r)
    ∧ Forall (λ c', kind c' = number ∨ kind c' = category) df'
    ∧ (∀ c, c ∈ df → kind c = number → name c ∉ default [] add_vars → c ∈ df')
    ∧ (default [] add_vars = [] →
       select_dtypes_include number df' = select_dtypes_include number df).
Proof.
  intros Hr Hu Hsub. eexists. split; [by apply convert_to_categorical_run|].
  set (add := default [] add_vars). split_and!.
  - apply Forall_forall. intros c' Hc'.
    apply categorical_where_kinds in Hc'
      as (c & Hc & _ & _ & [[_ Hk]|[[Hk _] ->]]); auto.
  - intros c Hc Hk Hadd. unfold categorical_where.
    apply list_elem_of_fmap. exists c. split; [|done].
    rewrite decide_False; [done|].
    rewrite (selected_by_label df add c Hu Hc). tauto.
  - intros ->. rewrite app_nil_r. unfold select_dtypes_include, categorical_where.
    rewrite (filter_fmap _ (λ c, kind c = number)).
    unfold columns. rewrite <-list_fmap_compose.
    erewrite (filter_ext_elem _ (λ c, kind c = number)).
    + apply list_fmap_ext. intros _ c _. simpl. by case_decide.
    + intros c Hc. pose proof (selected_by_label df [] c Hu Hc) as Hsel.
      rewrite app_nil_r in Hsel. case_decide as Hin; simpl.
      * split; [done|]. intros Hk. apply Hsel in Hin as [?|?%elem_of_nil]; done.
      * split; [done|]. intros _. destruct (decide (kind c = number)); [done|].
        destruct Hin. apply Hsel. by left.
Qed.

Lemma convert_to_categorical_leaves_two_kinds_witness :
  ∃ df',
    convert_to_categorical 1%positive None ledger_store
    = (<[1%positive := df']> ledger_store, Ok 1%positive)
    ∧ select_dtypes_include number df' = ["sum"; "tier"].
Proof.
  destruct (convert_to_categorical_leaves_two_kinds ledger_store 1%positive
              ledger None) as (df' & Hrun & _ & _ & Hnum).
  - reflexivity.
  - unfold unique_labels. vm_compute. repeat constructor; set_solver.
  - simpl. set_solver.
  - exists df'. split; [exact Hrun|]. rewrite Hnum; reflexivity.
Defined.

Lemma as_category_id c : kind c = category → as_category c = c.
Proof. destruct c as [n k vs]. simpl. by intros ->. Qed.

Lemma categorical_where_id vars df :
  (∀ c, c ∈ df → name c ∈ vars → kind c = category) →
  categorical_where vars df = df.
Proof.
  intros Hcat. unfold categorical_where.
  etrans; [|apply list_fmap_id]. apply list_fmap_ext.
  intros _ c Hc%list_elem_of_lookup_2. simpl.
  case_decide; [|done]. by apply as_category_id, Hcat.
Qed.

(** X16.  [convert_to_categorical] with the same extra list a second time
    changes nothing: the first call leaves no column that the second one
    would select and that is not categorical already. *)
Theorem convert_to_categorical_again (σ : store) (r : ref)
    (df : DataFrame) (add_vars : option (list string)) :
  σ !! r = Some df →
  unique_labels df →
  default [] add_vars ⊆ columns df →
  ∃ σ',
    convert_to_categorical r add_vars σ = (σ', Ok r)
    ∧ convert_to_categorical r add_vars σ' = (σ', Ok r).
Proof.
  intros Hr Hu Hsub. set (add := default [] add_vars).
  set (df1 := categorical_where (select_dtypes_exclude number df ++ add) df).
  exists (<[r := df1]> σ).
  split; [by apply convert_to_categorical_run|].
  assert (Hu1 : unique_labels df1)
    by (unfold unique_labels, df1; by rewrite columns_categorical_where).
  rewrite (convert_to_categorical_run (<[r := df1]> σ) r df1).
  - rewrite insert_insert_eq. do 2 f_equal.
    apply categorical_where_id. intros c' Hc' Hin.
    apply (selected_by_label df1 add c' Hu1 Hc') in Hin.
    destruct (categorical_where_kinds df add c' Hu Hc')
      as (c & Hc & Hname & _ & [[_ Hk]|[[Hk Hadd] ->]]); [done|].
    destruct Hin; done.
  - by rewrite lookup_insert_eq.
  - done.
  - unfold df1. by rewrite columns_categorical_where.
Qed.

Lemma convert_to_categorical_again_witness :
  ∃ σ' : store,
    convert_to_categorical 1%positive (Some ["tier"]) ledger_store
    = (σ', Ok 1%positive)
    ∧ convert_to_categorical 1%positive (Some ["tier"]) σ' = (σ', Ok 1%positive).
Proof.
  apply (convert_to_categorical_again ledger_store 1%positive ledger).
  - reflexivity.
  - unfold unique_labels. vm_compute. repeat constructor; set_solver.
  - simpl. set_solver.
Defined.

Lemma for_each_app {A} (xs ys : list A) (body : A → D unit) df df' :
  for_each xs body df = (df', Ok tt) →
  for_each (xs ++ ys) body df = for_each ys body df'.
Proof.
  revert df. induction xs as [|x xs IH]; intros df Hrun; simpl in *.
  - unfold mret, D_ret in Hrun. by simplify_eq.
  - apply D_bind_inv in Hrun as (df1 & a & Hx & Hrest).
    erewrite D_bind_ok; [|exact Hx]. by apply IH.
Qed.

Lemma convert_column_missing var df :
  var ∉ columns df → convert_column var df = (df, Raise KeyError).
Proof.
  intros Hvar%lookup_column_None. unfold convert_column.
  erewrite D_bind_raise; [done|]. by rewrite getitem_lookup, Hvar.
Qed.

(** X17.  A label in the extra list of [convert_to_categorical] that is
    not a column raises [KeyError], but only when the loop reaches it: by
    then the caller's dataset has its non-numeric columns and the columns
    named before the unknown label converted, and it stays that way. *)
Theorem convert_to_categorical_unknown_label (σ : store) (r : ref)
    (df : DataFrame) (known : list string) (bad : string) (rest : list string) :
  σ !! r = Some df →
  unique_labels df →
  known ⊆ columns df →
  bad ∉ columns df →
  convert_to_categorical r (Some (known ++ bad :: rest)) σ
  = (<[r := categorical_where (select_dtypes_exclude number df ++ known) df]> σ,
     Raise KeyError).
Proof.
  intros Hr Hu Hknown Hbad. unfold convert_to_categorical.
  assert (Hbody : convert_to_categorical_body (Some (known ++ bad :: rest)) df
            = (categorical_where (select_dtypes_exclude number df ++ known) df,
               Raise KeyError)).
  { unfold convert_to_categorical_body. cbn [default].
    erewrite D_bind_ok; [|reflexivity].
    unfold id. rewrite decide_True by (rewrite length_app; simpl; lia).
    change (λ var, c ← getitem var; setitem var category (values c))
      with convert_column.
    rewrite (assoc_L (++)).
    erewrite for_each_app; cycle 1.
    { apply for_each_convert; [done|].
      intros x [Hx|Hx]%elem_of_app; [|by apply Hknown].
      unfold select_dtypes_exclude in Hx.
      apply list_elem_of_fmap in Hx as (c & -> & [_ Hc]%list_elem_of_filter).
      apply list_elem_of_fmap. by exists c. }
    simpl. erewrite D_bind_raise; [done|].
    apply convert_column_missing. by rewrite columns_categorical_where. }
  unfold mbind, M_bind. rewrite (on_object_run r _ σ df Hr), Hbody. done.
Qed.

Lemma convert_to_categorical_unknown_label_witness :
  ∃ df' : DataFrame,
    convert_to_categorical 1%positive (Some ["tier"; "total"; "sum"]) ledger_store
    = (<[1%positive := df']> ledger_store, Raise KeyError)
    ∧ kind <$> df' = [category; category; number; category].
Proof.
  eexists. split.
  - apply (convert_to_categorical_unknown_label ledger_store 1%positive ledger
             ["tier"] "total" ["sum"]).
    + reflexivity.
    + unfold unique_labels. vm_compute. repeat constructor; set_solver.
    + simpl. set_solver.
    + simpl. set_solver.
  - reflexivity.
Defined.

(** ** label_encode: nothing to encode, running it twice, columns of
    mixed types, and what the codes are *)

Lemma label_encode_run (σ : store) (r : ref) df (exclude_list : option (list string)) :
  σ !! r = Some df →
  unique_labels df →
  (∀ c, c ∈ df → encodable (default [] exclude_list) c → one_type c) →
  label_encode r exclude_list σ
  = (<[r := encoded_where
              (filter (λ x, x ∉ default [] exclude_list)
                 (select_dtypes_include category df)) df]> σ,
     Ok r).
Proof.
  intros Hr Hu Hone. apply (in_place_run _ _ _ df); [done|].
  by apply label_encode_body_run.
Qed.

(** The dataset after a call that returns, column by column. *)
Lemma encoded_columns df (ex : list string) :
  unique_labels df →
  Forall2 (λ c c', (encodable ex c ∧ c' = encode_column c)
                   ∨ (¬ encodable ex c ∧ c' = c))
    df
    (encoded_where (filter (λ x, x ∉ ex) (select_dtypes_include category df)) df).
Proof.
  intros Hu. unfold encoded_where. apply Forall2_fmap_r, Forall_Forall2_diag.
  apply Forall_forall. intros c Hc. unfold compose. cbv beta.
  pose proof (vars_to_encode_elem df ex c Hu Hc) as Hvars.
  case_decide as Hdec; [left|right]; (split; [|done]); unfold encodable; tauto.
Qed.

Lemma Forall2_fmap_id {A} (R : A → A → Prop) (l l' : list A) :
  Forall2 R l l' → (∀ x y, x ∈ l → R x y → y = x) → l' = l.
Proof.
  induction 1 as [|x y l l' HR _ IH]; intros Hid; [done|].
  f_equal.
  - apply Hid; [apply list_elem_of_here|done].
  - apply IH. intros ? ? ?. apply Hid. by apply list_elem_of_further.
Qed.

Lemma one_type_unique c :
  same_type (unique (filter (λ v, v ≠ NaN) (values c))) = true → one_type c.
Proof.
  unfold one_type. intros Hsame v w Hv Hw Hnv Hnw.
  set (U := unique (filter (λ v, v ≠ NaN) (values c))) in *.
  assert (Hv' : v ∈ U) by (apply elem_of_unique; by apply list_elem_of_filter).
  assert (Hw' : w ∈ U) by (apply elem_of_unique; by apply list_elem_of_filter).
  destruct U as [|u l]; [by apply elem_of_nil in Hv'|].
  simpl in Hsame. rewrite forallb_forall in Hsame.
  assert (Htag : ∀ x, x ∈ u :: l → type_tag x = type_tag u).
  { intros x [->|Hx]%elem_of_cons; [done|].
    apply Nat.eqb_eq, Hsame. by apply list_elem_of_In. }
  by rewrite (Htag v), (Htag w).
Qed.

Lemma fit_mixed c df :
  ¬ one_type c → fit (values c) df = (df, Raise TypeError).
Proof.
  intros Hmixed. unfold fit.
  destruct (same_type (unique (filter (λ v, v ≠ NaN) (values c)))) eqn:Hsame;
    [|done].
  by apply one_type_unique in Hsame.
Qed.

Lemma one_type_or_not c : one_type c ∨ ¬ one_type c.
Proof.
  destruct (same_type (unique (filter (λ v, v ≠ NaN) (values c)))) eqn:Hsame.
  - left. by apply one_type_unique.
  - right. intros Hone. pose proof (fit_one_type c [] Hone) as Hfit.
    unfold fit in Hfit. by rewrite Hsame in Hfit.
Qed.

Lemma encode_if_low_raises df c :
  unique_labels df →
  c ∈ df →
  low_cardinality c →
  ¬ one_type c →
  encode_if_low (name c) df = (df, Raise TypeError).
Proof.
  intros Hu Hc Hlow Hmixed. unfold encode_if_low.
  erewrite D_bind_ok; [|by apply getitem_elem].
  rewrite decide_True by (by rewrite length_unique).
  erewrite D_bind_ok; [|by apply getitem_elem].
  erewrite D_bind_raise; [done|].
  unfold fit_transform. erewrite D_bind_raise; [done|]. by apply fit_mixed.
Qed.

Lemma for_each_encode_raises (pre post : list string) c df :
  unique_labels df →
  NoDup (pre ++ name c :: post) →
  pre ⊆ columns df →
  (∀ c', c' ∈ df → name c' ∈ pre → low_cardinality c' → one_type c') →
  c ∈ df →
  low_cardinality c →
  ¬ one_type c →
  for_each (pre ++ name c :: post) encode_if_low df
  = (encoded_where pre df, Raise TypeError).
Proof.
  intros Hu Hnd Hpre Hgood Hc Hlow Hmixed.
  apply NoDup_app in Hnd as (Hndpre & Hdisj & _).
  erewrite for_each_app; [|by apply for_each_encode].
  simpl. erewrite D_bind_raise; [done|].
  apply encode_if_low_raises; [|
    |done..].
  - unfold unique_labels. by rewrite columns_encoded_where.
  - unfold encoded_where. apply list_elem_of_fmap. exists c. split; [|done].
    rewrite decide_False; [done|]. intros [Hin _].
    apply (Hdisj _ Hin), list_elem_of_here.
Qed.

(** The first column of mixed types among the labels the loop visits. *)
Lemma first_mixed (vars : list string) df c :
  unique_labels df →
  vars ⊆ columns df →
  c ∈ df → name c ∈ vars → low_cardinality c → ¬ one_type c →
  ∃ pre c0 post,
    vars = pre ++ name c0 :: post
    ∧ c0 ∈ df ∧ low_cardinality c0 ∧ ¬ one_type c0
    ∧ ∀ c', c' ∈ df → name c' ∈ pre → low_cardinality c' → one_type c'.
Proof.
  intros Hu. induction vars as [|x vars IH]; intros Hsub Hc Hin Hlow Hmixed.
  { by apply elem_of_nil in Hin. }
  assert (Hx : x ∈ columns df) by apply Hsub, list_elem_of_here.
  apply list_elem_of_fmap in Hx as (cx & -> & Hcx).
  destruct (decide (low_cardinality cx)) as [Hlx|Hlx]; cycle 1.
  - destruct IH as (pre & c0 & post & -> & ? & ? & ? & Hgood); [..|done|done|].
    { intros y Hy. apply Hsub. by apply list_elem_of_further. }
    { done. }
    { apply elem_of_cons in Hin as [Heq|]; [|done].
      by rewrite (unique_labels_inj df c cx Hu Hc Hcx Heq) in Hlow. }
    exists (name cx :: pre), c0, post. split_and!; try done.
    intros c' Hc' [Heq|Hin']%elem_of_cons Hl'; [|by apply Hgood].
    by rewrite (unique_labels_inj df c' cx Hu Hc' Hcx Heq) in Hl'.
  - destruct (one_type_or_not cx) as [Hox|Hox]; cycle 1.
    { exists [], cx, vars. split_and!; try done. intros c' _ Hc'. by apply elem_of_nil in Hc'. }
    destruct IH as (pre & c0 & post & -> & ? & ? & ? & Hgood); [..|done|done|].
    { intros y Hy. apply Hsub. by apply list_elem_of_further. }
    { done. }
    { apply elem_of_cons in Hin as [Heq|]; [|done].
      by rewrite (unique_labels_inj df c cx Hu Hc Hcx Heq) in Hmixed. }
    exists (name cx :: pre), c0, post. split_and!; try done.
    intros c' Hc' [Heq|Hin']%elem_of_cons Hl'; [|by apply Hgood].
    by rewrite (unique_labels_inj df c' cx Hu Hc' Hcx Heq).
Qed.

Lemma vars_to_encode_NoDup df (ex : list string) :
  unique_labels df →
  NoDup (filter (λ x, x ∉ ex) (select_dtypes_include category df)).
Proof.
  intros Hu. apply NoDup_filter. unfold select_dtypes_include.
  eapply sublist_NoDup; [exact Hu|].
  unfold columns. apply fmap_sublist, sublist_filter.
Qed.

Lemma vars_to_encode_columns df (ex : list string) :
  filter (λ x, x ∉ ex) (select_dtypes_include category df) ⊆ columns df.
Proof.
  intros x [_ Hx]%list_elem_of_filter. unfold select_dtypes_include in Hx.
  apply list_elem_of_fmap in Hx as (c & -> & [_ Hc]%list_elem_of_filter).
  apply list_elem_of_fmap. by exists c.
Qed.

Lemma label_encode_raises (σ : store) (r : ref) df
    (exclude_list : option (list string)) c :
  σ !! r = Some df →
  unique_labels df →
  c ∈ df →
  encodable (default [] exclude_list) c →
  ¬ one_type c →
  ∃ pre,
    label_encode r exclude_list σ
    = (<[r := encoded_where pre df]> σ, Raise TypeError)
    ∧ (∀ x, x ∈ pre →
         x ∈ filter (λ x, x ∉ default [] exclude_list)
               (select_dtypes_include category df))
    ∧ (∀ c', c' ∈ df → name c' ∈ pre → low_cardinality c' → one_type c').
Proof.
  intros Hr Hu Hc Henc Hmixed. set (ex := default [] exclude_list) in *.
  set (vars := filter (λ x, x ∉ ex) (select_dtypes_include category df)).
  destruct (first_mixed vars df c) as (pre & c0 & post & Hvars & Hc0 & Hl0 & Hm0 & Hgood);
    try done.
  { apply vars_to_encode_columns. }
  { apply vars_to_encode_elem; [done..|]. destruct Henc as (? & ? & ?). done. }
  { by destruct Henc as (? & ? & ?). }
  exists pre. split_and!; [|by intros x Hx; rewrite Hvars; apply elem_of_app; left|done].
  assert (Hbody : label_encode_body exclude_list df
                  = (encoded_where pre df, Raise TypeError)).
  { unfold label_encode_body. erewrite D_bind_ok; [|reflexivity].
    fold ex. fold vars. rewrite Hvars.
    apply (for_each_encode_raises pre post c0 df); try done.
    - rewrite <-Hvars. by apply vars_to_encode_NoDup.
    - intros x Hx. apply (vars_to_encode_columns df ex). fold vars.
      rewrite Hvars. apply elem_of_app. by left. }
  unfold label_encode, mbind, M_bind.
  rewrite (on_object_run r _ σ df Hr), Hbody. done.
Qed.

Lemma encodable_or_not (ex : list string) c : encodable ex c ∨ ¬ encodable ex c.
Proof.
  unfold encodable.
  destruct (decide (kind c = category)); [|right; tauto].
  destruct (decide (name c ∈ ex)); [right; tauto|].
  destruct (decide (low_cardinality c)); [left|right]; tauto.
Qed.

Lemma mixed_or_not (ex : list string) (l : list Column) :
  (∃ c, c ∈ l ∧ encodable ex c ∧ ¬ one_type c)
  ∨ (∀ c, c ∈ l → encodable ex c → one_type c).
Proof.
  induction l as [|x l [(c & Hc & ?)|IH]].
  - right. intros c Hc. by apply elem_of_nil in Hc.
  - left. exists c. split; [by apply list_elem_of_further|done].
  - destruct (encodable_or_not ex x) as [Henc|Hnot].
    + destruct (one_type_or_not x) as [Hone|Hmixed].
      * right. intros c [->|Hc]%elem_of_cons; [done|by apply IH].
      * left. exists x. split; [apply list_elem_of_here|done].
    + right. intros c [->|Hc]%elem_of_cons; [done|by apply IH].
Qed.

Lemma label_encode_unchanged (σ : store) (r : ref) df
    (exclude_list : option (list string)) :
  σ !! r = Some df →
  unique_labels df →
  (∀ c, c ∈ df → ¬ encodable (default [] exclude_list) c) →
  label_encode r exclude_list σ = (σ, Ok r).
Proof.
  intros Hr Hu Hnone. rewrite (label_encode_run σ r df); [|done..|]; cycle 1.
  { intros c Hc Henc. by destruct (Hnone c Hc). }
  rewrite (Forall2_fmap_id _ _ _ (encoded_columns df _ Hu)).
  - by rewrite (insert_id σ r df Hr).
  - intros c c' Hc [[Henc _]|[_ ->]]; [|done]. by destruct (Hnone c Hc).
Qed.

(** X18.  [label_encode] hands the dataset back untouched exactly when it
    has no column to encode, that is no categorical column outside the
    exclusion list with at most two distinct values.  In that case the
    encoder is never run, so columns of mixed types raise nothing. *)
Theorem label_encode_nothing_to_encode (σ : store) (r : ref) (df : DataFrame)
    (exclude_list : option (list string)) :
  σ !! r = Some df →
  unique_labels df →
  label_encode r exclude_list σ = (σ, Ok r)
  ↔ ∀ c, c ∈ df → ¬ encodable (default [] exclude_list) c.
Proof.
  intros Hr Hu. split; [|by apply label_encode_unchanged].
  intros Hrun c Hc Henc.
  destruct (mixed_or_not (default [] exclude_list) df)
    as [(c0 & Hc0 & Henc0 & Hmixed)|Hone].
  - destruct (label_encode_raises σ r df exclude_list c0) as (pre & Hraise & _);
      [done..|].
    rewrite Hraise in Hrun. done.
  - rewrite (label_encode_run σ r df) in Hrun by done.
    assert (Hdf : (<[r := encoded_where
                     (filter (λ x, x ∉ default [] exclude_list)
                        (select_dtypes_include category df)) df]> σ) !! r
                  = Some df).
    { injection Hrun as Hrun. by rewrite Hrun. }
    rewrite lookup_insert_eq in Hdf.
    apply list_elem_of_lookup in Hc as [i Hi].
    pose proof (encoded_columns df (default [] exclude_list) Hu) as Hcols.
    assert (Hi' : encoded_where
                    (filter (λ x, x ∉ default [] exclude_list)
                       (select_dtypes_include category df)) df !! i = Some c)
      by (injection Hdf as Hdf; by rewrite Hdf).
    destruct (Forall2_lookup_lr _ _ _ _ _ _ Hcols Hi Hi') as [[_ Heq]|[Hnot _]];
      [|done].
    destruct Henc as (Hk & _). rewrite Heq in Hk. done.
Qed.

Lemma label_encode_nothing_to_encode_witness :
  label_encode 1%positive None ledger_store = (ledger_store, Ok 1%positive)
  ∧ label_encode 1%positive None survey_store ≠ (survey_store, Ok 1%positive).
Proof.
  split.
  - apply (label_encode_nothing_to_encode ledger_store 1%positive ledger None).
    + reflexivity.
    + unfold unique_labels. vm_compute. repeat constructor; set_solver.
    + intros c Hc (Hk & _). revert Hk.
      repeat (apply elem_of_cons in Hc as [->|Hc]; [done|]).
      by apply elem_of_nil in Hc.
  - intros Hrun.
    assert (Hu : unique_labels survey)
      by (unfold unique_labels; vm_compute; repeat constructor; set_solver).
    pose proof (proj1 (label_encode_nothing_to_encode survey_store 1%positive
                         survey None eq_refl Hu) Hrun) as Hnone.
    apply (Hnone (mkColumn "answer" category
                    [Str "yes"; Str "no"; Str "yes"; Str "yes"])).
    + apply list_elem_of_here.
    + unfold encodable, low_cardinality. simpl.
      split_and!; [done|set_solver|]. vm_compute. lia.
Defined.

(** X19.  A second [label_encode] with the same exclusion list changes
    nothing: the columns the first call encoded are numeric afterwards, so
    the second call does not select them. *)
Theorem label_encode_again (σ : store) (r : ref) (df : DataFrame)
    (exclude_list : option (list string)) :
  σ !! r = Some df →
  unique_labels df →
  (∀ c, c ∈ df → encodable (default [] exclude_list) c → one_type c) →
  ∃ σ',
    label_encode r exclude_list σ = (σ', Ok r)
    ∧ label_encode r exclude_list σ' = (σ', Ok r).
Proof.
  intros Hr Hu Hone. eexists. split; [by apply label_encode_run|].
  set (df1 := encoded_where _ df).
  apply (label_encode_unchanged _ r df1).
  - by rewrite lookup_insert_eq.
  - unfold unique_labels, df1. by rewrite columns_encoded_where.
  - intros c' Hc' Henc'. apply list_elem_of_lookup in Hc' as [i Hi].
    pose proof (encoded_columns df (default [] exclude_list) Hu) as Hcols.
    destruct (Forall2_lookup_r _ _ _ _ _ Hcols Hi)
      as (c & _ & [[_ ->]|[Hnot ->]]); [|done].
    by destruct Henc' as (Hk & _).
Qed.

Lemma label_encode_again_witness :
  ∃ σ' : store,
    label_encode 1%positive (Some ["flag"]) survey_store = (σ', Ok 1%positive)
    ∧ label_encode 1%positive (Some ["flag"]) σ' = (σ', Ok 1%positive).
Proof.
  apply (label_encode_again survey_store 1%positive survey (Some ["flag"])).
  - reflexivity.
  - unfold unique_labels. vm_compute. repeat constructor; set_solver.
  - intros c Hc _. apply one_type_check. revert Hc.
    repeat (intros [->|Hc]%elem_of_cons; [reflexivity|revert Hc]).
    by intros ?%elem_of_nil.
Defined.

Lemma encode_column_binary c :
  low_cardinality c →
  Forall (λ v, v = Num 0 ∨ v = Num 1) (values (encode_column c)).
Proof.
  intros Hlow. unfold encode_column. cbn [values].
  apply Forall_fmap, Forall_forall. intros v Hv. unfold compose.
  destruct (transform_has_code (classes_of (values c)) v) as (i & Hi & ->).
  { by apply classes_of_elem. }
  apply lookup_lt_Some in Hi.
  pose proof (classes_of_length (values c)) as Hlen.
  rewrite length_unique in Hlen. unfold low_cardinality in Hlow.
  assert (i = 0 ∨ i = 1)%nat as [-> | ->] by lia; auto.
Qed.

(** X20.  The codes [label_encode] writes are 0 and 1 only: an encoded
    column is numeric, has no missing cell and no negative one, so a
    [check_negative] that follows lists it with the flag [false]. *)
Theorem label_encode_then_check_negative (σ : store) (r : ref) (df : DataFrame)
    (exclude_list : option (list string)) :
  σ !! r = Some df →
  unique_labels df →
  (∀ c, c ∈ df → encodable (default [] exclude_list) c → one_type c) →
  ∃ df' report,
    (r1 ← label_encode r exclude_list; check_negative r1 None) σ
    = (<[r := df']> σ, Ok report)
    ∧ ∀ c, c ∈ df → encodable (default [] exclude_list) c →
        ∃ c', c' ∈ df' ∧ name c' = name c ∧ kind c' = number
              ∧ Forall (λ v, v = Num 0 ∨ v = Num 1) (values c')
              ∧ (name c, false) ∈ report.
Proof.
  intros Hr Hu Hone. set (ex := default [] exclude_list) in *.
  set (df1 := encoded_where
                (filter (λ x, x ∉ ex) (select_dtypes_include category df)) df).
  assert (Hu1 : unique_labels df1)
    by (unfold unique_labels, df1; by rewrite columns_encoded_where).
  eexists df1, _. split.
  { unfold mbind at 1. unfold M_bind.
    rewrite (label_encode_run σ r df) by done. fold ex df1.
    apply (check_negative_run _ r df1); [by rewrite lookup_insert_eq|done]. }
  intros c Hc Henc. exists (encode_column c).
  assert (Hc1 : encode_column c ∈ df1).
  { apply list_elem_of_lookup in Hc as [i Hi].
    destruct (Forall2_lookup_l _ _ _ _ _ (encoded_columns df ex Hu) Hi)
      as (c' & Hi' & [[_ ->]|[Hnot _]]); [|done].
    by apply list_elem_of_lookup_2 in Hi'. }
  pose proof (encode_column_binary c) as Hbin.
  destruct Henc as (_ & _ & Hlow). specialize (Hbin Hlow).
  split_and!; [done..|].
  change (name c) with (name (encode_column c)).
  apply (report_row df1 [] (encode_column c) false Hu1 Hc1).
  split_and!; [done|apply not_elem_of_nil|].
  symmetry. apply not_true_is_false. intros (v & Hv%list_elem_of_In & Hneg)%existsb_exists.
  rewrite Forall_forall in Hbin. by destruct (Hbin v Hv) as [-> | ->].
Qed.

Lemma label_encode_then_check_negative_witness :
  ∃ (df' : DataFrame) (report : Report),
    (r1 ← label_encode 1%positive (Some ["flag"]); check_negative r1 None)
      survey_store
    = (<[1%positive := df']> survey_store, Ok report)
    ∧ ("opt", false) ∈ report.
Proof.
  destruct (label_encode_then_check_negative survey_store 1%positive survey
              (Some ["flag"])) as (df' & report & Hrun & Hcols).
  - reflexivity.
  - unfold unique_labels. vm_compute. repeat constructor; set_solver.
  - intros c Hc _. apply one_type_check. revert Hc.
    repeat (intros [->|Hc]%elem_of_cons; [reflexivity|revert Hc]).
    by intros ?%elem_of_nil.
  - exists df', report. split; [exact Hrun|].
    destruct (Hcols (mkColumn "opt" category [Str "x"; NaN; Str "x"; NaN]))
      as (c' & _ & _ & _ & _ & Hrow); [| |exact Hrow].
    + unfold survey. set_solver.
    + unfold encodable, low_cardinality. simpl. split_and!; [done|set_solver|].
      vm_compute. lia.
Defined.

Lemma encode_column_encodes c :
  low_cardinality c → encodes c (encode_column c).
Proof.
  intros Hlow. split_and!; [done..|]. by apply encode_column_codes.
Qed.

Lemma encoded_where_outside (vars : list string) (l : DataFrame) :
  (∀ c, c ∈ l → name c ∉ vars) → encoded_where vars l = l.
Proof.
  intros Hout. unfold encoded_where. etrans; [|apply list_fmap_id].
  apply list_fmap_ext. intros _ c Hc%list_elem_of_lookup_2. simpl.
  rewrite decide_False; [done|]. intros [Hin _]. by apply (Hout c Hc).
Qed.

(** X21.  [label_encode] visits the columns in dataset order.  When the
    first column to encode that holds values of different types (text and
    a number, say) is reached, the call raises [TypeError]: every column
    to encode that stands before it is encoded by then and stays so in the
    caller's dataset, while that column and every column after it are as
    they were. *)
Theorem label_encode_mixed_types (σ : store) (r : ref)
    (before after : DataFrame) (c0 : Column)
    (exclude_list : option (list string)) :
  let ex := default [] exclude_list in
  σ !! r = Some (before ++ c0 :: after) →
  unique_labels (before ++ c0 :: after) →
  encodable ex c0 →
  ¬ one_type c0 →
  (∀ c, c ∈ before → encodable ex c → one_type c) →
  ∃ before',
    label_encode r exclude_list σ
    = (<[r := before' ++ c0 :: after]> σ, Raise TypeError)
    ∧ Forall2 (λ c c', (encodable ex c → encodes c c')
                       ∧ (¬ encodable ex c → c' = c)) before before'.
Proof.
  intros ex Hr Hu (Hk0 & Hex0 & Hlow0) Hmixed Hgood.
  set (df := before ++ c0 :: after) in *.
  set (sel := λ l : DataFrame,
         filter (λ x, x ∉ ex) (select_dtypes_include category l)).
  set (pre := sel before).
  assert (Hvars : sel df = pre ++ name c0 :: sel after).
  { unfold sel, pre, df, select_dtypes_include, columns.
    rewrite filter_app, fmap_app, filter_app.
    rewrite (filter_cons_True (λ c, kind c = category)) by done.
    rewrite fmap_cons.
    by rewrite (filter_cons_True (λ x, x ∉ ex)) by done. }
  assert (Hub : unique_labels before).
  { unfold unique_labels, df, columns in *. rewrite fmap_app in Hu.
    by apply NoDup_app in Hu as (? & _ & _). }
  assert (Hpre : ∀ c, c ∈ before → name c ∈ pre ↔ kind c = category ∧ name c ∉ ex).
  { intros c Hc. by apply vars_to_encode_elem. }
  assert (Hin_before : ∀ c, c ∈ df → name c ∈ pre → c ∈ before).
  { intros c Hc [_ Hsel]%list_elem_of_filter.
    unfold select_dtypes_include in Hsel.
    apply list_elem_of_fmap in Hsel as (cb & Heq & [_ Hcb]%list_elem_of_filter).
    assert (c = cb) as ->; [|done].
    apply (unique_labels_inj df); [done..| |done].
    unfold df. apply elem_of_app. by left. }
  assert (Hc0 : c0 ∈ df) by (unfold df; set_solver).
  assert (Hnd : NoDup (pre ++ name c0 :: sel after)).
  { rewrite <-Hvars. by apply vars_to_encode_NoDup. }
  assert (Hbody : label_encode_body exclude_list df
                  = (encoded_where pre df, Raise TypeError)).
  { unfold label_encode_body. erewrite D_bind_ok; [|reflexivity].
    fold ex. change (filter (λ x, x ∉ ex) (select_dtypes_include category df))
      with (sel df). rewrite Hvars.
    apply (for_each_encode_raises pre (sel after) c0 df); try done.
    - intros x Hx. apply (vars_to_encode_columns df ex).
      change (x ∈ sel df). rewrite Hvars. apply elem_of_app. by left.
    - intros c Hc Hin Hlow. apply Hgood; [by apply Hin_before|].
      apply Hpre in Hin as [? ?]; [done|by apply Hin_before]. }
  exists (encoded_where pre before). split.
  - unfold label_encode, mbind, M_bind.
    rewrite (on_object_run r _ σ df Hr), Hbody. cbn [fst snd].
    do 3 f_equal. unfold df.
    change (encoded_where pre (before ++ c0 :: after))
      with ((λ c, if decide (name c ∈ pre ∧ low_cardinality c)
                  then encode_column c else c) <$> (before ++ c0 :: after)).
    rewrite fmap_app, fmap_cons.
    apply NoDup_app in Hnd as (_ & Hdisj & Hnd').
    apply NoDup_cons in Hnd' as [_ _].
    rewrite decide_False; cycle 1.
    { intros [Hin _]. apply (Hdisj _ Hin), list_elem_of_here. }
    f_equal. f_equal. apply (encoded_where_outside pre after).
    intros c Hc Hin.
    assert (Hcdf : c ∈ df) by (unfold df; set_solver).
    pose proof (Hin_before c Hcdf Hin) as Hcb.
    unfold unique_labels, df, columns in Hu. rewrite fmap_app, fmap_cons in Hu.
    apply NoDup_app in Hu as (_ & Hsep & _).
    apply (Hsep (name c)); [by apply list_elem_of_fmap_2|].
    apply list_elem_of_further. by apply list_elem_of_fmap_2.
  - unfold encoded_where. apply Forall2_fmap_r, Forall_Forall2_diag.
    apply Forall_forall. intros c Hc. unfold compose. cbv beta.
    pose proof (Hpre c Hc) as Hiff. unfold encodable.
    case_decide as Hdec.
    + split; [|tauto]. intros _. apply encode_column_encodes. tauto.
    + split; [|done]. intros (? & ? & ?). tauto.
Qed.

Lemma label_encode_mixed_types_witness :
  ∃ before' : DataFrame,
    label_encode 1%positive None mixed_store
    = (<[1%positive := before' ++ [ mkColumn "mix" category [Str "a"; Num 1];
                                    mkColumn "late" category [Str "y"; Str "n"] ]]>
         mixed_store,
       Raise TypeError)
    ∧ kind <$> before' = [number].
Proof.
  destruct (label_encode_mixed_types mixed_store 1%positive
              [mkColumn "code" category [Str "b"; Str "a"]]
              [mkColumn "late" category [Str "y"; Str "n"]]
              (mkColumn "mix" category [Str "a"; Num 1]) None)
    as (before' & Hrun & Hcols).
  - reflexivity.
  - unfold unique_labels. vm_compute. repeat constructor; set_solver.
  - unfold encodable, low_cardinality. simpl. split_and!; [done|set_solver|].
    vm_compute. lia.
  - intros Hone.
    specialize (Hone (Str "a") (Num 1)). simpl in Hone.
    discriminate Hone; [set_solver|set_solver|done|done].
  - intros c ->%list_elem_of_singleton _. by apply one_type_check.
  - exists before'. split; [exact Hrun|].
    apply Forall2_cons_inv_l in Hcols as (c1 & l1 & (H1 & _) & Hcols & ->).
    apply Forall2_nil_inv_l in Hcols as ->.
    destruct H1 as (_ & Hk & _); [|by rewrite fmap_cons, Hk].
    unfold encodable, low_cardinality. simpl. split_and!; [done|set_solver|].
    vm_compute. lia.
Defined.

(** ** The functions one after another *)

(** What [encodes] says of a column with the two values [a] before [b]. *)
Lemma encodes_two_values a b c c' :
  values c = [a; b] →
  value_le a b →
  ¬ value_le b a →
  encodes c c' →
  values c' = [Num 0; Num 1].
Proof.
  intros Hvs Hab Hba (_ & _ & classes & Hsorted & Hnd & Helem & Hcodes).
  rewrite Hvs in Hcodes, Helem.
  assert (Hne : a ≠ b).
  { intros ->. by destruct Hba. }
  assert (Hperm : classes ≡ₚ [a; b]).
  { apply NoDup_Permutation; [done| |done].
    repeat constructor; set_solver. }
  assert (Hcl : classes = [a; b]).
  { pose proof (Permutation_length Hperm) as Hlen.
    destruct classes as [|p [|q [|? ?]]]; try done.
    assert (Hp : p ∈ [a; b]) by (rewrite <-Hperm; set_solver).
    assert (Hq : q ∈ [a; b]) by (rewrite <-Hperm; set_solver).
    apply NoDup_cons in Hnd as [Hpq _].
    apply StronglySorted_inv in Hsorted as [_ Hle].
    apply Forall_cons in Hle as [Hle _].
    assert (p = a ∨ p = b) as [-> | ->] by set_solver;
      assert (q = a ∨ q = b) as [-> | ->] by set_solver;
      try done; set_solver. }
  subst classes.
  apply Forall2_cons_inv_l in Hcodes as (x & l1 & (i & Hi & ->) & Hcodes & ->).
  apply Forall2_cons_inv_l in Hcodes as (y & l2 & (j & Hj & ->) & Hcodes & ->).
  apply Forall2_nil_inv_l in Hcodes as ->.
  destruct i as [|[|i]]; simpl in Hi; [|by simplify_eq..].
  destruct j as [|[|j]]; simpl in Hj; [by simplify_eq| |done].
  done.
Qed.

(** X22.  [convert_to_categorical] followed by [label_encode], both with
    their default lists: a numeric column is untouched, a non-numeric
    column with at most two distinct values ends up as a numeric column
    of its codes (the 0-based positions of its values in sorted order),
    and any other non-numeric column ends up categorical with its values
    kept.  The two calls work on, and return, the caller's one object. *)
Theorem convert_then_label_encode (σ : store) (r : ref) (df : DataFrame) :
  σ !! r = Some df →
  unique_labels df →
  (∀ c, c ∈ df → kind c ≠ number → low_cardinality c → one_type c) →
  ∃ df',
    (r1 ← convert_to_categorical r None; label_encode r1 None) σ
    = (<[r := df']> σ, Ok r)
    ∧ Forall2 (λ c c',
         (kind c = number → c' = c)
         ∧ (kind c ≠ number → low_cardinality c → encodes c c')
         ∧ (kind c ≠ number → ¬ low_cardinality c → c' = as_category c))
        df df'.
Proof.
  intros Hr Hu Hone.
  set (V := select_dtypes_exclude number df ++ []).
  set (df1 := categorical_where V df).
  assert (Hu1 : unique_labels df1)
    by (unfold unique_labels, df1; by rewrite columns_categorical_where).
  assert (Hcol : ∀ c, c ∈ df →
            (kind c = number ∧ (if decide (name c ∈ V) then as_category c else c) = c)
            ∨ (kind c ≠ number
               ∧ (if decide (name c ∈ V) then as_category c else c) = as_category c)).
  { intros c Hc. pose proof (selected_by_label df [] c Hu Hc) as Hsel.
    fold V in Hsel. destruct (decide (kind c = number)) as [Hk|Hk].
    - left. split; [done|]. rewrite decide_False; [done|].
      rewrite Hsel. intros [?|?%elem_of_nil]; done.
    - right. split; [done|]. rewrite decide_True; [done|]. apply Hsel. by left. }
  set (vars1 := filter (λ x, x ∉ default [] None) (select_dtypes_include category df1)).
  exists (encoded_where vars1 df1). split.
  { unfold mbind at 1. unfold M_bind.
    rewrite (convert_to_categorical_run σ r df None Hr Hu); [|set_solver].
    change (categorical_where _ df) with df1.
    rewrite (label_encode_run _ r df1 None); [|by rewrite lookup_insert_eq|done|].
    - by rewrite insert_insert_eq.
    - intros c1 (c & -> & Hc)%list_elem_of_fmap (Hk1 & _ & Hlow1).
      destruct (Hcol c Hc) as [[Hk Heq]|[Hk Heq]]; rewrite Heq in *.
      + by rewrite Hk in Hk1.
      + intros v w. apply (Hone c Hc Hk Hlow1). }
  unfold encoded_where. apply Forall2_fmap_r.
  unfold df1. unfold categorical_where. apply Forall2_fmap_r.
  apply Forall_Forall2_diag, Forall_forall. intros c Hc.
  unfold compose. cbv beta.
  assert (Hc1 : (if decide (name c ∈ V) then as_category c else c) ∈ df1).
  { apply list_elem_of_fmap. by exists c. }
  pose proof (vars_to_encode_elem df1 (default [] None) _ Hu1 Hc1) as Hvars.
  fold vars1 in Hvars.
  destruct (Hcol c Hc) as [[Hk Heq]|[Hk Heq]]; rewrite Heq in *.
  - rewrite decide_False; [done|]. intros [Hin _]. apply Hvars in Hin as [Hcat _].
    by rewrite Hk in Hcat.
  - split_and!; [done| |].
    + intros _ Hlow. rewrite decide_True.
      * by apply (encode_column_encodes (as_category c)).
      * split; [|done]. apply Hvars. split; [done|]. apply not_elem_of_nil.
    + intros _ Hlow. rewrite decide_False; [done|]. by intros [_ ?].
Qed.

Lemma convert_then_label_encode_witness :
  ∃ df' : DataFrame,
    (r1 ← convert_to_categorical 1%positive None; label_encode r1 None) raw_store
    = (<[1%positive := df']> raw_store, Ok 1%positive)
    ∧ df' = [ mkColumn "when" number [Num 0; Num 1];
              mkColumn "paid" number [Num 3; Num 8] ].
Proof.
  destruct (convert_then_label_encode raw_store 1%positive raw)
    as (df' & Hrun & Hcols).
  - reflexivity.
  - unfold unique_labels. vm_compute. repeat constructor; set_solver.
  - intros c Hc _ _. apply one_type_check. revert Hc.
    repeat (intros [->|Hc]%elem_of_cons; [reflexivity|revert Hc]).
    by intros ?%elem_of_nil.
  - exists df'. split; [exact Hrun|].
    apply Forall2_cons_inv_l in Hcols as (c1 & l1 & (_ & H1 & _) & Hcols & ->).
    apply Forall2_cons_inv_l in Hcols as (c2 & l2 & (H2 & _) & Hcols & ->).
    apply Forall2_nil_inv_l in Hcols as ->.
    rewrite H2 by done.
    assert (Henc : encodes (mkColumn "when" object
                              [Str "2023-07-15"; Str "2023-12-01"]) c1).
    { apply H1; [done|]. unfold low_cardinality. vm_compute. lia. }
    assert (Hvals : values c1 = [Num 0; Num 1]).
    { eapply encodes_two_values; [| | |exact Henc]; [reflexivity..|].
      vm_compute. discriminate. }
    destruct Henc as (Hn & Hk & _). destruct c1 as [n k vs].
    simpl in Hn, Hk, Hvals. by subst.
Defined.

Lemma unique_labels_assign var k vs df :
  unique_labels df → unique_labels (assign var k vs df).
Proof.
  intros Hu. destruct (decide (var ∈ columns df)) as [Hin|Hnot].
  - apply list_elem_of_fmap in Hin as (c & -> & Hc).
    rewrite assign_existing by done. unfold unique_labels, columns.
    rewrite <-list_fmap_compose.
    erewrite list_fmap_ext; [exact Hu|].
    intros _ c' _. simpl. by case_decide.
  - rewrite assign_fresh by done. unfold unique_labels, columns.
    rewrite fmap_app. apply NoDup_app. split_and!; [done| |apply NoDup_singleton].
    intros x Hx ->%list_elem_of_singleton. done.
Qed.

Lemma unique_labels_write_features (year month day season : bool) src df :
  unique_labels df → unique_labels (write_features year month day season src df).
Proof.
  intros Hu. unfold write_features, write_feature.
  destruct year, month, day, season; repeat apply unique_labels_assign; done.
Qed.

Lemma feature_missing var (f : option Timestamp → value) src :
  f None = NaN →
  (∀ t, f (Some t) ≠ NaN) →
  holds_timestamps src →
  missing_fraction (feature_column var f src) = missing_fraction src.
Proof.
  intros Hnone Hsome Hsrc. unfold missing_fraction, feature_column. cbn [values].
  rewrite !length_fmap. f_equal. f_equal.
  unfold holds_timestamps in Hsrc.
  induction Hsrc as [|v vs [->|[t ->]] _ IH]; [done| |]; rewrite !fmap_cons.
  - rewrite !(filter_cons_True (λ v, v = NaN)) by done. simpl. by rewrite IH.
  - rewrite !(filter_cons_False (λ v, v = NaN)); [done|done|apply Hsome].
Qed.

Lemma season_feature_present t : season_feature (Some t) ≠ NaN.
Proof.
  unfold season_feature, dt_month. by destruct (ts_month t).
Qed.

Lemma feature_in_frame (year month day season : bool) src df var :
  var ∈ feature_labels year month day season →
  ∃ f, lookup_column var (write_features year month day season src df)
       = Some (feature_column var f src)
       ∧ f None = NaN ∧ ∀ t, f (Some t) ≠ NaN.
Proof.
  destruct (lookup_write_features year month day season src df)
    as (Hy & Hm & Hd & Hs).
  unfold feature_labels. rewrite !elem_of_app.
  intros [Hin|[Hin|[Hin|Hin]]].
  - destruct year; [|by apply elem_of_nil in Hin].
    apply list_elem_of_singleton in Hin as ->. exists dt_year. by rewrite Hy.
  - destruct month; [|by apply elem_of_nil in Hin].
    apply list_elem_of_singleton in Hin as ->. exists dt_month_name. by rewrite Hm.
  - destruct day; [|by apply elem_of_nil in Hin].
    apply list_elem_of_singleton in Hin as ->. exists dt_day_name. by rewrite Hd.
  - destruct season; [|by apply elem_of_nil in Hin].
    apply list_elem_of_singleton in Hin as ->. exists season_feature.
    rewrite Hs by done. split_and!; [done..|apply season_feature_present].
Qed.

(** X23.  [create_time_vars] (source column kept) followed by
    [check_missing]: a feature column is missing exactly in the rows where
    the timestamp is, so the report lists the source and every feature
    with one and the same percentage if a timestamp is missing, and lists
    none of them if none is. *)
Theorem create_time_vars_then_check_missing
    (sort : list (string * Q) → list (string * Q))
    (σ : store) (r : ref) (df : DataFrame) (time_var : string)
    (year month day season : option bool) (src : Column) :
  sorts_ascending sort →
  σ !! r = Some df →
  unique_labels df →
  lookup_column time_var df = Some src →
  kind src = datetime →
  holds_timestamps src →
  time_var ∉ feature_labels (kwarg true year) (kwarg true month)
               (kwarg true day) (kwarg true season) →
  ∃ df1 report,
    (r1 ← create_time_vars r time_var year month day season (Some false);
     check_missing sort r1) σ
    = (<[r := df1]> σ, Ok report)
    ∧ ∀ var,
        var ∈ time_var :: feature_labels (kwarg true year) (kwarg true month)
                            (kwarg true day) (kwarg true season) →
        ∀ q, (var, q) ∈ report
             ↔ NaN ∈ values src ∧ q = Some (missing_fraction src * 100)%Q.
Proof.
  intros Hsort Hr Hu Hsrc Hk Hts Hlabel.
  destruct (create_time_vars_body_succeeds time_var _ _ _ _ src df Hsrc Hk Hlabel)
    as (df4 & Hbody & Hsrc4).
  pose proof (create_time_vars_body_shape _ _ _ _ _ _ _ _ Hsrc Hbody) as Hshape.
  assert (Hu4 : unique_labels df4)
    by (rewrite Hshape; by apply unique_labels_write_features).
  destruct (check_missing_entries sort (<[r := df4]> σ) r df4 Hsort)
    as (report & Hrun & Hperm); [apply lookup_insert_eq|].
  exists df4, report. split.
  { unfold mbind at 1. unfold M_bind.
    rewrite (create_time_vars_run _ _ _ _ _ _ _ _ _ Hr), Hbody. simpl.
    by rewrite Hrun. }
  intros var Hvar q.
  assert (∃ cv, cv ∈ df4 ∧ name cv = var
                ∧ missing_fraction cv = missing_fraction src)
    as (cv & Hcv & Hname & Hmf).
  { apply elem_of_cons in Hvar as [->|Hvar].
    - exists src. by apply lookup_column_Some in Hsrc4 as [? ?].
    - destruct (feature_in_frame _ _ _ _ src df var Hvar)
        as (f & Hlook & Hnone & Hsome).
      rewrite <-Hshape in Hlook. apply lookup_column_Some in Hlook as [? ?].
      eexists. split_and!; [done..|]. by apply feature_missing. }
  rewrite Hperm, list_elem_of_fmap. split.
  - intros (c & [= Hn ->] & [Hpos Hc]%list_elem_of_filter).
    rewrite <-Hname in Hn.
    rewrite (unique_labels_inj df4 c cv Hu4 Hc Hcv) in * by done.
    rewrite Hmf in *. split; [|done]. by apply missing_fraction_positive.
  - intros [Hnan ->]. exists cv. rewrite Hname, Hmf. split; [done|].
    apply list_elem_of_filter. split; [|done].
    rewrite Hmf. by apply missing_fraction_positive.
Qed.

Lemma create_time_vars_then_check_missing_witness :
  ∃ (df1 : DataFrame) (report : Series),
    (r1 ← create_time_vars 1%positive "placed" None None None None (Some false);
     check_missing stable_sort r1) orders_store
    = (<[1%positive := df1]> orders_store, Ok report)
    ∧ ∀ q, ("season", q) ∈ report ↔ q = Some ((1 # 3) * 100)%Q.
Proof.
  destruct (create_time_vars_then_check_missing stable_sort orders_store
              1%positive orders "placed" None None None None
              (mkColumn "placed" datetime
                 [Time (mkTimestamp 2023 Jul 15); Time (mkTimestamp 2023 Dec 1); NaN]))
    as (df1 & report & Hrun & Hrows).
  - exact stable_sort_contract.
  - reflexivity.
  - unfold unique_labels. vm_compute. repeat constructor; set_solver.
  - reflexivity.
  - reflexivity.
  - unfold holds_timestamps. simpl.
    repeat (apply Forall_cons; split; [eauto|]). by apply Forall_nil.
  - simpl. set_solver.
  - exists df1, report. split; [exact Hrun|]. intros q.
    rewrite (Hrows "season") by (simpl; set_solver).
    split; [by intros [_ ->]|]. intros ->. split; [simpl; set_solver|done].
Defined.

(** ** create_time_vars: where the columns stand afterwards *)

(** [df[var] = s] replaces the column labelled [var] where it stands and
    appends it when there is none. *)
Lemma assign_shape var k vs df :
  unique_labels df →
  assign var k vs df
  = ((λ c, if decide (name c = var) then mkColumn var k vs else c) <$> df)
    ++ (if decide (var ∈ columns df) then [] else [mkColumn var k vs]).
Proof.
  intros Hu. case_decide as Hin.
  - apply list_elem_of_fmap in Hin as (c0 & -> & Hc0).
    rewrite assign_existing by done. by rewrite app_nil_r.
  - rewrite assign_fresh by done. f_equal.
    symmetry. etrans; [|apply list_fmap_id]. apply list_fmap_ext.
    intros _ c Hc%list_elem_of_lookup_2. simpl.
    rewrite decide_False; [done|]. intros <-. apply Hin.
    by apply list_elem_of_fmap_2.
Qed.

Lemma write_feature_lookup b var f src cur i c :
  unique_labels cur →
  cur !! i = Some c →
  write_feature b var f src cur !! i
  = Some (if decide (b = true ∧ name c = var)
          then feature_column var f src else c).
Proof.
  intros Hu Hi. unfold write_feature. destruct b; cycle 1.
  { rewrite decide_False; [done|]. by intros [? _]. }
  rewrite assign_shape by done.
  rewrite lookup_app_l by (rewrite length_fmap; by eapply lookup_lt_Some).
  rewrite list_lookup_fmap, Hi. simpl. f_equal.
  destruct (decide (name c = var)) as [Heq|Hne].
  - by rewrite decide_True.
  - rewrite decide_False; [done|]. by intros [_ ?].
Qed.

Lemma feature_labels_elem x (y m d s : bool) :
  x ∈ feature_labels y m d s
  ↔ (y = true ∧ x = "year") ∨ (m = true ∧ x = "month")
    ∨ (d = true ∧ x = "day") ∨ (s = true ∧ x = "season").
Proof.
  unfold feature_labels. rewrite !elem_of_app.
  destruct y, m, d, s; rewrite ?list_elem_of_singleton, ?elem_of_nil;
    naive_solver.
Qed.

Lemma write_features_lookup (y m d s : bool) src df i c :
  unique_labels df →
  df !! i = Some c →
  write_features y m d s src df !! i
  = Some (if decide (name c ∈ feature_labels y m d s)
          then feature_column (name c) (feature_for (name c)) src
          else c).
Proof.
  intros Hu Hi. unfold write_features.
  assert (Hu1 : unique_labels (write_feature y "year" dt_year src df)).
  { unfold write_feature. destruct y; [by apply unique_labels_assign|done]. }
  set (df1 := write_feature y "year" dt_year src df) in *.
  assert (Hu2 : unique_labels (write_feature m "month" dt_month_name src df1)).
  { unfold write_feature. destruct m; [by apply unique_labels_assign|done]. }
  set (df2 := write_feature m "month" dt_month_name src df1) in *.
  assert (Hu3 : unique_labels (write_feature d "day" dt_day_name src df2)).
  { unfold write_feature. destruct d; [by apply unique_labels_assign|done]. }
  set (df3 := write_feature d "day" dt_day_name src df2) in *.
  pose proof (write_feature_lookup y "year" dt_year src df i c Hu Hi) as H1.
  fold df1 in H1.
  pose proof (write_feature_lookup m "month" dt_month_name src df1 i _ Hu1 H1) as H2.
  fold df2 in H2.
  pose proof (write_feature_lookup d "day" dt_day_name src df2 i _ Hu2 H2) as H3.
  fold df3 in H3.
  rewrite (write_feature_lookup s "season" season_feature src df3 i _ Hu3 H3).
  f_equal. clear. destruct c as [n k vs]. cbn [name].
  destruct (decide (n = "year")) as [->|Hy];
    [destruct y, m, d, s; reflexivity|].
  destruct (decide (n = "month")) as [->|Hm];
    [destruct y, m, d, s; reflexivity|].
  destruct (decide (n = "day")) as [->|Hd];
    [destruct y, m, d, s; reflexivity|].
  destruct (decide (n = "season")) as [->|Hs];
    [destruct y, m, d, s; reflexivity|].
  rewrite (decide_False (P := y = true ∧ _)) by (by intros [_ ?]).
  cbn [name].
  rewrite (decide_False (P := m = true ∧ _)) by (by intros [_ ?]).
  cbn [name].
  rewrite (decide_False (P := d = true ∧ _)) by (by intros [_ ?]).
  cbn [name].
  rewrite (decide_False (P := s = true ∧ _)) by (by intros [_ ?]).
  rewrite decide_False; [done|].
  rewrite feature_labels_elem. naive_solver.
Qed.

Lemma write_feature_columns b var f src (labels added : list string) cur :
  unique_labels cur →
  columns cur = labels ++ added →
  var ∉ added →
  columns (write_feature b var f src cur)
  = labels ++ (added ++ filter (λ l, l ∉ labels) (if b then [var] else [])).
Proof.
  intros Hu Hcols Hvar. unfold write_feature. destruct b; cycle 1.
  { by rewrite filter_nil, app_nil_r. }
  rewrite assign_shape by done. unfold columns in *. rewrite fmap_app.
  rewrite <-list_fmap_compose.
  erewrite (list_fmap_ext _ name cur); cycle 1.
  { intros _ c _. simpl. by case_decide. }
  rewrite Hcols, <-(assoc_L (++)). do 2 f_equal.
  destruct (decide (var ∈ labels)) as [Hin|Hnot].
  - rewrite decide_True by (apply elem_of_app; by left).
    by rewrite (filter_cons_False (λ l, l ∉ labels)) by tauto.
  - rewrite decide_False by (rewrite elem_of_app; tauto).
    by rewrite (filter_cons_True (λ l, l ∉ labels)) by done.
Qed.

Lemma columns_write_features (y m d s : bool) src df :
  unique_labels df →
  columns (write_features y m d s src df)
  = columns df ++ filter (λ l, l ∉ columns df) (feature_labels y m d s).
Proof.
  intros Hu. unfold write_features, feature_labels. rewrite !filter_app.
  set (P := λ l, l ∉ columns df).
  assert (Hu1 : unique_labels (write_feature y "year" dt_year src df)).
  { unfold write_feature. destruct y; [by apply unique_labels_assign|done]. }
  set (df1 := write_feature y "year" dt_year src df) in *.
  assert (Hu2 : unique_labels (write_feature m "month" dt_month_name src df1)).
  { unfold write_feature. destruct m; [by apply unique_labels_assign|done]. }
  set (df2 := write_feature m "month" dt_month_name src df1) in *.
  assert (Hu3 : unique_labels (write_feature d "day" dt_day_name src df2)).
  { unfold write_feature. destruct d; [by apply unique_labels_assign|done]. }
  set (df3 := write_feature d "day" dt_day_name src df2) in *.
  assert (Hsub : ∀ (b : bool) x l, l ∈ filter P (if b then [x] else []) → l = x).
  { intros b x l [_ Hl]%list_elem_of_filter. destruct b; set_solver. }
  assert (H1 : columns df1 = columns df ++ ([] ++ filter P (if y then ["year"] else []))).
  { apply write_feature_columns; [done|by rewrite app_nil_r|apply not_elem_of_nil]. }
  assert (H2 : columns df2
               = columns df ++ (([] ++ filter P (if y then ["year"] else []))
                                ++ filter P (if m then ["month"] else []))).
  { apply write_feature_columns; [done..|].
    intros [?%elem_of_nil|Hin%Hsub]%elem_of_app; done. }
  assert (H3 : columns df3
               = columns df ++ ((([] ++ filter P (if y then ["year"] else []))
                                 ++ filter P (if m then ["month"] else []))
                                ++ filter P (if d then ["day"] else []))).
  { apply write_feature_columns; [done..|].
    intros [[?%elem_of_nil|Hin%Hsub]%elem_of_app|Hin%Hsub]%elem_of_app; done. }
  rewrite (write_feature_columns s "season" season_feature src (columns df) _ df3 Hu3 H3).
  - simpl. by rewrite <-!(assoc_L (++)).
  - intros [[[?%elem_of_nil|Hin%Hsub]%elem_of_app|Hin%Hsub]%elem_of_app|Hin%Hsub]%elem_of_app;
      done.
Qed.

(** C7 (as amended).  Whatever the switches, a successful call keeps the
    row count, and every column it does not overwrite or drop stays as it
    was, cell by cell.  When no column of the dataset already carries the
    label of a switched-on feature (and the source column holds
    datetimes), the call succeeds and the returned dataset is the old
    columns, less the source column if dropped, followed by the new columns
    in the order year, month, day, season.  A column that already carries
    such a label is overwritten where it stands: in the caller's dataset
    after a successful call every old column is at its old position, with
    the feature's cells if its label is a switched-on feature and unchanged
    otherwise, and only the features whose label was not a column are
    appended, in the order year, month, day, season; the returned dataset
    is that dataset, less the source column if dropped. *)
Theorem create_time_vars_shape (σ : store) (r : ref) (df : DataFrame)
    (time_var : string) (year month day season drop : option bool) (n : nat) :
  let y := kwarg true year in
  let m := kwarg true month in
  let d := kwarg true day in
  let s := kwarg true season in
  σ !! r = Some df →
  unique_labels df →
  rows n df →
  (∀ σ' r',
     create_time_vars r time_var year month day season drop σ = (σ', Ok r') →
     ∃ df', σ' !! r' = Some df'
       ∧ rows n df'
       ∧ ∀ c, c ∈ df → name c ∉ feature_labels y m d s →
              (kwarg true drop = true → name c ≠ time_var) → c ∈ df')
  ∧ (∀ src,
       lookup_column time_var df = Some src →
       kind src = datetime →
       (∀ label, label ∈ feature_labels y m d s → label ∉ columns df) →
       ∃ σ' r' df',
         create_time_vars r time_var year month day season drop σ = (σ', Ok r')
         ∧ σ' !! r' = Some df'
         ∧ df' = (if kwarg true drop then filter (λ c, name c ≠ time_var) df
                  else df) ++ feature_columns src y m d s
         ∧ columns df'
           = (if kwarg true drop then filter (λ l, l ≠ time_var) (columns df)
              else columns df) ++ feature_labels y m d s
         ∧ rows (length (values src)) (feature_columns src y m d s))
  ∧ (∀ src σ' r',
       lookup_column time_var df = Some src →
       create_time_vars r time_var year month day season drop σ = (σ', Ok r') →
       ∃ df1 df',
         σ' !! r = Some df1
         ∧ σ' !! r' = Some df'
         ∧ df' = (if kwarg true drop then filter (λ c, name c ≠ time_var) df1
                  else df1)
         ∧ columns df1
           = columns df
             ++ filter (λ l, l ∉ columns df) (feature_labels y m d s)
         ∧ ∀ i c, df !! i = Some c →
             df1 !! i
             = Some (if decide (name c ∈ feature_labels y m d s)
                     then feature_column (name c) (feature_for (name c)) src
                     else c)).
Proof.
  intros y m d s Hr Hu Hrows. split_and!; cycle 2.
  { intros src σ' r' Hsrc.
    rewrite (create_time_vars_run _ _ _ _ _ _ _ _ _ Hr). fold y m d s.
    destruct (create_time_vars_body _ _ _ _ _ df) as [df4 [[]|e]] eqn:Hbody;
      [|done].
    apply (create_time_vars_body_shape _ _ _ _ _ src) in Hbody as ->; [|done].
    set (df4 := write_features y m d s src df).
    assert (Hcols : columns df4
              = columns df ++ filter (λ l, l ∉ columns df) (feature_labels y m d s))
      by by apply columns_write_features.
    assert (Hpos : ∀ i c, df !! i = Some c →
              df4 !! i
              = Some (if decide (name c ∈ feature_labels y m d s)
                      then feature_column (name c) (feature_for (name c)) src
                      else c))
      by (intros i c; by apply write_features_lookup).
    cbv zeta. destruct (kwarg true drop).
    - case_decide; [|done]. intros [= <- <-].
      assert (Hfresh : fresh (dom (<[r:=df4]> σ)) ≠ r).
      { intros Heq. apply (is_fresh (dom (<[r:=df4]> σ))). rewrite Heq.
        apply elem_of_dom. rewrite lookup_insert_eq. eauto. }
      exists df4, (filter (λ c, name c ≠ time_var) df4).
      split_and!; [|apply lookup_insert_eq|done..].
      rewrite lookup_insert_ne by done. apply lookup_insert_eq.
    - intros [= <- <-]. exists df4, df4.
      split_and!; [apply lookup_insert_eq|apply lookup_insert_eq|done..]. }
  - intros σ' r'. rewrite (create_time_vars_run _ _ _ _ _ _ _ _ _ Hr).
    fold y m d s.
    destruct (create_time_vars_body _ _ _ _ _ df) as [df4 [[]|e]] eqn:Hbody; [|done].
    apply (create_time_vars_body_rows n) in Hbody as [Hrows4 Hkeep]; [|done].
    cbv zeta. destruct (kwarg true drop).
    + case_decide; [|done]. intros [= <- <-].
      eexists. split; [apply lookup_insert_eq|]. split.
      * by apply Forall_filter_rows.
      * intros c Hin Hlabel Hne. apply list_elem_of_filter. auto.
    + intros [= <- <-]. eexists. split; [apply lookup_insert_eq|]. auto.
  - intros src Hsrc Hk Hfresh.
    rewrite (create_time_vars_run _ _ _ _ _ _ _ _ _ Hr). fold y m d s.
    rewrite (create_time_vars_body_fresh _ _ _ _ _ src) by done.
    assert (Hin : time_var ∈ columns df).
    { apply lookup_column_Some in Hsrc as [Hin <-].
      by apply list_elem_of_fmap_2. }
    assert (Hrowsf : rows (length (values src)) (feature_columns src y m d s)).
    { unfold rows, feature_columns, feature_column.
      destruct y, m, d, s; simpl; repeat constructor;
        simpl; by rewrite !length_fmap. }
    cbv zeta. destruct (kwarg true drop).
    + rewrite decide_True by (rewrite columns_app, elem_of_app; by left).
      assert (Hf : filter (λ c, name c ≠ time_var)
                     (df ++ feature_columns src y m d s)
                   = filter (λ c, name c ≠ time_var) df
                     ++ feature_columns src y m d s).
      { rewrite filter_app. f_equal. apply filter_all.
        apply Forall_forall. intros c Hc Heq.
        apply (Hfresh time_var); [|done].
        rewrite <-(columns_feature_columns src), <-Heq.
        by apply list_elem_of_fmap_2. }
      eexists _, _, _. split_and!; [done|apply lookup_insert_eq|exact Hf| |done].
      rewrite Hf, columns_app, columns_feature_columns. f_equal.
      symmetry. exact (filter_columns (λ l, l ≠ time_var) df).
    + eexists _, _, _. split_and!; [done|apply lookup_insert_eq|done| |done].
      by rewrite columns_app, columns_feature_columns.
Qed.

Lemma create_time_vars_shape_witness :
  ∃ (σ' : store) (r' : ref) (df' : DataFrame),
    create_time_vars 1%positive "placed" None None None None None orders_store
    = (σ', Ok r')
    ∧ σ' !! r' = Some df'
    ∧ columns df' = ["total"; "year"; "month"; "day"; "season"].
Proof.
  destruct (create_time_vars_shape orders_store 1%positive orders "placed"
              None None None None None 3) as (_ & Hfresh & _).
  - reflexivity.
  - unfold unique_labels. vm_compute. repeat constructor; set_solver.
  - unfold rows. by repeat constructor.
  - destruct (Hfresh (mkColumn "placed" datetime
                 [Time (mkTimestamp 2023 Jul 15); Time (mkTimestamp 2023 Dec 1); NaN]))
      as (σ' & r' & df' & Hrun & Hlook & _ & Hcols & _).
    + reflexivity.
    + reflexivity.
    + intros label Hin. vm_compute in Hin. vm_compute. set_solver.
    + exists σ', r', df'. split_and!; [exact Hrun|exact Hlook|].
      rewrite Hcols. reflexivity.
Defined.

(** C7 as stated fails on a dataset that already has a column labelled
    like a feature: on [visits], whose columns are [year], [seen] and
    [count], the call leaves [year] in first place (with the new contents)
    and returns [year; count; month; day; season]; the year is not appended
    after the old columns. *)
Lemma create_time_vars_overwrites_in_place :
  ¬ (∀ (σ σ' : store) (r r' : ref) (df df' : DataFrame) (time_var : string),
       σ !! r = Some df →
       create_time_vars r time_var None None None None None σ = (σ', Ok r') →
       σ' !! r' = Some df' →
       columns df'
       = filter (λ l, l ≠ time_var) (columns df)
         ++ ["year"; "month"; "day"; "season"]).
Proof.
  intros H.
  pose (res := create_time_vars 1%positive "seen" None None None None None
                 visits_store).
  assert (Hres : res = (res.1, Ok 2%positive)) by (vm_compute; reflexivity).
  pose (df' := default [] (res.1 !! 2%positive)).
  specialize (H visits_store res.1 1%positive 2%positive visits df' "seen"
                eq_refl Hres).
  assert (Hcols : columns df' = ["year"; "count"; "month"; "day"; "season"])
    by (vm_compute; reflexivity).
  rewrite Hcols in H. specialize (H ltac:(vm_compute; reflexivity)).
  vm_compute in H. discriminate H.
Qed.
